(** * Enrollment bot of the academy: admission core and dialogue

    A shallow embedding of [src/main.py]: the SQLite store
    ([init_db], [count_in_group], [get_group_limit], [get_remaining],
    [try_enroll]), the aiogram dialogue handlers in their registration
    order, and an interleaving model of concurrent [try_enroll] calls.

    Python [str] values are lists of Unicode code points; [int] is [Z];
    a [dict] with string keys is a [gmap]. *)

From Stdlib Require Import ZArith NArith List Lia Bool Sorted.
From stdpp Require Import base gmap strings list fin_maps.
Import ListNotations.

Local Open Scope Z_scope.

(** * Python text *)

Abbreviation char := N (only parsing).
Abbreviation pystr := (list N) (only parsing).

Module Unicode.

(** Character classes of CPython (Unicode database 14.0.0), as closed
    ranges of code points. *)

Definition in_ranges (tbl : list (N * N)) (c : char) : bool :=
  existsb (fun r => (fst r <=? c)%N && (c <=? snd r)%N) tbl.

(** [str.isspace], also the class used by [str.split()], [str.strip()]
    and the pattern [\s]. *)
Definition whitespace_ranges : list (N * N) :=
  [(9, 13); (28, 32); (133, 133); (160, 160); (5760, 5760); (8192, 8202);
   (8232, 8233); (8239, 8239); (8287, 8287); (12288, 12288)]%N.

(** [str.isdecimal], the class of the pattern [\d] (category Nd). *)
Definition decimal_ranges : list (N * N) :=
  [(48, 57); (1632, 1641); (1776, 1785); (1984, 1993); (2406, 2415);
   (2534, 2543); (2662, 2671); (2790, 2799); (2918, 2927); (3046, 3055);
   (3174, 3183); (3302, 3311); (3430, 3439); (3558, 3567); (3664, 3673);
   (3792, 3801); (3872, 3881); (4160, 4169); (4240, 4249); (6112, 6121);
   (6160, 6169); (6470, 6479); (6608, 6617); (6784, 6793); (6800, 6809);
   (6992, 7001); (7088, 7097); (7232, 7241); (7248, 7257); (42528, 42537);
   (43216, 43225); (43264, 43273); (43472, 43481); (43504, 43513);
   (43600, 43609); (44016, 44025); (65296, 65305); (66720, 66729);
   (68912, 68921); (69734, 69743); (69872, 69881); (69942, 69951);
   (70096, 70105); (70384, 70393); (70736, 70745); (70864, 70873);
   (71248, 71257); (71360, 71369); (71472, 71481); (71904, 71913);
   (72016, 72025); (72784, 72793); (73040, 73049); (73120, 73129);
   (92768, 92777); (92864, 92873); (93008, 93017); (120782, 120831);
   (123200, 123209); (123632, 123641); (125264, 125273); (130032, 130041)]%N.

(** [str.isdigit] (Numeric_Type Digit or Decimal). *)
Definition digit_ranges : list (N * N) :=
  [(48, 57); (178, 179); (185, 185); (1632, 1641); (1776, 1785);
   (1984, 1993); (2406, 2415); (2534, 2543); (2662, 2671); (2790, 2799);
   (2918, 2927); (3046, 3055); (3174, 3183); (3302, 3311); (3430, 3439);
   (3558, 3567); (3664, 3673); (3792, 3801); (3872, 3881); (4160, 4169);
   (4240, 4249); (4969, 4977); (6112, 6121); (6160, 6169); (6470, 6479);
   (6608, 6618); (6784, 6793); (6800, 6809); (6992, 7001); (7088, 7097);
   (7232, 7241); (7248, 7257); (8304, 8304); (8308, 8313); (8320, 8329);
   (9312, 9320); (9332, 9340); (9352, 9360); (9450, 9450); (9461, 9469);
   (9471, 9471); (10102, 10110); (10112, 10120); (10122, 10130);
   (42528, 42537); (43216, 43225); (43264, 43273); (43472, 43481);
   (43504, 43513); (43600, 43609); (44016, 44025); (65296, 65305);
   (66720, 66729); (68160, 68163); (68912, 68921); (69216, 69224);
   (69714, 69722); (69734, 69743); (69872, 69881); (69942, 69951);
   (70096, 70105); (70384, 70393); (70736, 70745); (70864, 70873);
   (71248, 71257); (71360, 71369); (71472, 71481); (71904, 71913);
   (72016, 72025); (72784, 72793); (73040, 73049); (73120, 73129);
   (92768, 92777); (92864, 92873); (93008, 93017); (120782, 120831);
   (123200, 123209); (123632, 123641); (125264, 125273); (127232, 127242);
   (130032, 130041)]%N.

Definition isspace (c : char) : bool := in_ranges whitespace_ranges c.
Definition isdecimal (c : char) : bool := in_ranges decimal_ranges c.
Definition isdigit (c : char) : bool := in_ranges digit_ranges c.

(** Decidable comparisons of two tables. *)
Definition ranges_disjoint (t1 t2 : list (N * N)) : bool :=
  forallb (fun r1 =>
    forallb (fun r2 => (snd r1 <? fst r2)%N || (snd r2 <? fst r1)%N) t2) t1.

Definition ranges_subset (t1 t2 : list (N * N)) : bool :=
  forallb (fun r1 =>
    existsb (fun r2 => (fst r2 <=? fst r1)%N && (snd r1 <=? snd r2)%N) t2) t1.

End Unicode.

Module Str.
Import Unicode.

(** [s.split()]: maximal runs of non-whitespace characters. [cur] is
    the token being read. *)
Fixpoint split_from (cur : pystr) (s : pystr) : list pystr :=
  match s with
  | [] => match cur with [] => [] | _ => [cur] end
  | c :: s' =>
      if isspace c then
        match cur with
        | [] => split_from [] s'
        | _ => cur :: split_from [] s'
        end
      else split_from (cur ++ [c]) s'
  end.

Definition split (s : pystr) : list pystr := split_from [] s.

(** [s.split(sep)] for a separator of one character: every occurrence
    cuts, empty pieces are kept. *)
Fixpoint split_on_from (sep : char) (cur : pystr) (s : pystr) : list pystr :=
  match s with
  | [] => [cur]
  | c :: s' =>
      if (c =? sep)%N then cur :: split_on_from sep [] s'
      else split_on_from sep (cur ++ [c]) s'
  end.

Definition split_on (sep : char) (s : pystr) : list pystr :=
  split_on_from sep [] s.

(** [sep.join(l)]. *)
Fixpoint join (sep : pystr) (l : list pystr) : pystr :=
  match l with
  | [] => []
  | x :: rest =>
      match rest with
      | [] => x
      | _ => x ++ sep ++ join sep rest
      end
  end.

(** [s.lstrip()], [s.rstrip()], [s.strip()]. *)
Fixpoint lstrip (s : pystr) : pystr :=
  match s with
  | [] => []
  | c :: s' => if isspace c then lstrip s' else s
  end.

Definition rstrip (s : pystr) : pystr := rev (lstrip (rev s)).

Definition strip (s : pystr) : pystr := rstrip (lstrip s).

(** [s.lstrip(ch)] and [s.replace(ch, "")] for a single character. *)
Fixpoint lstrip_char (ch : char) (s : pystr) : pystr :=
  match s with
  | [] => []
  | c :: s' => if (c =? ch)%N then lstrip_char ch s' else s
  end.

Definition remove_char (ch : char) (s : pystr) : pystr :=
  List.filter (fun c => negb (c =? ch)%N) s.

(** [''.join(filter(str.isdigit, s))]. *)
Definition digits (s : pystr) : pystr := List.filter isdigit s.

(** A piece that [split] can return: not empty, no whitespace. *)
Definition is_token (t : pystr) : Prop :=
  t <> [] /\ Forall (fun c => isspace c = false) t.

(** [len(s)] as a Python int. *)
Definition len {A} (l : list A) : Z := Z.of_nat (length l).

(** Equality test on text. *)
Definition eqb (a b : pystr) : bool := bool_decide (a = b).

(** [x in l] for a tuple or list of strings. *)
Definition mem (x : pystr) (l : list pystr) : bool := existsb (eqb x) l.

End Str.

Module Re.
Import Unicode.

(** The pattern of [set_phone_manual], [^[\d\s\+\-\(\)]+$], applied with
    [re.match]. *)

(** The bracket class: [\d], [\s], and the characters + - ( ). *)
Definition phone_class (c : char) : bool :=
  isdecimal c || isspace c
  || (c =? 43)%N || (c =? 45)%N || (c =? 40)%N || (c =? 41)%N.

(** [$] without MULTILINE: at the end of the text, or just before a
    newline that ends the text. *)
Definition at_dollar (s : pystr) : bool :=
  match s with
  | [] => true
  | [c] => (c =? 10)%N
  | _ => false
  end.

(** [cls+$] from the start of [s]: one character of the class, then
    either the end anchor holds here or the repetition goes on. *)
Fixpoint plus_dollar (cls : char -> bool) (s : pystr) : bool :=
  match s with
  | [] => false
  | c :: s' => cls c && (at_dollar s' || plus_dollar cls s')
  end.

Definition phone_regexp (s : pystr) : bool := plus_dollar phone_class s.

End Re.


(** * Exceptions and the state monad of the embedding *)

Inductive Exn :=
| OperationalError (msg : string)
| IntegrityError (msg : string)
| OverflowError (msg : string)
| KeyError (key : string)
| AttributeError (msg : string).

(** A computation over a mutable state [S] that returns a value or
    raises; the state changes made before a raise persist. *)
Definition M (S A : Type) : Type := S -> S * (Exn + A).

Definition ret {S A} (a : A) : M S A := fun s => (s, inr a).

Definition raise {S A} (e : Exn) : M S A := fun s => (s, inl e).

Definition bind {S A B} (m : M S A) (k : A -> M S B) : M S B :=
  fun s =>
    match m s with
    | (s', inl e) => (s', inl e)
    | (s', inr a) => k a s'
    end.

Declare Scope monad_scope.
Delimit Scope monad_scope with monad.
Notation "x <- m ;; k" := (bind m (fun x => k))
  (at level 100, m at next level, right associativity) : monad_scope.
Notation "m ;;; k" := (bind m (fun _ => k))
  (at level 100, right associativity) : monad_scope.
Local Open Scope monad_scope.

Definition gets {S A} (f : S -> A) : M S A := fun s => (s, inr (f s)).

Definition modify {S} (f : S -> S) : M S unit := fun s => (f s, inr tt).

(** [[f(x) for x in l]] with effects, left to right. *)
Fixpoint mapM {S A B} (f : A -> M S B) (l : list A) : M S (list B) :=
  match l with
  | [] => ret []
  | x :: l' => y <- f x ;; ys <- mapM f l' ;; ret (y :: ys)
  end.

(** [for x in l: f(x)]. *)
Fixpoint forM_ {S A} (l : list A) (f : A -> M S unit) : M S unit :=
  match l with
  | [] => ret tt
  | x :: l' => f x ;;; forM_ l' f
  end.

(** * Configuration read at import time *)

Record Config := {
  ADMIN_ID : option Z;
  ADMIN_PHONE : pystr;
  DIRECTOR_USERNAME : option pystr;
  DEFAULT_GROUP_LIMIT : Z }.

(** [AGE_GROUPS = ("9–11 лет", "12–14 лет")]. *)
Definition AGE_GROUPS : list pystr :=
  [ [57; 8211; 49; 49; 32; 1083; 1077; 1090];
    [49; 50; 8211; 49; 52; 32; 1083; 1077; 1090] ]%N.

(** * The SQLite store *)

Module Row.
(** One row of the table [enrollments]. *)
Record t := mk {
  id : Z;
  child_full : pystr;
  age_group : pystr;
  phone : option pystr;
  tg_user_id : option Z;
  tg_username : option pystr;
  created_at : pystr }.
End Row.

(** The database file. A table that was never created is [None].
    [sqlite_sequence] is the AUTOINCREMENT counter of [enrollments];
    [group_limits] maps its primary key [age_group] to [limit_value]. *)
Record Database := mkDatabase {
  journal_wal : bool;
  enrollments : option (list Row.t);
  sqlite_sequence : Z;
  group_limits : option (gmap (list N) Z);
  idx_enrollments_age : bool }.

Definition empty_database : Database :=
  mkDatabase false None 0 None false.

(** An open connection: the file as committed, and the view of the
    transaction this connection has open, if any. *)
Record Conn := mkConn {
  file : Database;
  txn : option Database }.

Module Sql.

(** What the connection reads: its open transaction, else the file. *)
Definition view (c : Conn) : Database :=
  match txn c with
  | Some d => d
  | None => file c
  end.

(** A statement that changes the database: inside the open
    transaction if there is one, else directly (autocommit). *)
Definition write (f : Database -> Database) (c : Conn) : Conn :=
  match txn c with
  | Some d => mkConn (file c) (Some (f d))
  | None => mkConn (f (file c)) None
  end.

(** Insert statements open a transaction first when none is open
    (the implicit BEGIN of the [sqlite3] module). *)
Definition implicit_begin (c : Conn) : Conn :=
  match txn c with
  | Some _ => c
  | None => mkConn (file c) (Some (file c))
  end.

Definition commit (c : Conn) : Conn := mkConn (view c) None.

Definition rollback (c : Conn) : Conn := mkConn (file c) None.

(** [PRAGMA journal_mode=WAL]. *)
Definition pragma_wal (d : Database) : Database :=
  mkDatabase true (enrollments d) (sqlite_sequence d) (group_limits d)
    (idx_enrollments_age d).

(** [BEGIN IMMEDIATE]. *)
Definition begin_immediate : M Conn unit := fun c =>
  match txn c with
  | Some _ =>
      (c, inl (OperationalError
                 "cannot start a transaction within a transaction"))
  | None => (mkConn (file c) (Some (file c)), inr tt)
  end.

(** [CREATE TABLE IF NOT EXISTS enrollments (...)]. *)
Definition create_enrollments : M Conn unit := modify (write (fun d =>
  match enrollments d with
  | Some _ => d
  | None =>
      mkDatabase (journal_wal d) (Some []) (sqlite_sequence d)
        (group_limits d) (idx_enrollments_age d)
  end)).

(** [CREATE TABLE IF NOT EXISTS group_limits (...)]. *)
Definition create_group_limits : M Conn unit := modify (write (fun d =>
  match group_limits d with
  | Some _ => d
  | None =>
      mkDatabase (journal_wal d) (enrollments d) (sqlite_sequence d)
        (Some ∅) (idx_enrollments_age d)
  end)).

(** [CREATE INDEX IF NOT EXISTS idx_enrollments_age ON
    enrollments(age_group)]. *)
Definition create_index : M Conn unit := fun c =>
  if idx_enrollments_age (view c) then (c, inr tt)
  else
    match enrollments (view c) with
    | None => (c, inl (OperationalError "no such table: main.enrollments"))
    | Some _ =>
        (write (fun d =>
           mkDatabase (journal_wal d) (enrollments d) (sqlite_sequence d)
             (group_limits d) true) c, inr tt)
    end.

(** Rows of one age group. *)
Definition rows_of (ag : pystr) (rows : list Row.t) : list Row.t :=
  List.filter (fun r => Str.eqb (Row.age_group r) ag) rows.

(** [SELECT COUNT( * ) FROM enrollments WHERE age_group=?]. *)
Definition select_count (ag : pystr) : M Conn Z := fun c =>
  match enrollments (view c) with
  | None => (c, inl (OperationalError "no such table: enrollments"))
  | Some rows => (c, inr (Str.len (rows_of ag rows)))
  end.

(** [SELECT limit_value FROM group_limits WHERE age_group=?], with
    [fetchone()]; also the [SELECT 1 ...] of [init_db]. *)
Definition select_limit (ag : pystr) : M Conn (option Z) := fun c =>
  match group_limits (view c) with
  | None => (c, inl (OperationalError "no such table: group_limits"))
  | Some tbl => (c, inr (tbl !! ag))
  end.

(** An [int] the [sqlite3] module can bind to a parameter: SQLite's
    INTEGER is a signed 64-bit value, and binding a Python [int]
    outside that range raises OverflowError before the statement
    runs. *)
Definition fits_int64 (v : Z) : bool :=
  (- 2 ^ 63 <=? v) && (v <? 2 ^ 63).

(** [INSERT INTO group_limits(age_group, limit_value) VALUES(?, ?)]:
    the implicit BEGIN, then the binding of the parameters, then the
    insert. *)
Definition insert_group_limit (ag : pystr) (v : Z) : M Conn unit := fun c =>
  let c := implicit_begin c in
  match group_limits (view c) with
  | None => (c, inl (OperationalError "no such table: group_limits"))
  | Some tbl =>
      if negb (fits_int64 v) then
        (c, inl (OverflowError
                   "Python int too large to convert to SQLite INTEGER"))
      else
        match tbl !! ag with
        | Some _ =>
            (c, inl (IntegrityError
                       "UNIQUE constraint failed: group_limits.age_group"))
        | None =>
            (write (fun d =>
               mkDatabase (journal_wal d) (enrollments d) (sqlite_sequence d)
                 (Some (<[ag := v]> tbl)) (idx_enrollments_age d)) c, inr tt)
        end
  end.

(** The largest [id] in use. *)
Definition max_id (rows : list Row.t) : Z :=
  fold_right (fun r acc => Z.max (Row.id r) acc) 0 rows.

(** [INSERT INTO enrollments (child_full, age_group, phone, tg_user_id,
    tg_username, created_at) VALUES (?, ?, ?, ?, ?, ?)]: the new row
    goes last, with an id one above every id used so far. The one
    caller binds [m.from_user.id] to [tg_user_id], a Telegram user id,
    which fits SQLite's INTEGER; the OverflowError of the binding for
    an [int] outside 64 bits (see [fits_int64]) is not part of this
    definition. *)
Definition insert_enrollment (child_full age_group : pystr)
    (phone : option pystr) (user_id : Z) (username : option pystr)
    (created_at : pystr) : M Conn unit := fun c =>
  let c := implicit_begin c in
  match enrollments (view c) with
  | None => (c, inl (OperationalError "no such table: enrollments"))
  | Some rows =>
      let new_id := Z.max (sqlite_sequence (view c)) (max_id rows) + 1 in
      let row := Row.mk new_id child_full age_group phone (Some user_id)
                   username created_at in
      (write (fun d =>
         mkDatabase (journal_wal d) (Some (rows ++ [row])) new_id
           (group_limits d) (idx_enrollments_age d)) c, inr tt)
  end.

End Sql.

(** [with connect_db() as c: body]: [connect_db] runs the PRAGMAs, the
    body runs on the connection, and leaving the block commits, or
    rolls back when the body raised. The result is the file. *)
Definition with_connect_db {A} (body : M Conn A) : M Database A := fun d =>
  let c := mkConn (Sql.pragma_wal d) None in
  match body c with
  | (c', inr a) => (file (Sql.commit c'), inr a)
  | (c', inl e) => (file (Sql.rollback c'), inl e)
  end.

(** A call, made while connection [c] is open, of a helper that opens
    a connection of its own: it works on the file as committed. *)
Definition on_file {A} (m : M Database A) : M Conn A := fun c =>
  match m (file c) with
  | (d', r) => (mkConn d' (txn c), r)
  end.

Definition init_db (cfg : Config) : M Database unit :=
  with_connect_db (
    Sql.create_enrollments ;;;
    Sql.create_group_limits ;;;
    Sql.create_index ;;;
    forM_ AGE_GROUPS (fun ag =>
      cur <- Sql.select_limit ag ;;
      match cur with
      | Some _ => ret tt
      | None => Sql.insert_group_limit ag (DEFAULT_GROUP_LIMIT cfg)
      end)).

Definition count_in_group (age_group : pystr) : M Database Z :=
  with_connect_db (Sql.select_count age_group).

Definition get_group_limit (cfg : Config) (age_group : pystr)
    : M Database Z :=
  row <- with_connect_db (Sql.select_limit age_group) ;;
  ret (match row with
       | Some v => v
       | None => DEFAULT_GROUP_LIMIT cfg
       end).

Definition get_remaining (cfg : Config) (age_group : pystr)
    : M Database Z :=
  l <- get_group_limit cfg age_group ;;
  n <- count_in_group age_group ;;
  ret (Z.max (l - n) 0).

(** [now] is the value of [datetime.utcnow().isoformat(timespec=
    "seconds")] at the insert. *)
Definition try_enroll (cfg : Config) (now : pystr)
    (child_full age_group : pystr) (phone : option pystr) (user_id : Z)
    (username : option pystr) : M Database bool :=
  with_connect_db (
    Sql.begin_immediate ;;;
    current <- Sql.select_count age_group ;;
    limit_v <- on_file (get_group_limit cfg age_group) ;;
    if current >=? limit_v then ret false
    else
      Sql.insert_enrollment child_full age_group phone user_id username
        now ;;;
      ret true).

(** * The dialogue *)

Module Enroll.
(** [class Enroll(StatesGroup)]. *)
Inductive t := name_full | age_group | phone | confirm.

Definition eqb (a b : t) : bool :=
  match a, b with
  | name_full, name_full | age_group, age_group
  | phone, phone | confirm, confirm => true
  | _, _ => false
  end.
End Enroll.

(** Incoming update, as far as the handlers look at it. *)
Record User := mkUser {
  user_id : Z;
  username : option pystr }.

Record Contact := mkContact {
  phone_number : pystr;
  contact_user_id : option Z }.

Record Message := mkMessage {
  text : option pystr;
  contact : option Contact;
  from_user : User }.

(** Literal texts the filters compare with. *)
Module Lit.
Definition slash_start : pystr := [47; 115; 116; 97; 114; 116]%N.
Definition start : pystr := [115; 116; 97; 114; 116]%N.
(** "Меню" *)
Definition menu : pystr := [1052; 1077; 1085; 1102]%N.
(** "Записаться на пробное занятие" *)
Definition enroll_trial : pystr :=
  [1047; 1072; 1087; 1080; 1089; 1072; 1090; 1100; 1089; 1103; 32;
   1085; 1072; 32; 1087; 1088; 1086; 1073; 1085; 1086; 1077; 32;
   1079; 1072; 1085; 1103; 1090; 1080; 1077]%N.
(** "✅ Подтвердить" *)
Definition confirm_btn : pystr :=
  [9989; 32; 1055; 1086; 1076; 1090; 1074; 1077; 1088; 1076; 1080; 1090;
   1100]%N.
(** "✏️ Изменить" *)
Definition edit_btn : pystr :=
  [9999; 65039; 32; 1048; 1079; 1084; 1077; 1085; 1080; 1090; 1100]%N.
(** "Задать вопрос" *)
Definition ask_btn : pystr :=
  [1047; 1072; 1076; 1072; 1090; 1100; 32; 1074; 1086; 1087; 1088; 1086;
   1089]%N.
(** "Контакты" *)
Definition contacts_btn : pystr :=
  [1050; 1086; 1085; 1090; 1072; 1082; 1090; 1099]%N.
(** "⬅️ В меню" *)
Definition back_to_menu : pystr :=
  [11013; 65039; 32; 1042; 32; 1084; 1077; 1085; 1102]%N.
(** "не указан" *)
Definition not_given : pystr :=
  [1085; 1077; 32; 1091; 1082; 1072; 1079; 1072; 1085]%N.
(** " " *)
Definition space : pystr := [32]%N.
End Lit.

(** Outgoing messages. The wording and layout of a message are the
    front end's business; a reply is recorded by which message it is,
    the values formatted into it, and the keyboard sent with it. *)
Inductive ChatUrl :=
| TMe (name : pystr)
| TgUser (uid : Z).

Inductive Keyboard :=
| main_menu_kb
| phone_kb
| confirm_kb
| age_kb (buttons : list pystr)
| ReplyKeyboardRemove
| url_kb (url : ChatUrl)
| no_markup.

Inductive Text :=
| Greeting
| AskContact
| AskName
| OwnContactPlease
| PhoneTooShort
| PhoneFormatHelp
| NameReprompt
| NoSeatsAfterName
| ChooseAgeSchedule (groups : list pystr)
| CheckData (child_full age_group phone : pystr)
| NoSeatsAfterConfirm
| ChooseAgeLeft (left : list (pystr * Z))
| Enrolled
| StartOver
| PressToWrite
| NoLink
| DirectorContacts
| ChooseAction.

Inductive Reply :=
| Answer (t : Text) (kb : Keyboard)
| AnswerContact (phone_number : pystr).

(** The summary sent to the administrator. *)
Record AdminNote := mkAdminNote {
  note_child_full : pystr;
  note_age_group : pystr;
  note_phone : pystr;
  note_username : pystr;
  note_user_id : Z;
  note_created_at : pystr }.

Inductive LogRecord :=
| NotifyFailed (e : pystr)
| SendContactFailed (e : pystr).

(** What the outside does during one handler run: the two readings of
    the clock, and whether [bot.send_message] to the administrator and
    [answer_contact] raise ([Some e]) or deliver ([None]). *)
Record Env := mkEnv {
  utcnow_enroll : pystr;
  utcnow_notify : pystr;
  send_message_raises : option pystr;
  answer_contact_raises : option pystr }.

(** The store, the FSM context of the user, and what the bot has sent
    and logged so far (oldest first). *)
Record World := mkWorld {
  db : Database;
  fsm_state : option Enroll.t;
  fsm_data : gmap string (list N);
  replies : list Reply;
  admin_inbox : list AdminNote;
  log : list LogRecord }.

Definition lift_db {A} (m : M Database A) : M World A := fun w =>
  match m (db w) with
  | (d', r) =>
      (mkWorld d' (fsm_state w) (fsm_data w) (replies w) (admin_inbox w)
         (log w), r)
  end.

(** [await m.answer(t, reply_markup=kb)]. *)
Definition answer (t : Text) (kb : Keyboard) : M World unit :=
  modify (fun w =>
    mkWorld (db w) (fsm_state w) (fsm_data w) (replies w ++ [Answer t kb])
      (admin_inbox w) (log w)).

(** [await state.clear()]. *)
Definition state_clear : M World unit :=
  modify (fun w =>
    mkWorld (db w) None ∅ (replies w) (admin_inbox w) (log w)).

(** [await state.set_state(st)]. *)
Definition set_state (st : Enroll.t) : M World unit :=
  modify (fun w =>
    mkWorld (db w) (Some st) (fsm_data w) (replies w) (admin_inbox w)
      (log w)).

(** [await state.update_data(k=v)]. *)
Definition update_data (k : string) (v : pystr) : M World unit :=
  modify (fun w =>
    mkWorld (db w) (fsm_state w) (<[k := v]> (fsm_data w)) (replies w)
      (admin_inbox w) (log w)).

(** [await state.get_data()]. *)
Definition get_data : M World (gmap string (list N)) := gets fsm_data.

(** [d[k]]. *)
Definition getitem {S} (d : gmap string (list N)) (k : string)
    : M S pystr :=
  match d !! k with
  | Some v => ret v
  | None => raise (KeyError k)
  end.

(** [logging.warning(...)]. *)
Definition logging_warning (r : LogRecord) : M World unit :=
  modify (fun w =>
    mkWorld (db w) (fsm_state w) (fsm_data w) (replies w) (admin_inbox w)
      (log w ++ [r])).

(** [m.text] where a method of [str] is called on it. *)
Definition text_str {S} (m : Message) : M S pystr :=
  match text m with
  | Some t => ret t
  | None => raise (AttributeError "'NoneType' object has no attribute")
  end.

Definition build_chat_url (cfg : Config) : option ChatUrl :=
  match DIRECTOR_USERNAME cfg with
  | Some (c :: u) => Some (TMe (Str.lstrip_char 64 (c :: u)))
  | _ =>
      match ADMIN_ID cfg with
      | Some a => if a =? 0 then None else Some (TgUser a)
      | None => None
      end
  end.

(** [{ag: get_remaining(ag) for ag in AGE_GROUPS}]. *)
Definition remaining_by_group (cfg : Config) : M Database (list (pystr * Z)) :=
  mapM (fun ag => v <- get_remaining cfg ag ;; ret (ag, v)) AGE_GROUPS.

(** [all(v == 0 for v in left.values())]. *)
Definition all_zero (left : list (pystr * Z)) : bool :=
  forallb (fun p => snd p =? 0) left.

(** The groups [ag] of [AGE_GROUPS] with [left[ag] > 0], in order. *)
Definition with_seats (left : list (pystr * Z)) : list (pystr * Z) :=
  List.filter (fun p => 0 <? snd p) left.

Definition age_kb_dynamic (cfg : Config) : M Database Keyboard :=
  rem <- remaining_by_group cfg ;;
  let options := map fst (with_seats rem) in
  ret (age_kb (match options with
               | [] => [Lit.back_to_menu]
               | _ => options
               end)).

(** ** Handlers *)

Definition cmd_start : M World unit :=
  state_clear ;;;
  answer Greeting main_menu_kb.

Definition start_enroll : M World unit :=
  state_clear ;;;
  set_state Enroll.phone ;;;
  answer AskContact phone_kb.

Definition set_phone_from_contact (m : Message) (c : Contact)
    : M World unit :=
  let phone := phone_number c in
  if match contact_user_id c with
     | None => true
     | Some u => u =? user_id (from_user m)
     end
  then
    update_data "phone" phone ;;;
    set_state Enroll.name_full ;;;
    answer AskName ReplyKeyboardRemove
  else answer OwnContactPlease no_markup.

Definition set_phone_manual (m : Message) : M World unit :=
  t <- text_str m ;;
  let phone := Str.strip t in
  let digits := Str.digits phone in
  if Str.len digits <? 10 then answer PhoneTooShort no_markup
  else
    update_data "phone" phone ;;;
    set_state Enroll.name_full ;;;
    answer AskName ReplyKeyboardRemove.

Definition invalid_phone : M World unit :=
  answer PhoneFormatHelp no_markup.

Definition set_name_full (cfg : Config) (m : Message) : M World unit :=
  t <- text_str m ;;
  let text := Str.join Lit.space (Str.split t) in
  let parts := Str.split_on 32 text in
  if Str.len parts <? 2 then answer NameReprompt no_markup
  else
    let first := hd [] parts in
    let last := Str.join Lit.space (tl parts) in
    update_data "child_full" (first ++ Lit.space ++ last) ;;;
    set_state Enroll.age_group ;;;
    left <- lift_db (remaining_by_group cfg) ;;
    if all_zero left then answer NoSeatsAfterName main_menu_kb
    else
      kb <- lift_db (age_kb_dynamic cfg) ;;
      answer (ChooseAgeSchedule (map fst (with_seats left))) kb.

Definition set_age (m : Message) : M World unit :=
  t <- text_str m ;;
  update_data "age_group" t ;;;
  set_state Enroll.confirm ;;;
  d <- get_data ;;
  child_full <- getitem d "child_full" ;;
  age_group <- getitem d "age_group" ;;
  answer (CheckData child_full age_group
            (default Lit.not_given (d !! "phone"))) confirm_kb.

Definition confirm (cfg : Config) (env : Env) (m : Message)
    : M World unit :=
  d <- get_data ;;
  child_full <- getitem d "child_full" ;;
  age_group <- getitem d "age_group" ;;
  ok <- lift_db (try_enroll cfg (utcnow_enroll env) child_full age_group
                   (d !! "phone") (user_id (from_user m))
                   (username (from_user m))) ;;
  if negb ok then
    left <- lift_db (remaining_by_group cfg) ;;
    if all_zero left then answer NoSeatsAfterConfirm main_menu_kb
    else
      kb <- lift_db (age_kb_dynamic cfg) ;;
      answer (ChooseAgeLeft (with_seats left)) kb ;;;
      set_state Enroll.age_group
  else
    match ADMIN_ID cfg with
    | Some admin =>
        if admin =? 0 then ret tt
        else
          match send_message_raises env with
          | Some e => logging_warning (NotifyFailed e)
          | None =>
              modify (fun w =>
                mkWorld (db w) (fsm_state w) (fsm_data w) (replies w)
                  (admin_inbox w ++
                     [mkAdminNote child_full age_group
                        (default Lit.not_given (d !! "phone"))
                        (match username (from_user m) with
                         | Some (c :: u) => c :: u
                         | _ => [45%N]
                         end)
                        (user_id (from_user m)) (utcnow_notify env)])
                  (log w))
          end
    | None => ret tt
    end ;;;
    answer Enrolled main_menu_kb ;;;
    state_clear.

Definition edit : M World unit :=
  state_clear ;;;
  set_state Enroll.phone ;;;
  answer StartOver phone_kb.

Definition ask_question (cfg : Config) : M World unit :=
  state_clear ;;;
  match build_chat_url cfg with
  | Some url => answer PressToWrite (url_kb url)
  | None => answer NoLink no_markup
  end.

Definition contacts (cfg : Config) (env : Env) : M World unit :=
  state_clear ;;;
  let chat_url := build_chat_url cfg in
  let phone_clean :=
    Str.remove_char 45 (Str.remove_char 32
      (Str.remove_char 43 (ADMIN_PHONE cfg))) in
  match answer_contact_raises env with
  | Some e => logging_warning (SendContactFailed e)
  | None =>
      modify (fun w =>
        mkWorld (db w) (fsm_state w) (fsm_data w)
          (replies w ++ [AnswerContact phone_clean]) (admin_inbox w) (log w))
  end ;;;
  answer DirectorContacts
    (match chat_url with
     | Some url => url_kb url
     | None => no_markup
     end).

Definition fallback : M World unit :=
  answer ChooseAction main_menu_kb.

(** ** The router: handlers are tried in registration order, the first
    whose filters all pass handles the update. *)

Definition text_is (m : Message) (lit : pystr) : bool :=
  match text m with
  | Some t => Str.eqb t lit
  | None => false
  end.

Definition text_in (m : Message) (lits : list pystr) : bool :=
  match text m with
  | Some t => Str.mem t lits
  | None => false
  end.

Definition text_regexp (m : Message) : bool :=
  match text m with
  | Some t => Re.phone_regexp t
  | None => false
  end.

Definition in_state (w : World) (st : Enroll.t) : bool :=
  match fsm_state w with
  | Some s => Enroll.eqb s st
  | None => false
  end.

Definition dispatch (cfg : Config) (env : Env) (m : Message)
    : M World unit := fun w =>
  if text_in m [Lit.slash_start; Lit.start; Lit.menu] then cmd_start w
  else if text_is m Lit.enroll_trial then start_enroll w
  else
    match (if in_state w Enroll.phone then contact m else None) with
    | Some c => set_phone_from_contact m c w
    | None =>
        if in_state w Enroll.phone && text_regexp m
        then set_phone_manual m w
        else if in_state w Enroll.phone then invalid_phone w
        else if in_state w Enroll.name_full then set_name_full cfg m w
        else if in_state w Enroll.age_group && text_in m AGE_GROUPS
        then set_age m w
        else if in_state w Enroll.confirm && text_is m Lit.confirm_btn
        then confirm cfg env m w
        else if in_state w Enroll.confirm && text_is m Lit.edit_btn
        then edit w
        else if text_is m Lit.ask_btn then ask_question cfg w
        else if text_is m Lit.contacts_btn then contacts cfg env w
        else fallback w
    end.

(** * Sequences of admission calls *)

(** The arguments of one [try_enroll] call, with the clock reading of
    its insert. *)
Record Call := mkCall {
  call_now : pystr;
  call_child_full : pystr;
  call_age_group : pystr;
  call_phone : option pystr;
  call_user_id : Z;
  call_username : option pystr }.

Definition run_call (cfg : Config) (c : Call) : M Database bool :=
  try_enroll cfg (call_now c) (call_child_full c) (call_age_group c)
    (call_phone c) (call_user_id c) (call_username c).

(** The calls one after the other; the results in call order. *)
Definition run_calls (cfg : Config) (cs : list Call)
    : M Database (list bool) :=
  mapM (run_call cfg) cs.

(** Number of rows of a group in the file (0 without the table). *)
Definition group_count (d : Database) (ag : pystr) : Z :=
  match enrollments d with
  | Some rows => Str.len (Sql.rows_of ag rows)
  | None => 0
  end.

(** The limit in force for a group. *)
Definition group_limit (cfg : Config) (d : Database) (ag : pystr) : Z :=
  match group_limits d with
  | Some tbl => default (DEFAULT_GROUP_LIMIT cfg) (tbl !! ag)
  | None => DEFAULT_GROUP_LIMIT cfg
  end.

(** Number of calls that returned [True]. *)
Definition successes (rs : list bool) : Z :=
  Str.len (List.filter (fun b : bool => b) rs).

(** Both tables exist and the journal is in WAL mode, as after
    [init_db]. *)
Definition initialized (d : Database) : Prop :=
  journal_wal d = true /\
  is_Some (enrollments d) /\ is_Some (group_limits d).

(** * Concurrent admission attempts

    Several [try_enroll] calls, each on its own connection to the same
    file, cut at their database statements. [BEGIN IMMEDIATE] takes the
    write lock of the file: it succeeds only while no other connection
    has a transaction open, else the caller waits (is not scheduled) or
    gives up with "database is locked". *)

Module Concurrent.

(** Where a call stands. *)
Inductive Pc :=
| at_begin
| at_count
| at_limit (current : Z)
| at_check (current limit_v : Z)
| at_exit (result : bool)
| finished (r : Exn + bool).

Record Thread := mkThread {
  call : Call;
  pc : Pc;
  conn_txn : option Database }.

Record Global := mkGlobal {
  gfile : Database;
  threads : list Thread }.

Inductive Event :=
| ev_begin (i : nat)
| ev_busy (i : nat)
| ev_read_count (i : nat)
| ev_read_limit (i : nat)
| ev_compare (i : nat)
| ev_insert (i : nat)
| ev_commit (i : nat)
| ev_rollback (i : nat).

Definition lock_free (ts : list Thread) : bool :=
  forallb (fun t => match conn_txn t with None => true | Some _ => false end)
    ts.

(** One statement of thread [t] on file [f]: the event, the file and
    the thread afterwards. [None] when the call has returned. *)
Definition step_thread (cfg : Config) (i : nat) (others_free : bool)
    (f : Database) (t : Thread) : option (Event * Database * Thread) :=
  let c := call t in
  match pc t with
  | at_begin =>
      if others_free then
        match Sql.begin_immediate (mkConn (Sql.pragma_wal f) None) with
        | (k, inr _) => Some (ev_begin i, file k, mkThread c at_count (txn k))
        | (k, inl e) =>
            Some (ev_rollback i, file k, mkThread c (finished (inl e)) None)
        end
      else
        Some (ev_busy i, f,
              mkThread c
                (finished (inl (OperationalError "database is locked")))
                None)
  | at_count =>
      match Sql.select_count (call_age_group c) (mkConn f (conn_txn t)) with
      | (k, inr n) =>
          Some (ev_read_count i, file k, mkThread c (at_limit n) (txn k))
      | (k, inl e) =>
          Some (ev_rollback i, file (Sql.rollback k),
                mkThread c (finished (inl e)) None)
      end
  | at_limit n =>
      match on_file (get_group_limit cfg (call_age_group c))
              (mkConn f (conn_txn t)) with
      | (k, inr l) =>
          Some (ev_read_limit i, file k, mkThread c (at_check n l) (txn k))
      | (k, inl e) =>
          Some (ev_rollback i, file (Sql.rollback k),
                mkThread c (finished (inl e)) None)
      end
  | at_check n l =>
      if n >=? l then
        Some (ev_compare i, f, mkThread c (at_exit false) (conn_txn t))
      else
        match Sql.insert_enrollment (call_child_full c) (call_age_group c)
                (call_phone c) (call_user_id c) (call_username c)
                (call_now c) (mkConn f (conn_txn t)) with
        | (k, inr _) =>
            Some (ev_insert i, file k, mkThread c (at_exit true) (txn k))
        | (k, inl e) =>
            Some (ev_rollback i, file (Sql.rollback k),
                  mkThread c (finished (inl e)) None)
        end
  | at_exit r =>
      let k := Sql.commit (mkConn f (conn_txn t)) in
      Some (ev_commit i, file k, mkThread c (finished (inr r)) None)
  | finished _ => None
  end.

(** Thread [i] takes its next step; nothing happens when there is no
    such thread or it has returned. *)
Definition step (cfg : Config) (i : nat) (g : Global)
    : option (Event * Global) :=
  match threads g !! i with
  | None => None
  | Some t =>
      let others := take i (threads g) ++ drop (S i) (threads g) in
      match step_thread cfg i (lock_free others) (gfile g) t with
      | None => None
      | Some (e, f', t') => Some (e, mkGlobal f' (<[i := t']> (threads g)))
      end
  end.

(** A schedule names the thread to run at each turn. *)
Fixpoint run (cfg : Config) (sched : list nat) (g : Global)
    : list Event * Global :=
  match sched with
  | [] => ([], g)
  | i :: sched' =>
      match step cfg i g with
      | None => run cfg sched' g
      | Some (e, g') =>
          let '(tr, g'') := run cfg sched' g' in (e :: tr, g'')
      end
  end.

(** All calls about to start, on file [f]. *)
Definition init (f : Database) (cs : list Call) : Global :=
  mkGlobal f (map (fun c => mkThread c at_begin None) cs).

(** Thread [i] reads the count or the limit. *)
Definition is_read_of (i : nat) (e : Event) : Prop :=
  e = ev_read_count i \/ e = ev_read_limit i.

(** The transaction of thread [i] ends. *)
Definition is_end_of (i : nat) (e : Event) : Prop :=
  e = ev_commit i \/ e = ev_rollback i.

(** The thread whose transaction is open after a trace, if any. *)
Definition holder_after (h : option nat) (e : Event) : option nat :=
  match e with
  | ev_begin i => Some i
  | ev_commit _ | ev_rollback _ => None
  | _ => h
  end.

(** The holder of the write lock after a trace that starts with the
    lock free. *)
Definition holder (tr : list Event) : option nat :=
  fold_left holder_after tr None.

(** The discipline of the lock, event by event: with holder [h], is
    event [e] allowed, and who holds the lock after it. A call begins
    only while nobody holds the lock, gives up only while another call
    holds it, and reads, compares, inserts and ends its transaction
    only while it holds the lock itself. *)
Definition check_event (h : option nat) (e : Event) : option (option nat) :=
  match e, h with
  | ev_begin i, None => Some (Some i)
  | ev_busy i, Some j => if Nat.eqb i j then None else Some h
  | ev_read_count i, Some j
  | ev_read_limit i, Some j
  | ev_compare i, Some j
  | ev_insert i, Some j => if Nat.eqb i j then Some h else None
  | ev_commit i, Some j
  | ev_rollback i, Some j => if Nat.eqb i j then Some None else None
  | _, _ => None
  end.

Fixpoint check (h : option nat) (tr : list Event) : bool :=
  match tr with
  | [] => true
  | e :: tr' =>
      match check_event h e with
      | Some h' => check h' tr'
      | None => false
      end
  end.

(** The call is between its BEGIN IMMEDIATE and the end of its
    [with] block. *)
Definition in_txn (p : Pc) : bool :=
  match p with
  | at_count | at_limit _ | at_check _ _ | at_exit _ => true
  | at_begin | finished _ => false
  end.

(** What a state of the interleaving satisfies when [h] holds the
    lock: the holder is one of the threads; a thread has a transaction
    open exactly when it is the holder, and exactly when it stands
    inside its [with] block. *)
Definition lock_inv (h : option nat) (g : Global) : Prop :=
  (forall j, h = Some j -> is_Some (threads g !! j)) /\
  forall i t, threads g !! i = Some t ->
    (is_Some (conn_txn t) <-> h = Some i) /\
    (in_txn (pc t) = true <-> is_Some (conn_txn t)).

(** Run one thread alone until it returns. *)
Definition run_alone (cfg : Config) (f : Database) (c : Call)
    : list Event * Global :=
  run cfg [0; 0; 0; 0; 0; 0]%nat (init f [c]).

End Concurrent.


(** * Closed forms used in the statements *)

(** The loop of [init_db] on the limits table: a row with the default
    limit for each group that has none. *)
Definition seed_limits (cfg : Config) (groups : list pystr)
    (tbl : gmap (list N) Z) : gmap (list N) Z :=
  fold_left (fun t ag =>
    match t !! ag with
    | Some _ => t
    | None => <[ag := DEFAULT_GROUP_LIMIT cfg]> t
    end) groups tbl.

(** The file after [init_db]. *)
Definition initialized_from (cfg : Config) (d : Database) : Database :=
  mkDatabase true
    (Some (default [] (enrollments d)))
    (sqlite_sequence d)
    (Some (seed_limits cfg AGE_GROUPS (default ∅ (group_limits d))))
    true.

(** Some group of the list has no limit row. *)
Definition needs_seed (groups : list pystr) (tbl : gmap (list N) Z) : bool :=
  existsb (fun ag => bool_decide (tbl !! ag = None)) groups.

(** The seeding loop of [init_db] has a row to insert on file [d] and
    the default limit cannot be bound. *)
Definition seeding_overflows (cfg : Config) (d : Database) : bool :=
  negb (Sql.fits_int64 (DEFAULT_GROUP_LIMIT cfg)) &&
  needs_seed AGE_GROUPS (default ∅ (group_limits d)).

(** The file after an [init_db] whose seeding raised: the tables and
    the index are there, nothing is seeded. *)
Definition schema_created (d : Database) : Database :=
  mkDatabase true
    (Some (default [] (enrollments d)))
    (sqlite_sequence d)
    (Some (default ∅ (group_limits d)))
    true.

(** [init_db] called [n] times in a row. *)
Fixpoint init_db_times (cfg : Config) (n : nat) : M Database unit :=
  match n with
  | O => ret tt
  | S n' => init_db cfg ;;; init_db_times cfg n'
  end.

(** The row [try_enroll] inserts, and the file after the insert. *)
Definition new_row (d : Database) (rows : list Row.t) (c : Call) : Row.t :=
  Row.mk (Z.max (sqlite_sequence d) (Sql.max_id rows) + 1)
    (call_child_full c) (call_age_group c) (call_phone c)
    (Some (call_user_id c)) (call_username c) (call_now c).

Definition with_new_row (d : Database) (rows : list Row.t) (c : Call)
    : Database :=
  mkDatabase true (Some (rows ++ [new_row d rows c]))
    (Row.id (new_row d rows c)) (group_limits d) (idx_enrollments_age d).

(** The file after the first [k] calls of a sequence. *)
Definition after_calls (cfg : Config) (d : Database) (cs : list Call)
    (k : nat) : Database :=
  fst (run_calls cfg (take k cs) d).

(** * Capacity under concurrency *)

Module Capacity.
Import Concurrent.

(** What the open transaction of a call sees and what the call has
    read so far, against the file [f] as committed: the view is the
    file, the count and the limit read are those of the file, and
    after the insert the view is the file plus the one new row, the
    group having had a seat left. *)
Definition thread_view_ok (cfg : Config) (f : Database) (t : Thread)
    : Prop :=
  let ag := call_age_group (call t) in
  match pc t, conn_txn t with
  | at_count, Some v => v = f
  | at_limit n, Some v => v = f /\ n = group_count f ag
  | at_check n l, Some v =>
      v = f /\ n = group_count f ag /\ l = group_limit cfg f ag
  | at_exit false, Some v => v = f
  | at_exit true, Some v =>
      exists rows,
        enrollments f = Some rows /\
        v = with_new_row f rows (call t) /\
        group_count f ag < group_limit cfg f ag
  | _, _ => True
  end.

(** 1 for a call for group [grp] that has returned [True], else 0. *)
Definition won (grp : pystr) (t : Thread) : Z :=
  match pc t with
  | finished (inr true) =>
      if Str.eqb (call_age_group (call t)) grp then 1 else 0
  | _ => 0
  end.

(** Number of calls for group [grp] that have returned [True]. *)
Definition wins (grp : pystr) (ts : list Thread) : Z :=
  fold_right (fun t acc => won grp t + acc) 0 ts.

(** The capacity invariant of the interleaving for group [grp], the
    limits being those of the initial file [f0]: the group is within
    its limit, and it has gained one row per call that returned
    [True]. *)
Definition cap_inv (cfg : Config) (f0 : Database) (grp : pystr)
    (g : Global) : Prop :=
  initialized (gfile g) /\
  group_limits (gfile g) = group_limits f0 /\
  group_count (gfile g) grp <= group_limit cfg f0 grp /\
  group_count (gfile g) grp = group_count f0 grp + wins grp (threads g) /\
  forall i t, threads g !! i = Some t -> thread_view_ok cfg (gfile g) t.

End Capacity.

(** * Concrete values for the examples *)

Module Ex.

(** The defaults of the source: limit 10, the director's phone;
    an administrator id is configured. *)
Definition cfg : Config :=
  Build_Config (Some 1)
    [43; 55; 57; 55; 56; 48; 50; 49; 52; 56; 56; 49]%N None 10.

(** The same with one seat per group. *)
Definition cfg1 : Config :=
  Build_Config (Some 1)
    [43; 55; 57; 55; 56; 48; 50; 49; 52; 56; 56; 49]%N None 1.

(** The same with [DEFAULT_GROUP_LIMIT=9223372036854775808], one above
    the largest INTEGER of SQLite. *)
Definition cfg_big : Config :=
  Build_Config (Some 1)
    [43; 55; 57; 55; 56; 48; 50; 49; 52; 56; 56; 49]%N None (2 ^ 63).

Definition group_a : pystr := [57; 8211; 49; 49; 32; 1083; 1077; 1090]%N.
Definition group_b : pystr :=
  [49; 50; 8211; 49; 52; 32; 1083; 1077; 1090]%N.

(** A file on which [init_db] has run. *)
Definition fresh (c : Config) : Database := fst (init_db c empty_database).

(** "Ivan Petrov", "+7 900 123-45-67", "2026-01-01T00:00:00" *)
Definition ivan_petrov : pystr :=
  [73; 118; 97; 110; 32; 80; 101; 116; 114; 111; 118]%N.
Definition phone_ok : pystr :=
  [43; 55; 32; 57; 48; 48; 32; 49; 50; 51; 45; 52; 53; 45; 54; 55]%N.
Definition stamp : pystr :=
  [50; 48; 50; 54; 45; 48; 49; 45; 48; 49; 84; 48; 48; 58; 48; 48; 58;
   48; 48]%N.

Definition call_a : Call :=
  mkCall stamp ivan_petrov group_a (Some phone_ok) 5 None.

Definition call_b : Call :=
  mkCall stamp ivan_petrov group_b (Some phone_ok) 6 None.

End Ex.

(** A file with its limits table replaced. *)
Definition with_limits (d : Database) (tbl : gmap (list N) Z) : Database :=
  mkDatabase (journal_wal d) (enrollments d) (sqlite_sequence d) (Some tbl)
    (idx_enrollments_age d).

(** The body of the seeding loop of [init_db]. *)
Definition seed_one (cfg : Config) (ag : pystr) : M Conn unit :=
  cur <- Sql.select_limit ag ;;
  match cur with
  | Some _ => ret tt
  | None => Sql.insert_group_limit ag (DEFAULT_GROUP_LIMIT cfg)
  end.

(** * Vocabulary of the dialogue statements *)

(** Weakest precondition of a computation for a postcondition on the
    final state and the outcome. *)
Definition wp {S A} (m : M S A) (Q : S -> Exn + A -> Prop) (s : S) : Prop :=
  Q (fst (m s)) (snd (m s)).

(** The seats a group has left on file [d]. *)
Definition remaining (cfg : Config) (d : Database) (ag : pystr) : Z :=
  Z.max (group_limit cfg d ag - group_count d ag) 0.

(** Every group of [AGE_GROUPS] is full. *)
Definition all_full (cfg : Config) (d : Database) : Prop :=
  Forall (fun ag => remaining cfg d ag = 0) AGE_GROUPS.

(** The session is idle: no state, no collected field. *)
Definition idle (w : World) : Prop :=
  fsm_state w = None /\ fsm_data w = ∅.

(** The world with one more reply. *)
Definition replied (w : World) (t : Text) (kb : Keyboard) : World :=
  mkWorld (db w) (fsm_state w) (fsm_data w) (replies w ++ [Answer t kb])
    (admin_inbox w) (log w).

(** The commands of [cmd_start] and [start_enroll], matched before any
    state handler. *)
Definition is_command (t : pystr) : bool :=
  Str.mem t [Lit.slash_start; Lit.start; Lit.menu]
  || Str.eqb t Lit.enroll_trial.

(** A message that carries text only. *)
Definition text_message (t : pystr) (u : User) : Message :=
  mkMessage (Some t) None u.

(** The updates of a dialogue in order, each with what the outside
    does during its handler. *)
Definition dialogue (cfg : Config) (evs : list (Env * Message)) (w : World)
    : World :=
  fold_left (fun w ev => fst (dispatch cfg (fst ev) (snd ev) w)) evs w.

(** A phone as the typed-phone handler lets it through: only digits,
    whitespace and + - ( ), with at least 10 digits. *)
Definition phone_well_formed (p : pystr) : Prop :=
  Forall (fun c => Re.phone_class c = true) p /\
  10 <= Str.len (Str.digits p).

(** Every phone stored in the table of enrollments is well formed. *)
Definition persisted_phones_ok (d : Database) : Prop :=
  forall rows r p,
    enrollments d = Some rows -> In r rows -> Row.phone r = Some p ->
    phone_well_formed p.

(** The phone collected in the session, if any, is well formed. *)
Definition session_phone_ok (w : World) : Prop :=
  forall p, fsm_data w !! "phone" = Some p -> phone_well_formed p.

(** The session is idle, or the phone it holds is [p]. *)
Definition holds_phone (p : pystr) (w : World) : Prop :=
  fsm_state w = None \/ fsm_data w !! "phone" = Some p.

(** The world with the file in WAL mode (what opening a connection
    does to it). *)
Definition journal_set (w : World) : World :=
  mkWorld (Sql.pragma_wal (db w)) (fsm_state w) (fsm_data w) (replies w)
    (admin_inbox w) (log w).

(** The phone validation as first written down, for every typed text:
    fewer than 10 digits is refused and the session stays where it is;
    10 digits or more is accepted and the text is stored as typed. *)
Definition phone_validation_as_stated : Prop :=
  forall cfg env w t u,
    fsm_state w = Some Enroll.phone ->
    let w' := fst (dispatch cfg env (text_message t u) w) in
    (Str.len (Str.digits t) < 10 ->
       fsm_state w' = Some Enroll.phone /\ fsm_data w' = fsm_data w) /\
    (10 <= Str.len (Str.digits t) ->
       fsm_state w' = Some Enroll.name_full /\
       fsm_data w' !! "phone" = Some t).

(** Idempotent initialisation as first written down, for every
    configuration: [N] calls leave the store one call leaves, and in it
    every known age group has its limit row. *)
Definition init_db_idempotent_as_stated : Prop :=
  forall cfg d N,
    (1 <= N)%nat ->
    fst (init_db_times cfg N d) = fst (init_db cfg d) /\
    forall ag, ag ∈ AGE_GROUPS ->
      exists tbl v,
        group_limits (fst (init_db cfg d)) = Some tbl /\ tbl !! ag = Some v.


(** The phone invariant as first written down: whatever the dialogue,
    every stored phone is well formed. *)
Definition phone_invariant_as_stated : Prop :=
  forall cfg evs d,
    persisted_phones_ok d ->
    persisted_phones_ok (db (dialogue cfg evs (mkWorld d None ∅ [] [] []))).

Module ExW.
Import Ex.

(** "  Ivan   Petrov  ", "Ivan", "12345", "a1234567890" and
    " 1234567890" as typed. *)
Definition typed_name : pystr :=
  [32; 32; 73; 118; 97; 110; 32; 32; 32; 80; 101; 116; 114; 111; 118; 32;
   32]%N.
Definition ivan : pystr := [73; 118; 97; 110]%N.
Definition phone_short : pystr := [49; 50; 51; 52; 53]%N.
Definition phone_with_letter : pystr :=
  [97; 49; 50; 51; 52; 53; 54; 55; 56; 57; 48]%N.
Definition phone_padded : pystr :=
  [32; 49; 50; 51; 52; 53; 54; 55; 56; 57; 48]%N.

Definition user : User := mkUser 5 None.

(** The clock readings of a handler run; [bot.send_message] raises. *)
Definition env_fail : Env := mkEnv stamp stamp (Some [33%N]) None.

(** The same with the notification delivered. *)
Definition env_ok : Env := mkEnv stamp stamp None None.

(** A session at a given step with the given fields, on file [d]. *)
Definition world (d : Database) (st : option Enroll.t)
    (data : gmap string (list N)) : World :=
  mkWorld d st data [] [] [].

(** One seat per group, both taken. *)
Definition full_db : Database :=
  fst (run_calls cfg1 [call_a; call_b] (fresh cfg1)).

(** One seat per group, only the first taken. *)
Definition half_db : Database :=
  fst (run_calls cfg1 [call_a] (fresh cfg1)).

Definition collected : gmap string (list N) :=
  <["age_group" := group_a]>
    (<["child_full" := ivan_petrov]> (<["phone" := phone_ok]> ∅)).

End ExW.

(** The phone invariant of a world: session and table. *)
Definition phones_ok (w : World) : Prop :=
  session_phone_ok w /\ persisted_phones_ok (db w).

Module ExD.
Import Ex ExW.

(** A dialogue in which the user shares a contact whose number is
    "12345": start, contact, name, group, confirm. *)
Definition short_contact : Contact := mkContact phone_short None.

Definition contact_dialogue : list (Env * Message) :=
  [ (env_ok, text_message Lit.enroll_trial user);
    (env_ok, mkMessage None (Some short_contact) user);
    (env_ok, text_message typed_name user);
    (env_ok, text_message group_a user);
    (env_ok, text_message Lit.confirm_btn user) ].

(** The world after that dialogue on a new store: the table holds one
    row, with the phone "12345". *)
Definition after_contact : World :=
  dialogue cfg contact_dialogue (world (fresh cfg) None ∅).

(** The same with the phone typed. *)
Definition typed_dialogue : list (Env * Message) :=
  [ (env_ok, text_message Lit.enroll_trial user);
    (env_ok, text_message phone_ok user);
    (env_ok, text_message typed_name user);
    (env_ok, text_message group_a user);
    (env_ok, text_message Lit.confirm_btn user) ].

(** A session in the name step, and one in the confirmation step, on
    the store where every group is full. *)
Definition at_name_full : World :=
  world full_db (Some Enroll.name_full) (<["phone" := phone_ok]> ∅).

Definition at_confirm_full : World :=
  world full_db (Some Enroll.confirm) collected.

(** A session in the age-group step while the first group is full. *)
Definition at_age_half : World :=
  world half_db (Some Enroll.age_group)
    (<["child_full" := ivan_petrov]> (<["phone" := phone_ok]> ∅)).

(** A session in the confirmation step with seats left. *)
Definition at_confirm_fresh : World :=
  world (fresh cfg) (Some Enroll.confirm) collected.

End ExD.

(** * Further vocabulary *)

(** The ids of the table of enrollments grow strictly from row to row
    and none exceeds the AUTOINCREMENT counter. *)
Definition ids_ok (d : Database) : Prop :=
  forall rows, enrollments d = Some rows ->
    StronglySorted Z.lt (map Row.id rows) /\
    Forall (fun r => 0 < Row.id r <= sqlite_sequence d) rows.

(** The groups of [AGE_GROUPS] with seats left on file [d], each with
    its number of seats. *)
Definition seats (cfg : Config) (d : Database) : list (pystr * Z) :=
  with_seats (map (fun ag => (ag, remaining cfg d ag)) AGE_GROUPS).

(** The world with its session moved to state [st] with fields
    [data]. *)
Definition moved (w : World) (st : option Enroll.t)
    (data : gmap string (list N)) : World :=
  mkWorld (db w) st data (replies w) (admin_inbox w) (log w).

(** A child name as the name step stores it: two tokens or more,
    joined by single spaces. *)
Definition name_ok (s : pystr) : Prop :=
  exists toks,
    (2 <= length toks)%nat /\
    Forall Str.is_token toks /\
    s = Str.join Lit.space toks.

(** What each step of the dialogue has collected. *)
Definition session_wf (w : World) : Prop :=
  let has_phone := is_Some (fsm_data w !! "phone") in
  let has_name :=
    exists n, fsm_data w !! "child_full" = Some n /\ name_ok n in
  let has_group :=
    exists g, fsm_data w !! "age_group" = Some g /\ In g AGE_GROUPS in
  match fsm_state w with
  | None | Some Enroll.phone => True
  | Some Enroll.name_full => has_phone
  | Some Enroll.age_group => has_phone /\ has_name
  | Some Enroll.confirm => has_phone /\ has_name /\ has_group
  end.

(** A row as the dialogue writes it. *)
Definition row_ok (r : Row.t) : Prop :=
  name_ok (Row.child_full r) /\
  In (Row.age_group r) AGE_GROUPS /\
  is_Some (Row.phone r) /\
  is_Some (Row.tg_user_id r).

Definition rows_ok (d : Database) : Prop :=
  forall rows r, enrollments d = Some rows -> In r rows -> row_ok r.

(** The invariant of a running bot: the store is set up, the session
    has what its step needs, the rows are well formed. *)
Definition bot_inv (w : World) : Prop :=
  initialized (db w) /\ session_wf w /\ rows_ok (db w).

(** The note [confirm] sends to the administrator. *)
Definition admin_note (env : Env) (m : Message)
    (data : gmap string (list N)) (child_full age_group : pystr)
    : AdminNote :=
  mkAdminNote child_full age_group
    (default Lit.not_given (data !! "phone"))
    (match username (from_user m) with
     | Some (c :: u) => c :: u
     | _ => [45%N]
     end)
    (user_id (from_user m)) (utcnow_notify env).

(** The call [confirm] makes. *)
Definition confirm_call (env : Env) (m : Message)
    (data : gmap string (list N)) (child_full age_group : pystr) : Call :=
  mkCall (utcnow_enroll env) child_full age_group (data !! "phone")
    (user_id (from_user m)) (username (from_user m)).

(** An administrator is configured ([if ADMIN_ID:]). *)
Definition admin_of (cfg : Config) : option Z :=
  match ADMIN_ID cfg with
  | Some a => if a =? 0 then None else Some a
  | None => None
  end.

(** The world after a confirmation that got a seat: the row is in the
    table, the session is cleared, the user has the success message,
    and the administrator has the note, or the log a warning. *)
Definition confirmed (cfg : Config) (env : Env) (m : Message) (w : World)
    (rows : list Row.t) (child_full age_group : pystr) : World :=
  mkWorld
    (with_new_row (db w) rows
       (confirm_call env m (fsm_data w) child_full age_group))
    None ∅
    (replies w ++ [Answer Enrolled main_menu_kb])
    (admin_inbox w ++
       match admin_of cfg, send_message_raises env with
       | Some _, None => [admin_note env m (fsm_data w) child_full age_group]
       | _, _ => []
       end)
    (log w ++
       match admin_of cfg, send_message_raises env with
       | Some _, Some e => [NotifyFailed e]
       | _, _ => []
       end).

(** The world after a confirmation that found the group full while
    another group has seats. *)
Definition sent_back (cfg : Config) (w : World) : World :=
  mkWorld (db w) (Some Enroll.age_group) (fsm_data w)
    (replies w ++
       [Answer (ChooseAgeLeft (seats cfg (db w)))
          (age_kb (map fst (seats cfg (db w))))])
    (admin_inbox w) (log w).

(** The message carries text. *)
Definition has_text (m : Message) : bool :=
  match text m with
  | Some _ => true
  | None => false
  end.

(** What the router returns on an initialised store: the one handler
    that can raise is [set_name_full], on a message without text. *)
Definition expected_outcome (w : World) (m : Message) : Exn + unit :=
  if in_state w Enroll.name_full && negb (has_text m)
  then inl (AttributeError "'NoneType' object has no attribute")
  else inr tt.

(** What a handler that does not write leaves behind on a running
    bot. *)
Definition reads_only (w : World) (r : World * (Exn + unit)) : Prop :=
  bot_inv (fst r) /\ snd r = inr tt /\ db (fst r) = db w.

(** The updates of a dialogue that press the confirm button. *)
Definition confirm_presses (evs : list (Env * Message)) : nat :=
  length (List.filter (fun ev => text_is (snd ev) Lit.confirm_btn) evs).

(** The moves of the session that one update can make: stay, leave to
    the menu, restart at the phone step, go to the next step, or go
    back from the confirmation to the age groups. *)
Definition step_allowed (s s' : option Enroll.t) : Prop :=
  s' = s \/ s' = None \/ s' = Some Enroll.phone \/
  (s = Some Enroll.phone /\ s' = Some Enroll.name_full) \/
  (s = Some Enroll.name_full /\ s' = Some Enroll.age_group) \/
  (s = Some Enroll.age_group /\ s' = Some Enroll.confirm) \/
  (s = Some Enroll.confirm /\ s' = Some Enroll.age_group).

(** Two files with the same tables, index and id counter; the journal
    mode may differ. *)
Definition same_tables (d d' : Database) : Prop :=
  enrollments d' = enrollments d /\
  group_limits d' = group_limits d /\
  sqlite_sequence d' = sqlite_sequence d /\
  idx_enrollments_age d' = idx_enrollments_age d.

(** A session that is idle or at the phone step holds no field. *)
Definition no_stale_fields (w : World) : Prop :=
  fsm_state w = None \/ fsm_state w = Some Enroll.phone -> fsm_data w = ∅.

(** * Proofs *)

(** ** Facts on text *)

Section text_facts.
Import Unicode.

Lemma in_ranges_spec tbl c :
  in_ranges tbl c = true <->
  exists r, In r tbl /\ (fst r <= c)%N /\ (c <= snd r)%N.
Proof.
  unfold in_ranges. rewrite existsb_exists. split.
  - intros (r & Hin & Hb). exists r. apply andb_true_iff in Hb as [H1 H2].
    apply N.leb_le in H1, H2. auto.
  - intros (r & Hin & H1 & H2). exists r. split; [done|].
    apply andb_true_iff. split; by apply N.leb_le.
Qed.

Lemma ranges_disjoint_sound t1 t2 c :
  ranges_disjoint t1 t2 = true ->
  in_ranges t1 c = true -> in_ranges t2 c = false.
Proof.
  intros Hd H1. apply in_ranges_spec in H1 as (r1 & Hin1 & Hlo1 & Hhi1).
  destruct (in_ranges t2 c) eqn:H2; [|done].
  apply in_ranges_spec in H2 as (r2 & Hin2 & Hlo2 & Hhi2).
  unfold ranges_disjoint in Hd. rewrite forallb_forall in Hd.
  specialize (Hd r1 Hin1). rewrite forallb_forall in Hd.
  specialize (Hd r2 Hin2). apply orb_true_iff in Hd as [Hd|Hd];
    apply N.ltb_lt in Hd; lia.
Qed.

Lemma ranges_subset_sound t1 t2 c :
  ranges_subset t1 t2 = true ->
  in_ranges t1 c = true -> in_ranges t2 c = true.
Proof.
  intros Hs H1. apply in_ranges_spec in H1 as (r1 & Hin1 & Hlo1 & Hhi1).
  unfold ranges_subset in Hs. rewrite forallb_forall in Hs.
  specialize (Hs r1 Hin1). apply existsb_exists in Hs as (r2 & Hin2 & Hb).
  apply andb_true_iff in Hb as [Ha Hb]. apply N.leb_le in Ha, Hb.
  apply in_ranges_spec. exists r2. repeat split; [done|lia|lia].
Qed.

(** Every [\d] character is counted by [str.isdigit]. *)
Lemma isdecimal_isdigit c : isdecimal c = true -> isdigit c = true.
Proof. apply ranges_subset_sound. vm_compute. reflexivity. Qed.

(** No whitespace character is a digit. *)
Lemma isspace_not_isdigit c : isspace c = true -> isdigit c = false.
Proof. apply ranges_disjoint_sound. vm_compute. reflexivity. Qed.

Lemma isspace_not_isdecimal c : isspace c = true -> isdecimal c = false.
Proof. apply ranges_disjoint_sound. vm_compute. reflexivity. Qed.

End text_facts.

(** ** The pattern of the phone handler *)

Section regexp_facts.
Import Unicode Re.

Lemma phone_class_newline : phone_class 10 = true.
Proof. reflexivity. Qed.

Lemma at_dollar_class cls s :
  cls 10%N = true -> at_dollar s = true -> forallb cls s = true.
Proof.
  intros Hnl. destruct s as [|c [|c' s]]; simpl; try done.
  intros Hc. apply N.eqb_eq in Hc. subst c. by rewrite Hnl.
Qed.

(** With the newline in the class, [cls+$] accepts exactly the
    non-empty texts made of class characters. *)
Lemma plus_dollar_forallb cls s :
  cls 10%N = true ->
  plus_dollar cls s = negb (bool_decide (s = [])) && forallb cls s.
Proof.
  intros Hnl. induction s as [|c s IH]; [done|].
  cbn [plus_dollar forallb]. rewrite IH.
  rewrite (bool_decide_eq_false_2 (c :: s = [])) by done. cbn [negb andb].
  destruct (cls c); [|done]. cbn [andb].
  destruct s as [|c' s]; [done|].
  rewrite (bool_decide_eq_false_2 (c' :: s = [])) by done. cbn [negb andb].
  destruct (forallb cls (c' :: s)) eqn:Hall; [by rewrite orb_true_r|].
  rewrite orb_false_r.
  destruct (at_dollar (c' :: s)) eqn:Hd; [|done].
  by rewrite (at_dollar_class cls _ Hnl Hd) in Hall.
Qed.

Lemma phone_regexp_spec s :
  phone_regexp s = true <-> s <> [] /\ Forall (fun c => phone_class c = true) s.
Proof.
  unfold phone_regexp. rewrite plus_dollar_forallb by apply phone_class_newline.
  rewrite andb_true_iff, negb_true_iff, bool_decide_eq_false.
  by rewrite forallb_forall, List.Forall_forall.
Qed.

(** In a text the pattern accepts, the characters [str.isdigit] counts
    are the decimal digits. *)
Lemma phone_class_isdigit c :
  phone_class c = true -> isdigit c = isdecimal c.
Proof.
  unfold phone_class. intros H.
  destruct (isdecimal c) eqn:Hd; [by apply isdecimal_isdigit|].
  destruct (isspace c) eqn:Hs; [by apply isspace_not_isdigit|].
  cbn [orb] in H.
  repeat (apply orb_true_iff in H as [H|H]);
    apply N.eqb_eq in H; subst c; reflexivity.
Qed.

End regexp_facts.

(** ** Splitting, joining, stripping *)

Section str_facts.
Import Unicode Str.

Lemma split_from_tokens cur s :
  Forall (fun c => isspace c = false) cur ->
  Forall is_token (split_from cur s).
Proof.
  revert cur. induction s as [|c s IH]; intros cur Hcur; cbn [split_from].
  - destruct cur; [constructor|]. constructor; [by split|constructor].
  - destruct (isspace c) eqn:Hc.
    + destruct cur; [by apply IH|].
      constructor; [by split|]. by apply IH.
    + apply IH. apply Forall_app. split; [done|]. by repeat constructor.
Qed.

(** The pieces of [s.split()] are non-empty and free of whitespace. *)
Lemma Str_split_tokens s : Forall is_token (split s).
Proof. apply split_from_tokens. constructor. Qed.

Lemma split_on_from_app sep cur t s :
  Forall (fun c => c <> sep) t ->
  split_on_from sep cur (t ++ s) = split_on_from sep (cur ++ t) s.
Proof.
  revert cur. induction t as [|c t IH]; intros cur Ht.
  - by rewrite app_nil_r.
  - inversion_clear Ht as [|? ? Hc Ht']. cbn [app split_on_from].
    destruct (N.eqb_spec c sep); [done|].
    rewrite IH by done. by rewrite <- app_assoc.
Qed.

Lemma split_on_from_nil sep cur t :
  Forall (fun c => c <> sep) t ->
  split_on_from sep cur t = [cur ++ t].
Proof.
  intros Ht. rewrite <- (app_nil_r t) at 1.
  by rewrite split_on_from_app.
Qed.

(** Joining pieces that hold no separator and splitting again on the
    separator gives the pieces back. *)
Lemma split_on_join sep toks :
  toks <> [] ->
  Forall (Forall (fun c => c <> sep)) toks ->
  split_on sep (join [sep] toks) = toks.
Proof.
  unfold split_on. induction toks as [|t toks IH]; [done|].
  intros _ Hall. inversion_clear Hall as [|? ? Ht Htoks].
  cbn [join]. destruct toks as [|t' toks].
  - by rewrite split_on_from_nil.
  - rewrite split_on_from_app by done. cbn [app split_on_from].
    rewrite N.eqb_refl. f_equal. by apply IH.
Qed.

Lemma token_no_space t : is_token t -> Forall (fun c => c <> 32%N) t.
Proof.
  intros [_ H]. eapply Forall_impl; [exact H|].
  intros c Hc ->. discriminate Hc.
Qed.

(** What [set_name_full] computes as [parts]: the tokens of the input,
    or one empty piece when there is none. *)
Lemma name_parts t :
  split_on 32 (join Lit.space (split t)) =
  match split t with
  | [] => [[]]
  | toks => toks
  end.
Proof.
  pose proof (Str_split_tokens t) as Htok.
  destruct (split t) as [|t1 toks] eqn:Hs; [reflexivity|].
  apply split_on_join; [done|].
  eapply Forall_impl; [exact Htok|]. apply token_no_space.
Qed.

Lemma lstrip_suffix s : exists a,
  s = a ++ lstrip s /\ Forall (fun c => isspace c = true) a.
Proof.
  induction s as [|c s (a & Heq & Ha)]; [by exists []|].
  cbn [lstrip]. destruct (isspace c) eqn:Hc.
  - exists (c :: a). split; [by rewrite Heq at 1|]. by constructor.
  - by exists [].
Qed.

(** [strip] removes whitespace at the two ends and nothing else. *)
Lemma strip_decompose s : exists a b,
  s = a ++ strip s ++ b /\
  Forall (fun c => isspace c = true) a /\
  Forall (fun c => isspace c = true) b.
Proof.
  destruct (lstrip_suffix s) as (a & Ha & Hwa).
  destruct (lstrip_suffix (rev (lstrip s))) as (b & Hb & Hwb).
  exists a, (rev b). split; [|split; [done|]].
  - unfold strip, rstrip. rewrite Ha at 1. f_equal.
    rewrite <- rev_app_distr, <- Hb. by rewrite rev_involutive.
  - by apply Forall_rev.
Qed.

Lemma lstrip_head s c r : lstrip s = c :: r -> isspace c = false.
Proof.
  induction s as [|x s IH]; [done|]. cbn [lstrip].
  destruct (isspace x) eqn:Hx; [done|]. by intros [= <- _].
Qed.

(** A text without whitespace at its ends is left as it is. *)
Lemma lstrip_id c s : isspace c = false -> lstrip (c :: s) = c :: s.
Proof. intros H. cbn [lstrip]. by rewrite H. Qed.

Lemma digits_app a b : digits (a ++ b) = digits a ++ digits b.
Proof. apply List.filter_app. Qed.

Lemma digits_whitespace a :
  Forall (fun c => isspace c = true) a -> digits a = [].
Proof.
  induction 1 as [|c a Hc _ IH]; [done|].
  unfold digits in *. cbn [List.filter].
  by rewrite (isspace_not_isdigit c Hc).
Qed.

(** Stripping does not change which digits a text has. *)
Lemma digits_strip s : digits (strip s) = digits s.
Proof.
  destruct (strip_decompose s) as (a & b & Heq & Ha & Hb).
  rewrite Heq at 2. rewrite !digits_app.
  rewrite (digits_whitespace a Ha), (digits_whitespace b Hb).
  by rewrite app_nil_r.
Qed.

Lemma strip_Forall (P : N -> Prop) s : Forall P s -> Forall P (strip s).
Proof.
  destruct (strip_decompose s) as (a & b & Heq & _ & _).
  intros H. rewrite Heq in H.
  apply Forall_app in H as [_ H]. by apply Forall_app in H as [H _].
Qed.

End str_facts.

(** ** The store *)

Section db_facts.
Context (cfg : Config).

Lemma pragma_wal_id d : journal_wal d = true -> Sql.pragma_wal d = d.
Proof. destruct d; cbn; intros ->; reflexivity. Qed.

Lemma pragma_wal_idem d : Sql.pragma_wal (Sql.pragma_wal d) = Sql.pragma_wal d.
Proof. reflexivity. Qed.

Lemma count_in_group_eq ag d :
  count_in_group ag d =
  match enrollments d with
  | Some rows => (Sql.pragma_wal d, inr (Str.len (Sql.rows_of ag rows)))
  | None =>
      (Sql.pragma_wal d, inl (OperationalError "no such table: enrollments"))
  end.
Proof. destruct d as [w [rows|] s g i]; reflexivity. Qed.

Lemma get_group_limit_eq ag d :
  get_group_limit cfg ag d =
  match group_limits d with
  | Some tbl =>
      (Sql.pragma_wal d, inr (default (DEFAULT_GROUP_LIMIT cfg) (tbl !! ag)))
  | None =>
      (Sql.pragma_wal d, inl (OperationalError "no such table: group_limits"))
  end.
Proof.
  destruct d as [w e s [tbl|] i]; [|reflexivity].
  unfold get_group_limit, with_connect_db, bind. cbn.
  by destruct (tbl !! ag).
Qed.

(** On an initialised file the read helpers return and change nothing. *)
Lemma count_in_group_ok ag d :
  initialized d -> count_in_group ag d = (d, inr (group_count d ag)).
Proof.
  intros (Hw & [rows Hr] & _). rewrite count_in_group_eq.
  unfold group_count. rewrite Hr. by rewrite pragma_wal_id.
Qed.

Lemma get_group_limit_ok ag d :
  initialized d -> get_group_limit cfg ag d = (d, inr (group_limit cfg d ag)).
Proof.
  intros (Hw & _ & [tbl Ht]). rewrite get_group_limit_eq.
  unfold group_limit. rewrite Ht. by rewrite pragma_wal_id.
Qed.

Lemma get_remaining_ok ag d :
  initialized d ->
  get_remaining cfg ag d =
  (d, inr (Z.max (group_limit cfg d ag - group_count d ag) 0)).
Proof.
  intros Hi. unfold get_remaining, bind.
  rewrite get_group_limit_ok by done. by rewrite count_in_group_ok.
Qed.

(** [try_enroll] on any file, case by case. *)
Lemma try_enroll_eq c d :
  run_call cfg c d =
  match enrollments d, group_limits d with
  | None, _ =>
      (Sql.pragma_wal d, inl (OperationalError "no such table: enrollments"))
  | Some _, None =>
      (Sql.pragma_wal d, inl (OperationalError "no such table: group_limits"))
  | Some rows, Some tbl =>
      if Str.len (Sql.rows_of (call_age_group c) rows) >=?
         default (DEFAULT_GROUP_LIMIT cfg) (tbl !! call_age_group c)
      then (Sql.pragma_wal d, inr false)
      else (with_new_row d rows c, inr true)
  end.
Proof.
  destruct c as [now child ag ph uid un].
  destruct d as [w [rows|] s [tbl|] i]; try reflexivity.
  unfold run_call, try_enroll, with_connect_db, bind, on_file,
    get_group_limit, with_connect_db, bind. cbn.
  destruct (tbl !! ag); cbn;
    match goal with |- context [if ?b then _ else _] => destruct b end;
    reflexivity.
Qed.

Lemma try_enroll_full c d :
  initialized d ->
  group_limit cfg d (call_age_group c) <= group_count d (call_age_group c) ->
  run_call cfg c d = (d, inr false).
Proof.
  intros (Hw & [rows Hr] & [tbl Ht]) Hfull. rewrite try_enroll_eq.
  unfold group_limit, group_count in Hfull. rewrite Hr, Ht in *.
  destruct (Z.geb_spec (Str.len (Sql.rows_of (call_age_group c) rows))
              (default (DEFAULT_GROUP_LIMIT cfg) (tbl !! call_age_group c)));
    [by rewrite pragma_wal_id | lia].
Qed.

Lemma try_enroll_accepts c d rows :
  enrollments d = Some rows -> is_Some (group_limits d) ->
  group_count d (call_age_group c) < group_limit cfg d (call_age_group c) ->
  run_call cfg c d = (with_new_row d rows c, inr true).
Proof.
  intros Hr [tbl Ht] Hfree. rewrite try_enroll_eq.
  unfold group_limit, group_count in Hfree. rewrite Hr, Ht in *.
  destruct (Z.geb_spec (Str.len (Sql.rows_of (call_age_group c) rows))
              (default (DEFAULT_GROUP_LIMIT cfg) (tbl !! call_age_group c)));
    [lia | done].
Qed.

Lemma with_new_row_initialized d rows c :
  is_Some (group_limits d) -> initialized (with_new_row d rows c).
Proof. intros H. repeat split; cbn; eauto. Qed.

Lemma rows_of_app ag r1 r2 :
  Sql.rows_of ag (r1 ++ r2) = Sql.rows_of ag r1 ++ Sql.rows_of ag r2.
Proof. apply List.filter_app. Qed.

Lemma with_new_row_count d rows c ag :
  enrollments d = Some rows ->
  group_count (with_new_row d rows c) ag =
  group_count d ag + (if Str.eqb (call_age_group c) ag then 1 else 0).
Proof.
  intros Hr. unfold group_count. rewrite Hr. cbn [with_new_row enrollments].
  rewrite rows_of_app. unfold Str.len. rewrite length_app.
  cbn [Sql.rows_of List.filter new_row Row.age_group].
  destruct (Str.eqb (call_age_group c) ag); cbn [length]; lia.
Qed.

Lemma with_new_row_limit d rows c ag :
  group_limit cfg (with_new_row d rows c) ag = group_limit cfg d ag.
Proof. reflexivity. Qed.

Lemma max_id_ge rows r : In r rows -> Row.id r <= Sql.max_id rows.
Proof.
  induction rows as [|x rows IH]; [done|]. cbn [Sql.max_id fold_right].
  intros [->|Hin]; [lia|]. specialize (IH Hin). unfold Sql.max_id in IH. lia.
Qed.

(** The id of the inserted row is not in use. *)
Lemma new_row_fresh d rows c r :
  In r rows -> Row.id r < Row.id (new_row d rows c).
Proof. intros Hin. apply max_id_ge in Hin. cbn. lia. Qed.

End db_facts.

(** ** Admission *)

Section admission.
Context (cfg : Config).

(** One call on an initialised file: it returns, the file stays
    initialised, the limits stay, and the count of a group grows by one
    exactly when the call was for that group and returned [True]. *)
Lemma run_call_step c d :
  initialized d ->
  exists d' b,
    run_call cfg c d = (d', inr b) /\
    initialized d' /\
    group_limits d' = group_limits d /\
    (forall g, group_count d' g =
       group_count d g +
       (if b && Str.eqb (call_age_group c) g then 1 else 0)) /\
    (b = true ->
       group_count d (call_age_group c) <
       group_limit cfg d (call_age_group c)) /\
    (b = false ->
       d' = d /\
       group_limit cfg d (call_age_group c) <=
       group_count d (call_age_group c)).
Proof.
  intros Hi. pose proof Hi as (Hw & [rows Hr] & Hg).
  destruct (Z.le_gt_cases (group_limit cfg d (call_age_group c))
              (group_count d (call_age_group c))) as [Hfull|Hfree].
  - exists d, false. rewrite try_enroll_full by done.
    split_and!; try done. intros g. cbn. lia.
  - exists (with_new_row d rows c), true.
    rewrite (try_enroll_accepts cfg c d rows) by done.
    split_and!; try done;
      first [ by apply with_new_row_initialized
            | intros g; cbn [andb]; by apply with_new_row_count ].
Qed.

Lemma group_limit_ext d d' g :
  group_limits d' = group_limits d ->
  group_limit cfg d' g = group_limit cfg d g.
Proof. unfold group_limit. by intros ->. Qed.

Lemma successes_cons b rs :
  successes (b :: rs) = (if b then 1 else 0) + successes rs.
Proof.
  unfold successes, Str.len. cbn [List.filter].
  destruct b; cbn [length]; lia.
Qed.

Lemma successes_nonneg rs : 0 <= successes rs.
Proof. unfold successes, Str.len. lia. Qed.

Lemma run_calls_cons c cs d :
  run_calls cfg (c :: cs) d =
  match run_call cfg c d with
  | (d1, inl e) => (d1, inl e)
  | (d1, inr b) =>
      match run_calls cfg cs d1 with
      | (d2, inl e) => (d2, inl e)
      | (d2, inr rs) => (d2, inr (b :: rs))
      end
  end.
Proof.
  unfold run_calls. cbn [mapM]. unfold bind.
  destruct (run_call cfg c d) as [d1 [e|b]]; [done|].
  by destruct (mapM (run_call cfg) cs d1) as [d2 [e|rs]].
Qed.

(** Any sequence of calls, for any groups: every call returns, no
    limit changes, and a group within its limit stays within it. *)
Lemma run_calls_mixed cs : forall d,
  initialized d ->
  exists d' rs,
    run_calls cfg cs d = (d', inr rs) /\
    initialized d' /\
    length rs = length cs /\
    group_limits d' = group_limits d /\
    (forall g, group_count d g <= group_limit cfg d g ->
               group_count d' g <= group_limit cfg d g).
Proof.
  induction cs as [|c cs IH]; intros d Hi.
  - exists d, []. by split_and!.
  - destruct (run_call_step c d Hi)
      as (d1 & b & Hrun & Hi1 & Hl1 & Hc1 & Htrue & Hfalse).
    destruct (IH d1 Hi1) as (d2 & rs & Hruns & Hi2 & Hlen & Hl2 & Hc2).
    exists d2, (b :: rs). rewrite run_calls_cons, Hrun, Hruns.
    split_and!; try done.
    + cbn [length]. by rewrite Hlen.
    + by rewrite Hl2.
    + intros g Hg. rewrite <- (group_limit_ext d d1 g Hl1).
      apply Hc2. rewrite (group_limit_ext d d1 g Hl1). rewrite Hc1.
      destruct b; cbn [andb]; [|lia].
      unfold Str.eqb. case_bool_decide as Heq; [|lia].
      subst g. specialize (Htrue eq_refl). lia.
Qed.

(** Calls for one group: its count grows by the number of calls that
    returned [True]. *)
Lemma run_calls_one_group g cs : forall d d' rs,
  initialized d ->
  Forall (fun c => call_age_group c = g) cs ->
  run_calls cfg cs d = (d', inr rs) ->
  group_count d' g = group_count d g + successes rs.
Proof.
  induction cs as [|c cs IH]; intros d d' rs Hi Hall Hrun.
  - injection Hrun as <- <-. unfold successes, Str.len. cbn. lia.
  - inversion_clear Hall as [|? ? Hc Hcs].
    destruct (run_call_step c d Hi)
      as (d1 & b & Hrun1 & Hi1 & Hl1 & Hc1 & _ & _).
    rewrite run_calls_cons, Hrun1 in Hrun.
    destruct (run_calls cfg cs d1) as [d2 [e|rs']] eqn:Hruns; [done|].
    injection Hrun as <- <-.
    rewrite (IH d1 d2 rs' Hi1 Hcs Hruns), Hc1, successes_cons.
    unfold Str.eqb. rewrite bool_decide_eq_true_2 by done.
    rewrite andb_true_r. lia.
Qed.

(** What the two read helpers return tells the state of the file. *)
Lemma reads_initialized ag d n l :
  count_in_group ag d = (d, inr n) ->
  get_group_limit cfg ag d = (d, inr l) ->
  initialized d /\ n = group_count d ag /\ l = group_limit cfg d ag.
Proof.
  rewrite count_in_group_eq, get_group_limit_eq.
  unfold initialized, group_count, group_limit.
  destruct (enrollments d) as [rows|]; [|done].
  destruct (group_limits d) as [tbl|]; [|done].
  intros [= Hd <-] [= _ <-]. split_and!; eauto.
  rewrite <- Hd. reflexivity.
Qed.

(** C2. Contract of [try_enroll]: let [n] be the count of rows of the
    requested age group and [l] its limit, as [count_in_group] and
    [get_group_limit] return them on the store. When [n >= l] the call
    returns [False] and the store is left as it was. Otherwise the
    call returns [True] and the store gains exactly one row, placed
    last, that carries the given fields, the user id and the clock
    reading, under an id above every id in use; limits, index and
    journal mode are not touched, and the count of the group is then
    [n + 1]. *)
Theorem try_enroll_contract now child_full age_group phone user_id username
    d n l :
  count_in_group age_group d = (d, inr n) ->
  get_group_limit cfg age_group d = (d, inr l) ->
  (l <= n ->
   try_enroll cfg now child_full age_group phone user_id username d =
   (d, inr false)) /\
  (n < l ->
   exists rows row d',
     enrollments d = Some rows /\
     try_enroll cfg now child_full age_group phone user_id username d =
     (d', inr true) /\
     enrollments d' = Some (rows ++ [row]) /\
     row = Row.mk (Row.id row) child_full age_group phone (Some user_id)
             username now /\
     (forall r, In r rows -> Row.id r < Row.id row) /\
     group_limits d' = group_limits d /\
     idx_enrollments_age d' = idx_enrollments_age d /\
     journal_wal d' = journal_wal d /\
     count_in_group age_group d' = (d', inr (n + 1))).
Proof.
  intros Hn Hl.
  destruct (reads_initialized age_group d n l Hn Hl) as (Hi & -> & ->).
  pose proof Hi as (Hw & [rows Hr] & Hg).
  change (try_enroll cfg now child_full age_group phone user_id username)
    with (run_call cfg
            (mkCall now child_full age_group phone user_id username)).
  split; intros Hcmp.
  - by apply try_enroll_full.
  - exists rows. eexists _, _. split; [done|].
    split; [by apply try_enroll_accepts|].
    split_and!; try done.
    + intros r Hin. by apply new_row_fresh.
    + rewrite count_in_group_ok by (by apply with_new_row_initialized).
      rewrite (with_new_row_count d rows _ age_group Hr).
      cbn [call_age_group]. unfold Str.eqb.
      by rewrite bool_decide_eq_true_2.
Qed.

(** C1. Capacity invariant: on a store where [get_group_limit]
    returns [L >= 0] for group [g] and [count_in_group] returns 0,
    every sequence of [try_enroll] calls for [g] runs to its end
    without error; after each prefix of the sequence the count of [g]
    is at most [L]; and at the end the count of [g] equals
    [min L (number of calls that returned True)]. *)
Theorem capacity_invariant d g L cs :
  get_group_limit cfg g d = (d, inr L) ->
  0 <= L ->
  count_in_group g d = (d, inr 0) ->
  Forall (fun c => call_age_group c = g) cs ->
  exists d' rs,
    run_calls cfg cs d = (d', inr rs) /\
    length rs = length cs /\
    (forall k, exists n,
       count_in_group g (after_calls cfg d cs k) =
         (after_calls cfg d cs k, inr n) /\
       n <= L) /\
    count_in_group g d' = (d', inr (Z.min L (successes rs))).
Proof.
  intros HL Hpos H0 Hall.
  destruct (reads_initialized g d 0 L H0 HL) as (Hi & H0' & HL').
  destruct (run_calls_mixed cs d Hi) as (d' & rs & Hrun & Hi' & Hlen & _ & Hb).
  exists d', rs. split_and!; try done.
  - intros k. unfold after_calls.
    destruct (run_calls_mixed (take k cs) d Hi)
      as (dk & rk & Hrunk & Hik & _ & _ & Hbk).
    rewrite Hrunk. cbn [fst]. exists (group_count dk g).
    split; [by apply count_in_group_ok|].
    rewrite HL'. apply Hbk. lia.
  - rewrite count_in_group_ok by done. do 2 f_equal.
    pose proof (run_calls_one_group g cs d d' rs Hi Hall Hrun) as Hcnt.
    specialize (Hb g). lia.
Qed.

(** The calls that return [True] are the first [L] ones: with [n]
    calls the group ends with [min L n] rows. *)
Lemma capacity_fills d g cs :
  initialized d ->
  group_count d g <= group_limit cfg d g ->
  Forall (fun c => call_age_group c = g) cs ->
  group_count (fst (run_calls cfg cs d)) g =
  Z.min (group_limit cfg d g) (group_count d g + Str.len cs).
Proof.
  revert d. induction cs as [|c cs IH]; intros d Hi Hle Hall.
  - cbn. unfold Str.len. cbn. lia.
  - inversion_clear Hall as [|? ? Hc Hcs].
    destruct (run_call_step c d Hi)
      as (d1 & b & Hrun1 & Hi1 & Hl1 & Hc1 & Htrue & Hfalse).
    rewrite run_calls_cons, Hrun1.
    assert (group_count d1 g <= group_limit cfg d1 g) as Hle1.
    { rewrite (group_limit_ext d d1 g Hl1), Hc1. subst g.
      destruct b; cbn [andb]; [|lia]. specialize (Htrue eq_refl).
      destruct (Str.eqb _ _); lia. }
    specialize (IH d1 Hi1 Hle1 Hcs).
    destruct (run_calls cfg cs d1) as [d2 [e|rs]] eqn:Hruns;
      cbn [fst] in *; rewrite IH, (group_limit_ext d d1 g Hl1), Hc1;
      unfold Str.eqb; rewrite (bool_decide_eq_true_2 _ Hc), andb_true_r;
      unfold Str.len; cbn [length];
      (destruct b; [lia|]);
      destruct (Hfalse eq_refl) as [_ Hf]; subst g; lia.
Qed.

End admission.

(** ** Initialisation *)

Section init_facts.
Context (cfg : Config).

Lemma view_write f c : Sql.view (Sql.write f c) = f (Sql.view c).
Proof. by destruct c as [fl [v|]]. Qed.

Lemma view_implicit_begin c : Sql.view (Sql.implicit_begin c) = Sql.view c.
Proof. by destruct c as [fl [v|]]. Qed.

Lemma seed_one_view ag c tbl :
  group_limits (Sql.view c) = Some tbl ->
  Sql.fits_int64 (DEFAULT_GROUP_LIMIT cfg) = true \/ is_Some (tbl !! ag) ->
  exists c',
    seed_one cfg ag c = (c', inr tt) /\
    Sql.view c' =
    with_limits (Sql.view c) (seed_limits cfg [ag] tbl).
Proof.
  intros Ht Hfit. unfold seed_one, bind, Sql.select_limit. rewrite Ht.
  cbn [seed_limits fold_left]. destruct (tbl !! ag) as [v|] eqn:Hag.
  - exists c. split; [done|]. unfold with_limits. rewrite <- Ht.
    by destruct (Sql.view c).
  - destruct Hfit as [Hfit|[? ?]]; [|done].
    unfold Sql.insert_group_limit.
    rewrite view_implicit_begin, Ht, Hfit, Hag. cbn [negb].
    eexists. split; [done|].
    by rewrite view_write, view_implicit_begin.
Qed.

Lemma needs_seed_false groups tbl :
  needs_seed groups tbl = false <->
  forall ag, ag ∈ groups -> is_Some (tbl !! ag).
Proof.
  unfold needs_seed. induction groups as [|g groups IH]; cbn [existsb].
  - split; [|done]. intros _ ag Hin. by apply elem_of_nil in Hin.
  - rewrite orb_false_iff, IH, bool_decide_eq_false. split.
    + intros [Hg Hrest] ag Hin. apply elem_of_cons in Hin as [->|Hin].
      * by destruct (tbl !! g); [eexists|].
      * by apply Hrest.
    + intros H. split.
      * destruct (H g) as [v Hv]; [apply elem_of_cons; by left|].
        by rewrite Hv.
      * intros ag Hin. apply H. apply elem_of_cons. by right.
Qed.

Lemma needs_seed_true groups tbl :
  needs_seed groups tbl = true <->
  exists ag, ag ∈ groups /\ tbl !! ag = None.
Proof.
  unfold needs_seed. rewrite existsb_exists. split.
  - intros (ag & Hin & Hd). exists ag. split.
    + by apply list_elem_of_In.
    + by apply bool_decide_eq_true in Hd.
  - intros (ag & Hin & Hd). exists ag. split.
    + by apply list_elem_of_In.
    + by apply bool_decide_eq_true.
Qed.

Lemma seed_loop_view groups : forall c tbl,
  group_limits (Sql.view c) = Some tbl ->
  Sql.fits_int64 (DEFAULT_GROUP_LIMIT cfg) = true \/
  needs_seed groups tbl = false ->
  exists c',
    forM_ groups (seed_one cfg) c = (c', inr tt) /\
    Sql.view c' = with_limits (Sql.view c) (seed_limits cfg groups tbl).
Proof.
  induction groups as [|ag groups IH]; intros c tbl Ht Hfit.
  - exists c. split; [done|]. unfold with_limits. cbn. rewrite <- Ht.
    by destruct (Sql.view c).
  - assert (Sql.fits_int64 (DEFAULT_GROUP_LIMIT cfg) = true \/
            is_Some (tbl !! ag) /\ needs_seed groups tbl = false) as Hfit'.
    { destruct Hfit as [?|Hn]; [by left|right].
      cbn [needs_seed existsb] in Hn. apply orb_false_iff in Hn as [Hg Hn].
      apply bool_decide_eq_false in Hg.
      split; [by destruct (tbl !! ag); [eexists|]|done]. }
    destruct (seed_one_view ag c tbl Ht) as (c1 & Hrun1 & Hv1).
    { destruct Hfit' as [?|[? _]]; auto. }
    assert (seed_limits cfg [ag] tbl = tbl \/
            Sql.fits_int64 (DEFAULT_GROUP_LIMIT cfg) = true) as Hsame.
    { destruct Hfit' as [?|[[v Hv] _]]; [by right|left].
      cbn [seed_limits fold_left]. by rewrite Hv. }
    destruct (IH c1 (seed_limits cfg [ag] tbl)) as (c2 & Hrun2 & Hv2).
    { by rewrite Hv1. }
    { destruct Hfit' as [?|[[v Hv] Hn]]; [by left|right].
      cbn [seed_limits fold_left]. by rewrite Hv. }
    exists c2. cbn [forM_]. unfold bind. rewrite Hrun1. split; [done|].
    rewrite Hv2, Hv1. reflexivity.
Qed.

(** When the default limit cannot be bound, the loop stops at the first
    group without a row: the insert raises inside the transaction it
    has just opened, and nothing has been written. *)
Lemma seed_loop_overflow groups : forall c tbl,
  group_limits (Sql.view c) = Some tbl ->
  Sql.fits_int64 (DEFAULT_GROUP_LIMIT cfg) = false ->
  needs_seed groups tbl = true ->
  forM_ groups (seed_one cfg) c =
  (Sql.implicit_begin c,
   inl (OverflowError "Python int too large to convert to SQLite INTEGER")).
Proof.
  induction groups as [|ag groups IH]; intros c tbl Ht Hfit Hn; [done|].
  cbn [forM_]. unfold bind at 1. unfold seed_one at 1.
  unfold bind, Sql.select_limit. rewrite Ht.
  destruct (tbl !! ag) as [v|] eqn:Hag.
  - cbn [ret]. apply (IH c tbl Ht Hfit).
    cbn [needs_seed existsb] in Hn. rewrite Hag in Hn.
    by rewrite bool_decide_eq_false_2 in Hn.
  - unfold Sql.insert_group_limit.
    by rewrite view_implicit_begin, Ht, Hfit.
Qed.

(** [init_db] in closed form: it raises only when a limit has to be
    seeded and the default cannot be bound. *)
Lemma init_db_eq d :
  init_db cfg d =
  if seeding_overflows cfg d
  then (schema_created d,
        inl (OverflowError
               "Python int too large to convert to SQLite INTEGER"))
  else (initialized_from cfg d, inr tt).
Proof.
  unfold init_db, with_connect_db.
  change (fun ag : list N =>
            cur <- Sql.select_limit ag ;;
            match cur with
            | Some _ => ret tt
            | None => Sql.insert_group_limit ag (DEFAULT_GROUP_LIMIT cfg)
            end) with (seed_one cfg).
  unfold bind at 1 2 3.
  unfold seeding_overflows, schema_created.
  destruct d as [w e s g i]. cbn [group_limits enrollments sqlite_sequence].
  set (c3 := mkConn
               (mkDatabase true (Some (default [] e)) s (Some (default ∅ g))
                  true) None).
  assert (forall k : M Conn unit,
    (let (s', r) := Sql.create_enrollments
                      (mkConn (Sql.pragma_wal (mkDatabase w e s g i)) None) in
     match r with
     | inl e0 => (s', inl e0)
     | inr _ =>
         let (s'', r') := Sql.create_group_limits s' in
         match r' with
         | inl e0 => (s'', inl e0)
         | inr _ =>
             let (s3, r3) := Sql.create_index s'' in
             match r3 with
             | inl e0 => (s3, inl e0)
             | inr _ => k s3
             end
         end
     end) = k c3) as Hpre.
  { intros k. destruct e, g, i; reflexivity. }
  rewrite Hpre.
  destruct (Sql.fits_int64 (DEFAULT_GROUP_LIMIT cfg)) eqn:Hfit;
    [|destruct (needs_seed AGE_GROUPS (default ∅ g)) eqn:Hn];
    cbn [negb andb].
  - destruct (seed_loop_view AGE_GROUPS c3 (default ∅ g) eq_refl)
      as (c4 & Hrun & Hv); [by left|].
    rewrite Hrun. cbn [Sql.commit file]. rewrite Hv. reflexivity.
  - by rewrite (seed_loop_overflow AGE_GROUPS c3 (default ∅ g) eq_refl Hfit Hn).
  - destruct (seed_loop_view AGE_GROUPS c3 (default ∅ g) eq_refl)
      as (c4 & Hrun & Hv); [by right|].
    rewrite Hrun. cbn [Sql.commit file]. rewrite Hv. reflexivity.
Qed.

Lemma seed_limits_fixed groups : forall tbl,
  Forall (fun ag => is_Some (tbl !! ag)) groups ->
  seed_limits cfg groups tbl = tbl.
Proof.
  induction groups as [|ag groups IH]; intros tbl Hall; [done|].
  inversion_clear Hall as [|? ? [v Hv] Hrest].
  cbn [seed_limits fold_left]. rewrite Hv. by apply IH.
Qed.

(** After seeding, a group of the list has its old limit, or the
    default when it had none; other keys are as before. *)
Lemma seed_limits_lookup groups : forall tbl ag,
  seed_limits cfg groups tbl !! ag =
  if bool_decide (ag ∈ groups)
  then Some (default (DEFAULT_GROUP_LIMIT cfg) (tbl !! ag))
  else tbl !! ag.
Proof.
  induction groups as [|g groups IH]; intros tbl ag.
  - rewrite bool_decide_eq_false_2; [done|]. apply not_elem_of_nil.
  - cbn [seed_limits fold_left].
    fold (seed_limits cfg groups
            (match tbl !! g with
             | Some _ => tbl
             | None => <[g := DEFAULT_GROUP_LIMIT cfg]> tbl
             end)).
    rewrite IH. destruct (decide (ag = g)) as [->|Hne].
    + rewrite (bool_decide_eq_true_2 (g ∈ g :: groups))
        by (apply elem_of_cons; by left).
      destruct (tbl !! g) as [v|] eqn:Hg.
      * rewrite Hg. by case_bool_decide.
      * rewrite lookup_insert_eq. by case_bool_decide.
    + assert ((match tbl !! g with
               | Some _ => tbl
               | None => <[g := DEFAULT_GROUP_LIMIT cfg]> tbl
               end) !! ag = tbl !! ag) as ->.
      { destruct (tbl !! g); [done|]. by rewrite lookup_insert_ne. }
      destruct (decide (ag ∈ groups)) as [Hin|Hnin].
      * rewrite !bool_decide_eq_true_2; [done| |done].
        apply elem_of_cons. by right.
      * rewrite !bool_decide_eq_false_2; [done| |done].
        intros Hin. apply elem_of_cons in Hin as [?|?]; done.
Qed.

Lemma seed_limits_idem groups tbl :
  seed_limits cfg groups (seed_limits cfg groups tbl) =
  seed_limits cfg groups tbl.
Proof.
  apply seed_limits_fixed. apply Forall_forall. intros ag Hin.
  rewrite seed_limits_lookup. by rewrite bool_decide_eq_true_2.
Qed.

Lemma initialized_from_idem d :
  initialized_from cfg (initialized_from cfg d) = initialized_from cfg d.
Proof.
  unfold initialized_from. cbn -[seed_limits AGE_GROUPS].
  by rewrite seed_limits_idem.
Qed.

Lemma initialized_from_ok d : initialized (initialized_from cfg d).
Proof. split_and!; cbn; eauto. Qed.

Lemma schema_created_ok d : initialized (schema_created d).
Proof. split_and!; cbn; eauto. Qed.

(** After the seeding no group of the list lacks its row. *)
Lemma seeded_needs_none tbl :
  needs_seed AGE_GROUPS (seed_limits cfg AGE_GROUPS tbl) = false.
Proof.
  apply needs_seed_false. intros ag Hin.
  rewrite seed_limits_lookup, bool_decide_eq_true_2 by done. eauto.
Qed.

(** The store in which [init_db] ends, whether it returned or raised. *)
Lemma init_db_initialized d : initialized (fst (init_db cfg d)).
Proof.
  rewrite init_db_eq. destruct (seeding_overflows cfg d); cbn [fst].
  - apply schema_created_ok.
  - apply initialized_from_ok.
Qed.

(** [init_db] on the store a first [init_db] ended in: same store, same
    outcome. *)
Lemma init_db_again d : init_db cfg (fst (init_db cfg d)) = init_db cfg d.
Proof.
  rewrite (init_db_eq d).
  destruct (seeding_overflows cfg d) eqn:Ho; cbn [fst]; rewrite init_db_eq.
  - assert (seeding_overflows cfg (schema_created d) = true) as -> by exact Ho.
    reflexivity.
  - assert (seeding_overflows cfg (initialized_from cfg d) = false) as ->.
    { unfold seeding_overflows, initialized_from.
      change (default ∅ (group_limits (mkDatabase ?w ?e ?s (Some ?t) ?i)))
        with t.
      by rewrite seeded_needs_none, andb_false_r. }
    by rewrite initialized_from_idem.
Qed.

Lemma init_db_times_eq n d :
  init_db_times cfg (S n) d = init_db cfg d.
Proof.
  revert d. induction n as [|n IH]; intros d.
  - cbn [init_db_times]. unfold bind, ret.
    by destruct (init_db cfg d) as [d1 [e|[]]].
  - change (init_db_times cfg (S (S n)))
      with (init_db cfg ;;; init_db_times cfg (S n)).
    unfold bind. pose proof (init_db_again d) as Hagain.
    destruct (init_db cfg d) as [d1 [e|[]]]; [done|].
    by rewrite IH.
Qed.

(** C8, as the code has it. For every [N >= 1], [N] calls
    of [init_db] in a row leave the store in the state one call leaves
    it in, with the outcome of one call, and a further call on that
    store changes nothing. In that state the table of enrollments
    exists with the rows it had (none when it was just created), its
    id counter is as before, the index exists, and the limit rows of
    other groups are as before. When the default limit is a value
    SQLite can hold (a signed 64-bit integer), or every known group
    has its row already, the calls return without error and each known
    age group has its limit row, with the value it had before or the
    default when it had none. Otherwise the seeding INSERT raises
    OverflowError at the first known group without a row, and no limit
    row is added. *)
Theorem init_db_idempotent d N :
  (1 <= N)%nat ->
  init_db_times cfg N d = init_db cfg d /\
  init_db cfg (fst (init_db cfg d)) = init_db cfg d /\
  exists d1 tbl1,
    fst (init_db cfg d) = d1 /\
    initialized d1 /\
    group_limits d1 = Some tbl1 /\
    (forall ag, ag ∉ AGE_GROUPS ->
       tbl1 !! ag = default ∅ (group_limits d) !! ag) /\
    enrollments d1 = Some (default [] (enrollments d)) /\
    sqlite_sequence d1 = sqlite_sequence d /\
    idx_enrollments_age d1 = true /\
    (Sql.fits_int64 (DEFAULT_GROUP_LIMIT cfg) = true \/
     (forall ag, ag ∈ AGE_GROUPS ->
        is_Some (default ∅ (group_limits d) !! ag)) ->
     snd (init_db cfg d) = inr tt /\
     forall ag, ag ∈ AGE_GROUPS ->
       tbl1 !! ag =
       Some (default (DEFAULT_GROUP_LIMIT cfg)
               (default ∅ (group_limits d) !! ag))) /\
    (Sql.fits_int64 (DEFAULT_GROUP_LIMIT cfg) = false ->
     (exists ag, ag ∈ AGE_GROUPS /\
        default ∅ (group_limits d) !! ag = None) ->
     snd (init_db cfg d) =
       inl (OverflowError
              "Python int too large to convert to SQLite INTEGER") /\
     tbl1 = default ∅ (group_limits d)).
Proof.
  intros HN. destruct N as [|n]; [lia|].
  rewrite init_db_times_eq. split; [done|].
  split; [apply init_db_again|].
  rewrite init_db_eq. unfold seeding_overflows.
  destruct (Sql.fits_int64 (DEFAULT_GROUP_LIMIT cfg)) eqn:Hfit;
    [|destruct (needs_seed AGE_GROUPS (default ∅ (group_limits d))) eqn:Hn];
    cbn [negb andb fst snd].
  - exists (initialized_from cfg d),
      (seed_limits cfg AGE_GROUPS (default ∅ (group_limits d))).
    split_and!; try done.
    + intros ag Hin. rewrite seed_limits_lookup.
      by rewrite bool_decide_eq_false_2.
    + intros _. split; [done|]. intros ag Hin. rewrite seed_limits_lookup.
      by rewrite bool_decide_eq_true_2.
  - exists (schema_created d), (default ∅ (group_limits d)).
    split_and!; try done.
    intros [?|Hall]; [done|].
    apply needs_seed_false in Hall. congruence.
  - exists (initialized_from cfg d),
      (seed_limits cfg AGE_GROUPS (default ∅ (group_limits d))).
    split_and!; try done.
    + intros ag Hin. rewrite seed_limits_lookup.
      by rewrite bool_decide_eq_false_2.
    + intros _. split; [done|]. intros ag Hin. rewrite seed_limits_lookup.
      by rewrite bool_decide_eq_true_2.
    + intros _ Hex. apply needs_seed_true in Hex. congruence.
Qed.

End init_facts.

(** ** Rules for [wp] *)

Section wp_rules.
Context {S : Type}.

Lemma wp_ret {A} (a : A) (Q : S -> Exn + A -> Prop) s :
  Q s (inr a) -> wp (ret a) Q s.
Proof. done. Qed.

Lemma wp_raise {A} e (Q : S -> Exn + A -> Prop) s :
  Q s (inl e) -> wp (raise e) Q s.
Proof. done. Qed.

Lemma wp_modify (f : S -> S) (Q : S -> Exn + unit -> Prop) s :
  Q (f s) (inr tt) -> wp (modify f) Q s.
Proof. done. Qed.

Lemma wp_gets {A} (f : S -> A) (Q : S -> Exn + A -> Prop) s :
  Q s (inr (f s)) -> wp (gets f) Q s.
Proof. done. Qed.

Lemma wp_bind {A B} (m : M S A) (k : A -> M S B) (Q : S -> Exn + B -> Prop) s :
  wp m (fun s' r =>
    match r with
    | inl e => Q s' (inl e)
    | inr a => wp (k a) Q s'
    end) s ->
  wp (bind m k) Q s.
Proof.
  unfold wp, bind. destruct (m s) as [s' [e|a]]; cbn [fst snd]; done.
Qed.

Lemma bind_ok {A B} (m : M S A) (k : A -> M S B) s s' a :
  m s = (s', inr a) -> bind m k s = k a s'.
Proof. unfold bind. by intros ->. Qed.

Lemma bind_err {A B} (m : M S A) (k : A -> M S B) s s' e :
  m s = (s', inl e) -> bind m k s = (s', inl e).
Proof. unfold bind. by intros ->. Qed.

Lemma wp_mono {A} (m : M S A) (Q Q' : S -> Exn + A -> Prop) s :
  (forall s' r, Q s' r -> Q' s' r) -> wp m Q s -> wp m Q' s.
Proof. unfold wp. auto. Qed.

Lemma wp_eq {A} (m : M S A) s s' r (Q : S -> Exn + A -> Prop) :
  m s = (s', r) -> Q s' r -> wp m Q s.
Proof. unfold wp. by intros ->. Qed.

End wp_rules.

Lemma wp_lift_db {A} (m : M Database A) (Q : World -> Exn + A -> Prop) w :
  wp m (fun d' r =>
    Q (mkWorld d' (fsm_state w) (fsm_data w) (replies w) (admin_inbox w)
         (log w)) r) (db w) ->
  wp (lift_db m) Q w.
Proof.
  unfold wp, lift_db. destruct (m (db w)) as [d' r]; cbn [fst snd]; done.
Qed.

(** ** The read helpers on any file *)

Section read_facts.
Context (cfg : Config).

Lemma fst_count_in_group ag d : fst (count_in_group ag d) = Sql.pragma_wal d.
Proof. rewrite count_in_group_eq. by destruct (enrollments d). Qed.

Lemma fst_get_group_limit ag d :
  fst (get_group_limit cfg ag d) = Sql.pragma_wal d.
Proof. rewrite get_group_limit_eq. by destruct (group_limits d). Qed.

Lemma fst_get_remaining ag d :
  fst (get_remaining cfg ag d) = Sql.pragma_wal d.
Proof.
  unfold get_remaining, bind.
  pose proof (fst_get_group_limit ag d) as H1.
  destruct (get_group_limit cfg ag d) as [d1 [e|l]]; cbn [fst] in *; [done|].
  subst d1. pose proof (fst_count_in_group ag (Sql.pragma_wal d)) as H2.
  by destruct (count_in_group ag (Sql.pragma_wal d)) as [d2 [e|n]].
Qed.

Lemma fst_mapM_remaining groups d :
  groups <> [] ->
  fst (mapM (fun ag => v <- get_remaining cfg ag ;; ret (ag, v)) groups d) =
  Sql.pragma_wal d.
Proof.
  revert d. induction groups as [|ag groups IH]; [done|]. intros d _.
  cbn [mapM]. unfold bind at 1 2.
  pose proof (fst_get_remaining ag d) as H1.
  destruct (get_remaining cfg ag d) as [d1 [e|v]]; cbn [fst] in *; [done|].
  subst d1. cbn [ret].
  destruct groups as [|ag' groups]; [done|].
  specialize (IH (Sql.pragma_wal d) ltac:(done)).
  unfold bind.
  destruct (mapM _ (ag' :: groups) (Sql.pragma_wal d)) as [d2 [e|vs]];
    cbn [fst] in *; by subst d2.
Qed.

Lemma fst_remaining_by_group d :
  fst (remaining_by_group cfg d) = Sql.pragma_wal d.
Proof. by apply fst_mapM_remaining. Qed.

Lemma fst_age_kb_dynamic d : fst (age_kb_dynamic cfg d) = Sql.pragma_wal d.
Proof.
  unfold age_kb_dynamic, bind.
  pose proof (fst_remaining_by_group d) as H.
  by destruct (remaining_by_group cfg d) as [d1 [e|v]].
Qed.

(** On an initialised file: all groups, each with its seats left. *)
Lemma remaining_by_group_ok d :
  initialized d ->
  remaining_by_group cfg d =
  (d, inr (map (fun ag => (ag, remaining cfg d ag)) AGE_GROUPS)).
Proof.
  intros Hi. unfold remaining_by_group.
  generalize AGE_GROUPS as groups.
  induction groups as [|ag groups IH]; [done|].
  cbn [mapM map].
  erewrite bind_ok;
    [|erewrite bind_ok; [reflexivity|by apply get_remaining_ok]].
  by erewrite bind_ok; [|apply IH].
Qed.

Lemma all_zero_all_full d :
  all_zero (map (fun ag => (ag, remaining cfg d ag)) AGE_GROUPS) = true <->
  all_full cfg d.
Proof.
  unfold all_zero, all_full. rewrite forallb_forall, List.Forall_forall.
  split.
  - intros H ag Hin. apply Z.eqb_eq.
    apply (H (ag, remaining cfg d ag)).
    apply in_map_iff. by exists ag.
  - intros H p Hin. apply in_map_iff in Hin as (ag & <- & Hin).
    apply Z.eqb_eq. by apply H.
Qed.

(** A seat count returned on an unchanged file tells that the file is
    initialised. *)
Lemma get_remaining_initialized ag d n :
  get_remaining cfg ag d = (d, inr n) ->
  initialized d /\ n = remaining cfg d ag.
Proof.
  unfold get_remaining, bind. rewrite get_group_limit_eq.
  destruct (group_limits d) as [tbl|] eqn:Ht; [|done].
  rewrite count_in_group_eq. cbn [Sql.pragma_wal enrollments].
  destruct (enrollments d) as [rows|] eqn:Hr; [|done].
  cbn [ret]. intros [= Hd <-].
  assert (journal_wal d = true) as Hw by (by rewrite <- Hd).
  split; [split_and!; eauto|].
  unfold remaining, group_limit, group_count. by rewrite Ht, Hr.
Qed.

(** The keyboard of [age_kb_dynamic]: the groups with seats left, or
    the single button back to the menu when there is none. *)
Lemma age_kb_dynamic_ok d :
  initialized d ->
  age_kb_dynamic cfg d =
  (d, inr (age_kb
     (match List.filter (fun ag => 0 <? remaining cfg d ag) AGE_GROUPS with
      | [] => [Lit.back_to_menu]
      | opts => opts
      end))).
Proof.
  intros Hi. unfold age_kb_dynamic.
  erewrite bind_ok; [|by apply remaining_by_group_ok]. unfold ret.
  assert (map fst (with_seats
            (map (fun ag => (ag, remaining cfg d ag)) AGE_GROUPS)) =
          List.filter (fun ag => 0 <? remaining cfg d ag) AGE_GROUPS) as ->;
    [|by destruct (List.filter _ AGE_GROUPS)].
  unfold with_seats. generalize AGE_GROUPS as groups.
  induction groups as [|ag groups IH]; [done|].
  cbn [map List.filter snd]. destruct (0 <? remaining cfg d ag); cbn [map fst].
  - by rewrite IH.
  - done.
Qed.

End read_facts.

(** ** The handlers *)

Section handler_facts.
Context (cfg : Config).

Lemma len_lt_2 {A} (l : list A) :
  (Str.len l <? 2) = true <-> (length l < 2)%nat.
Proof. unfold Str.len. rewrite Z.ltb_lt. lia. Qed.

(** A read helper run from a handler: only the journal mode can
    change, whatever the helper returns. *)
Lemma wp_lift_reads {A} (m : M Database A) (Q : World -> Exn + A -> Prop) w :
  (forall d, fst (m d) = Sql.pragma_wal d) ->
  (forall r, Q (journal_set w) r) ->
  wp (lift_db m) Q w.
Proof.
  intros Hm HQ. apply wp_lift_db. unfold wp. rewrite Hm. apply HQ.
Qed.

(** [set_name_full] on a text of two tokens or more: the tokens joined
    by single spaces are stored, the state is the age-group step, and
    of the file only the journal mode can change. *)
Lemma set_name_full_accept m w t first second rest :
  text m = Some t ->
  Str.split t = first :: second :: rest ->
  wp (set_name_full cfg m) (fun w' _ =>
    fsm_state w' = Some Enroll.age_group /\
    fsm_data w' =
      <["child_full" := first ++ Lit.space ++
                        Str.join Lit.space (second :: rest)]> (fsm_data w) /\
    db w' = Sql.pragma_wal (db w) /\
    admin_inbox w' = admin_inbox w) w.
Proof.
  intros Ht Hs. unfold set_name_full, text_str. rewrite Ht.
  apply wp_bind, wp_ret. rewrite name_parts, Hs.
  replace (Str.len (first :: second :: rest) <? 2) with false
    by (symmetry; apply Z.ltb_ge; unfold Str.len; cbn [length]; lia).
  cbn [hd tl].
  apply wp_bind, wp_modify. apply wp_bind, wp_modify.
  apply wp_bind, wp_lift_reads; [apply fst_remaining_by_group|].
  intros [e|left]; [done|].
  destruct (all_zero left); [by apply wp_modify|].
  apply wp_bind, wp_lift_reads; [apply fst_age_kb_dynamic|].
  intros [e|kb]; [done|]. by apply wp_modify.
Qed.

(** [set_name_full] on a text of fewer than two tokens: one re-prompt
    and nothing else. *)
Lemma set_name_full_reject m w t :
  text m = Some t ->
  (length (Str.split t) < 2)%nat ->
  set_name_full cfg m w = (replied w NameReprompt no_markup, inr tt).
Proof.
  intros Ht Hlen. unfold set_name_full, text_str. rewrite Ht.
  erewrite bind_ok; [|reflexivity]. rewrite name_parts.
  destruct (Str.split t) as [|t1 [|t2 ts]]; cbn [length] in Hlen;
    [reflexivity | reflexivity | lia].
Qed.

End handler_facts.

Section name_step.
Context (cfg : Config).


End name_step.

(** ** Routing *)

Section routing.
Context (cfg : Config) (env : Env).

Lemma mem_In x l : Str.mem x l = true <-> In x l.
Proof.
  unfold Str.mem, Str.eqb. rewrite existsb_exists. split.
  - intros (y & Hin & Heq). apply bool_decide_eq_true in Heq. by subst.
  - intros Hin. exists x. split; [done|]. by apply bool_decide_eq_true.
Qed.

Lemma is_command_false t :
  is_command t = false ->
  Str.mem t [Lit.slash_start; Lit.start; Lit.menu] = false /\
  Str.eqb t Lit.enroll_trial = false.
Proof. unfold is_command. apply orb_false_iff. Qed.

Lemma age_label_not_command label :
  In label AGE_GROUPS -> is_command label = false.
Proof. intros [<-|[<-|[]]]; vm_compute; reflexivity. Qed.

(** In the phone step a typed text that is no command goes to
    [set_phone_manual] when the pattern accepts it, else to
    [invalid_phone]. *)
Lemma dispatch_phone_text w t u :
  fsm_state w = Some Enroll.phone ->
  is_command t = false ->
  dispatch cfg env (text_message t u) w =
  if Re.phone_regexp t then set_phone_manual (text_message t u) w
  else invalid_phone w.
Proof.
  intros Hst Hc. apply is_command_false in Hc as [Hc1 Hc2].
  unfold dispatch, text_in, text_is, text_regexp, in_state, text_message.
  cbn [text contact]. rewrite Hc1, Hc2, Hst. cbn [Enroll.eqb andb].
  reflexivity.
Qed.

(** In the name step every text that is no command goes to
    [set_name_full]. *)
Lemma dispatch_name_text w m t :
  fsm_state w = Some Enroll.name_full ->
  text m = Some t ->
  is_command t = false ->
  dispatch cfg env m w = set_name_full cfg m w.
Proof.
  intros Hst Ht Hc. apply is_command_false in Hc as [Hc1 Hc2].
  unfold dispatch, text_in, text_is, text_regexp, in_state.
  rewrite Ht, Hc1, Hc2, Hst. cbn [Enroll.eqb andb]. reflexivity.
Qed.

(** In the age-group step a label of [AGE_GROUPS] goes to [set_age]. *)
Lemma dispatch_age_label w m label :
  fsm_state w = Some Enroll.age_group ->
  text m = Some label ->
  In label AGE_GROUPS ->
  dispatch cfg env m w = set_age m w.
Proof.
  intros Hst Ht Hin.
  pose proof (age_label_not_command label Hin) as Hc.
  apply is_command_false in Hc as [Hc1 Hc2].
  apply mem_In in Hin.
  unfold dispatch, text_in, text_is, text_regexp, in_state.
  rewrite Ht, Hc1, Hc2, Hst, Hin. cbn [Enroll.eqb andb]. reflexivity.
Qed.

(** In the confirmation step the confirm button goes to [confirm]. *)
Lemma dispatch_confirm w m :
  fsm_state w = Some Enroll.confirm ->
  text m = Some Lit.confirm_btn ->
  dispatch cfg env m w = confirm cfg env m w.
Proof.
  intros Hst Ht.
  unfold dispatch, text_in, text_is, text_regexp, in_state.
  rewrite Ht, Hst. reflexivity.
Qed.

End routing.

(** ** The name step through the router *)

Section name_step_routed.
Context (cfg : Config).




End name_step_routed.

(** ** The age-group step *)

Section age_step.
Context (cfg : Config) (env : Env).

Lemma set_age_effect m w label :
  text m = Some label ->
  fsm_state (fst (set_age m w)) = Some Enroll.confirm /\
  fsm_data (fst (set_age m w)) = <["age_group" := label]> (fsm_data w) /\
  db (fst (set_age m w)) = db w.
Proof.
  intros Ht.
  enough (wp (set_age m) (fun w' _ =>
            fsm_state w' = Some Enroll.confirm /\
            fsm_data w' = <["age_group" := label]> (fsm_data w) /\
            db w' = db w) w) as H by exact H.
  unfold set_age, text_str. rewrite Ht.
  apply wp_bind, wp_ret. apply wp_bind, wp_modify. apply wp_bind, wp_modify.
  apply wp_bind, wp_gets. unfold getitem.
  apply wp_bind. destruct (_ !! "child_full"); [apply wp_ret|by apply wp_raise].
  apply wp_bind. destruct (_ !! "age_group"); [apply wp_ret|by apply wp_raise].
  by apply wp_modify.
Qed.

(** C10. In the age-group step, a text equal to a label of
    [AGE_GROUPS] moves the session to the confirmation step with that
    label recorded, on every store, so also when the group has no seat
    left: the filter of [set_age] looks at the text only. The keyboard
    of [age_kb_dynamic] holds, of the groups, exactly those for which
    [get_remaining] is positive. A group for which [get_remaining] is 0
    is refused later, by [try_enroll]. *)
Theorem set_age_ignores_seats w m label :
  fsm_state w = Some Enroll.age_group ->
  text m = Some label ->
  In label AGE_GROUPS ->
  (fsm_state (fst (dispatch cfg env m w)) = Some Enroll.confirm /\
   fsm_data (fst (dispatch cfg env m w)) =
     <["age_group" := label]> (fsm_data w) /\
   db (fst (dispatch cfg env m w)) = db w) /\
  (initialized (db w) ->
   exists buttons,
     age_kb_dynamic cfg (db w) = (db w, inr (age_kb buttons)) /\
     forall ag, In ag AGE_GROUPS ->
       (In ag buttons <->
        exists n, get_remaining cfg ag (db w) = (db w, inr n) /\ 0 < n)) /\
  (get_remaining cfg label (db w) = (db w, inr 0) ->
   forall now child_full phone uid uname,
     try_enroll cfg now child_full label phone uid uname (db w) =
     (db w, inr false)).
Proof.
  intros Hst Ht Hin.
  rewrite (dispatch_age_label cfg env w m label Hst Ht Hin).
  destruct (set_age_effect m w label Ht) as (H1 & H2 & H3).
  split_and!; try done.
  - intros Hi. eexists. split; [by apply age_kb_dynamic_ok|].
    intros ag Hag.
    assert ((exists n, get_remaining cfg ag (db w) = (db w, inr n) /\ 0 < n)
            <-> 0 < remaining cfg (db w) ag) as ->.
    { rewrite get_remaining_ok by done. unfold remaining. split.
      - by intros (n & [= <-] & Hn).
      - intros Hn. eauto. }
    destruct (List.filter (fun ag => 0 <? remaining cfg (db w) ag) AGE_GROUPS)
      as [|o os] eqn:Hf.
    + split.
      * intros [<-|[]]. revert Hag. clear.
        intros [H|[H|[]]]; discriminate H.
      * intros Hpos. exfalso.
        assert (In ag (List.filter
                  (fun ag => 0 <? remaining cfg (db w) ag) AGE_GROUPS)) as Hx.
        { apply filter_In. split; [done|]. by apply Z.ltb_lt. }
        by rewrite Hf in Hx.
    + rewrite <- Hf. rewrite filter_In, Z.ltb_lt. tauto.
  - intros Hrem now child_full phone uid uname.
    apply get_remaining_initialized in Hrem as [Hi Hrem].
    change (try_enroll cfg now child_full label phone uid uname)
      with (run_call cfg (mkCall now child_full label phone uid uname)).
    apply try_enroll_full; [done|]. cbn [call_age_group].
    unfold remaining in Hrem. lia.
Qed.

End age_step.

(** ** The confirmation step *)

Section confirm_step.
Context (cfg : Config) (env : Env).

(** C9. Notification is best-effort: when the [try_enroll] of a
    confirmation has returned [True], [confirm] itself returns without
    raising whatever [bot.send_message] does, the store is the one
    [try_enroll] left (with the committed row), the user gets the
    success message, and the session is cleared. When the send raises,
    the note is not delivered and, an administrator being configured,
    one warning is logged. *)
Theorem notification_best_effort m w child_full age_group d' :
  fsm_data w !! "child_full" = Some child_full ->
  fsm_data w !! "age_group" = Some age_group ->
  try_enroll cfg (utcnow_enroll env) child_full age_group
    (fsm_data w !! "phone") (user_id (from_user m))
    (username (from_user m)) (db w) = (d', inr true) ->
  exists w',
    confirm cfg env m w = (w', inr tt) /\
    db w' = d' /\
    fsm_state w' = None /\
    fsm_data w' = ∅ /\
    replies w' = replies w ++ [Answer Enrolled main_menu_kb] /\
    (forall e, send_message_raises env = Some e ->
       admin_inbox w' = admin_inbox w /\
       log w' = log w ++
         match ADMIN_ID cfg with
         | Some a => if a =? 0 then [] else [NotifyFailed e]
         | None => []
         end).
Proof.
  intros Hc Ha Htry.
  unfold confirm, get_data, getitem.
  erewrite bind_ok; [|reflexivity]. rewrite Hc.
  erewrite bind_ok; [|reflexivity]. rewrite Ha.
  erewrite bind_ok; [|reflexivity].
  erewrite bind_ok; [|unfold lift_db; rewrite Htry; reflexivity].
  cbn [negb].
  destruct (ADMIN_ID cfg) as [a|]; [destruct (a =? 0)|];
    [ | destruct (send_message_raises env) as [e|] eqn:He | ];
    (eexists; split; [reflexivity|]; cbn; split_and!; try done;
     intros e' He'; try discriminate He'; try (injection He' as <-);
     split; by rewrite ?app_nil_r).
Qed.

(** A confirmation that finds the group full, all groups being full:
    the apology is sent and the state is left where it was. *)
Lemma confirm_all_full m w child_full age_group :
  initialized (db w) ->
  all_full cfg (db w) ->
  In age_group AGE_GROUPS ->
  fsm_data w !! "child_full" = Some child_full ->
  fsm_data w !! "age_group" = Some age_group ->
  confirm cfg env m w = (replied w NoSeatsAfterConfirm main_menu_kb, inr tt).
Proof.
  intros Hi Hfull Hin Hc Ha.
  assert (try_enroll cfg (utcnow_enroll env) child_full age_group
            (fsm_data w !! "phone") (user_id (from_user m))
            (username (from_user m)) (db w) = (db w, inr false)) as Htry.
  { change (try_enroll cfg ?n ?c ?g ?p ?u ?un)
      with (run_call cfg (mkCall n c g p u un)).
    apply try_enroll_full; [done|]. cbn [call_age_group].
    unfold all_full in Hfull. rewrite List.Forall_forall in Hfull.
    specialize (Hfull age_group Hin). unfold remaining in Hfull. lia. }
  unfold confirm, get_data, getitem.
  erewrite bind_ok; [|reflexivity]. rewrite Hc.
  erewrite bind_ok; [|reflexivity]. rewrite Ha.
  erewrite bind_ok; [|reflexivity].
  erewrite bind_ok; [|unfold lift_db; rewrite Htry; reflexivity].
  cbn [negb].
  erewrite bind_ok;
    [|unfold lift_db; cbn [db]; rewrite remaining_by_group_ok by done;
      reflexivity].
  apply all_zero_all_full in Hfull. rewrite Hfull.
  by destruct w.
Qed.

End confirm_step.

(** ** The name step when no seat is left *)

Section name_step_full.
Context (cfg : Config).

(** A name of two tokens or more, all groups being full: the apology
    is sent with the menu keyboard, and the state is the age-group
    step. *)
Lemma set_name_full_all_full m w t first others :
  initialized (db w) ->
  all_full cfg (db w) ->
  text m = Some t ->
  Str.split t = first :: others ->
  others <> [] ->
  set_name_full cfg m w =
  (replied
     (mkWorld (db w) (Some Enroll.age_group)
        (<["child_full" := first ++ [32%N] ++ Str.join [32%N] others]>
           (fsm_data w))
        (replies w) (admin_inbox w) (log w))
     NoSeatsAfterName main_menu_kb, inr tt).
Proof.
  intros Hi Hfull Ht Hs Hne.
  destruct others as [|second rest]; [done|].
  unfold set_name_full, text_str. rewrite Ht.
  erewrite bind_ok; [|reflexivity]. rewrite name_parts, Hs.
  replace (Str.len (first :: second :: rest) <? 2) with false
    by (symmetry; apply Z.ltb_ge; unfold Str.len; cbn [length]; lia).
  cbn [hd tl].
  erewrite bind_ok; [|reflexivity].
  erewrite bind_ok; [|reflexivity].
  erewrite bind_ok;
    [|unfold lift_db; cbn [db]; rewrite remaining_by_group_ok by done;
      reflexivity].
  apply all_zero_all_full in Hfull. rewrite Hfull. reflexivity.
Qed.

End name_step_full.

(** ** The phone step *)

Section phone_step.
Context (cfg : Config) (env : Env).

Lemma set_phone_manual_eq m w t :
  text m = Some t ->
  set_phone_manual m w =
  if Str.len (Str.digits (Str.strip t)) <? 10
  then (replied w PhoneTooShort no_markup, inr tt)
  else
    (replied
       (mkWorld (db w) (Some Enroll.name_full)
          (<["phone" := Str.strip t]> (fsm_data w)) (replies w)
          (admin_inbox w) (log w))
       AskName ReplyKeyboardRemove, inr tt).
Proof.
  intros Ht. unfold set_phone_manual, text_str. rewrite Ht.
  erewrite bind_ok; [|reflexivity].
  by destruct (Str.len (Str.digits (Str.strip t)) <? 10).
Qed.

(** A shared contact of the sender, or one without a user id, is
    taken as it comes: its number is stored unchecked. *)
Lemma set_phone_from_contact_eq m c w :
  match contact_user_id c with
  | None => True
  | Some u => u = user_id (from_user m)
  end ->
  set_phone_from_contact m c w =
  (replied
     (mkWorld (db w) (Some Enroll.name_full)
        (<["phone" := phone_number c]> (fsm_data w)) (replies w)
        (admin_inbox w) (log w))
     AskName ReplyKeyboardRemove, inr tt).
Proof.
  intros Hown. unfold set_phone_from_contact.
  destruct (contact_user_id c) as [u|]; [|reflexivity].
  subst u. by rewrite Z.eqb_refl.
Qed.

(** C6, as the code has it. In the phone step, for every typed text
    that is not a start or menu command: when the text consists only
    of decimal digits, whitespace and + - ( ) and holds 10 digits or
    more, the session moves to the name step and stores the text with
    the whitespace at its two ends removed and everything between kept
    as typed; in every other case (another character in the text, or
    fewer than 10 digits) the session stays in the phone step with its
    fields and the store as they were, and one re-prompt is sent. *)
Theorem phone_validation_amended w t u :
  fsm_state w = Some Enroll.phone ->
  is_command t = false ->
  (Re.phone_regexp t = true <->
   t <> [] /\ Forall (fun c => Re.phone_class c = true) t) /\
  (Re.phone_regexp t = true ->
   10 <= Str.len (Str.digits t) ->
   fsm_state (fst (dispatch cfg env (text_message t u) w)) =
     Some Enroll.name_full /\
   fsm_data (fst (dispatch cfg env (text_message t u) w)) =
     <["phone" := Str.strip t]> (fsm_data w) /\
   db (fst (dispatch cfg env (text_message t u) w)) = db w /\
   exists a b,
     t = a ++ Str.strip t ++ b /\
     Forall (fun c => Unicode.isspace c = true) a /\
     Forall (fun c => Unicode.isspace c = true) b) /\
  (Re.phone_regexp t = false \/ Str.len (Str.digits t) < 10 ->
   fsm_state (fst (dispatch cfg env (text_message t u) w)) =
     Some Enroll.phone /\
   fsm_data (fst (dispatch cfg env (text_message t u) w)) = fsm_data w /\
   db (fst (dispatch cfg env (text_message t u) w)) = db w /\
   exists txt,
     replies (fst (dispatch cfg env (text_message t u) w)) =
     replies w ++ [Answer txt no_markup]).
Proof.
  intros Hst Hc. rewrite (dispatch_phone_text cfg env w t u Hst Hc).
  split; [apply phone_regexp_spec|]. split.
  - intros Hre Hlen. rewrite Hre.
    rewrite (set_phone_manual_eq (text_message t u) w t eq_refl).
    rewrite digits_strip.
    destruct (Z.ltb_spec (Str.len (Str.digits t)) 10); [lia|].
    cbn. split_and!; try done. apply strip_decompose.
  - intros Hbad. destruct (Re.phone_regexp t) eqn:Hre.
    + destruct Hbad as [?|Hlen]; [done|].
      rewrite (set_phone_manual_eq (text_message t u) w t eq_refl).
      rewrite digits_strip.
      destruct (Z.ltb_spec (Str.len (Str.digits t)) 10); [|lia].
      cbn. split_and!; try done. by eexists.
    + cbn. split_and!; try done. by eexists.
Qed.

End phone_step.

(** ** The phone invariant of text-only dialogues *)

Section phone_invariant.
Context (cfg : Config).

Lemma phones_ok_ext w w' :
  phones_ok w ->
  (forall p, fsm_data w' !! "phone" = Some p ->
             fsm_data w !! "phone" = Some p) ->
  enrollments (db w') = enrollments (db w) ->
  phones_ok w'.
Proof.
  intros [Hs Hp] Hd He. split.
  - intros p Hp'. apply Hs. by apply Hd.
  - intros rows r p Hr. rewrite He in Hr. by apply Hp.
Qed.

Lemma persisted_try_enroll c d :
  persisted_phones_ok d ->
  (forall p, call_phone c = Some p -> phone_well_formed p) ->
  persisted_phones_ok (fst (run_call cfg c d)).
Proof.
  intros Hp Hc. rewrite try_enroll_eq.
  destruct (enrollments d) as [rows|] eqn:Hr;
    [destruct (group_limits d) as [tbl|] eqn:Hg|].
  - destruct (_ >=? _); cbn [fst].
    + intros rows' r p Hr'. cbn in Hr'. rewrite Hr in Hr'.
      injection Hr' as <-. by apply Hp.
    + intros rows' r p Hr'. cbn in Hr'. injection Hr' as <-.
      intros Hin. apply in_app_iff in Hin as [Hin|[<-|[]]].
      * by apply (Hp rows).
      * cbn. apply Hc.
  - intros rows' r p Hr'. cbn in Hr'. rewrite Hr in Hr'.
    injection Hr' as <-. by apply Hp.
  - intros rows' r p Hr'. cbn in Hr'. by rewrite Hr in Hr'.
Qed.

Lemma phones_ok_set_name_full m w :
  phones_ok w -> phones_ok (fst (set_name_full cfg m w)).
Proof.
  intros HI. destruct (text m) as [t|] eqn:Ht.
  - destruct (Str.split t) as [|first [|second rest]] eqn:Hs.
    + rewrite (set_name_full_reject cfg m w t Ht)
        by (rewrite Hs; cbn; lia).
      by apply (phones_ok_ext w).
    + rewrite (set_name_full_reject cfg m w t Ht)
        by (rewrite Hs; cbn; lia).
      by apply (phones_ok_ext w).
    + pose proof (set_name_full_accept cfg m w t first second rest Ht Hs)
        as (_ & Hd & Hdb & _).
      apply (phones_ok_ext w); [done| |by rewrite Hdb].
      intros p. rewrite Hd. by rewrite lookup_insert_ne.
  - unfold set_name_full, text_str. rewrite Ht. done.
Qed.

Lemma phones_ok_confirm env m w :
  phones_ok w -> phones_ok (fst (confirm cfg env m w)).
Proof.
  intros HI.
  enough (wp (confirm cfg env m) (fun w' _ => phones_ok w') w) as H by exact H.
  unfold confirm, get_data, getitem.
  apply wp_bind, wp_gets.
  apply wp_bind.
  destruct (fsm_data w !! "child_full") as [child|];
    [apply wp_ret|by apply wp_raise].
  apply wp_bind.
  destruct (fsm_data w !! "age_group") as [ag|];
    [apply wp_ret|by apply wp_raise].
  apply wp_bind, wp_lift_db.
  set (c := mkCall (utcnow_enroll env) child ag (fsm_data w !! "phone")
              (user_id (from_user m)) (username (from_user m))).
  change (try_enroll cfg _ _ _ _ _ _) with (run_call cfg c).
  assert (persisted_phones_ok (fst (run_call cfg c (db w)))) as Hp.
  { apply persisted_try_enroll; [apply HI|]. intros p Hp. by apply HI. }
  unfold wp at 1.
  destruct (run_call cfg c (db w)) as [d1 [e|ok]]; cbn [fst snd] in *.
  { split; [apply HI|done]. }
  set (w1 := mkWorld d1 _ _ _ _ _).
  assert (phones_ok w1) as HI1 by (split; [apply HI|done]).
  clearbody w1. clear Hp HI c.
  destruct ok; cbn [negb].
  - apply wp_bind.
    apply (wp_mono _ (fun w' _ =>
             fsm_data w' = fsm_data w1 /\ db w' = db w1)).
    { intros w2 r [Hd Hdb]. destruct r as [e|[]].
      - apply (phones_ok_ext w1); [done| |by rewrite Hdb].
        intros p. by rewrite Hd.
      - apply wp_bind, wp_modify, wp_modify.
        apply (phones_ok_ext w1); [done| |by cbn; rewrite Hdb].
        intros p. cbn. by rewrite lookup_empty. }
    destruct (ADMIN_ID cfg) as [a|]; [destruct (a =? 0)|];
      [ | destruct (send_message_raises env) | ]; done.
  - apply wp_bind, wp_lift_reads; [apply fst_remaining_by_group|].
    intros [e|left].
    { by apply (phones_ok_ext w1). }
    destruct (all_zero left).
    { apply wp_modify. by apply (phones_ok_ext w1). }
    apply wp_bind, wp_lift_reads; [apply fst_age_kb_dynamic|].
    intros [e|kb].
    { by apply (phones_ok_ext w1). }
    apply wp_bind, wp_modify, wp_modify. by apply (phones_ok_ext w1).
Qed.

End phone_invariant.

Section phone_invariant_dialogue.
Context (cfg : Config).

Lemma text_regexp_text m :
  text_regexp m = true -> exists t, text m = Some t /\ Re.phone_regexp t = true.
Proof. unfold text_regexp. destruct (text m) as [t|]; [eauto|done]. Qed.

Lemma text_in_text m l :
  text_in m l = true -> exists t, text m = Some t.
Proof. unfold text_in. destruct (text m) as [t|]; [eauto|done]. Qed.

Lemma phones_ok_set_phone_manual m w :
  text_regexp m = true ->
  phones_ok w -> phones_ok (fst (set_phone_manual m w)).
Proof.
  intros Hre HI. apply text_regexp_text in Hre as (t & Ht & Hre).
  rewrite (set_phone_manual_eq m w t Ht).
  destruct (Z.ltb_spec (Str.len (Str.digits (Str.strip t))) 10) as [|Hlen].
  - by apply (phones_ok_ext w).
  - cbn [fst]. split; [|apply HI].
    intros p. cbn. rewrite lookup_insert_eq. intros [= <-].
    split; [|done]. apply strip_Forall.
    by apply phone_regexp_spec in Hre as [_ Hall].
Qed.

Lemma phones_ok_set_age m w :
  text_in m AGE_GROUPS = true ->
  phones_ok w -> phones_ok (fst (set_age m w)).
Proof.
  intros Hin HI. apply text_in_text in Hin as (t & Ht).
  destruct (set_age_effect m w t Ht) as (_ & Hd & Hdb).
  apply (phones_ok_ext w); [done| |by rewrite Hdb].
  intros p. rewrite Hd. by rewrite lookup_insert_ne.
Qed.

Lemma phones_ok_cleared w w' :
  phones_ok w -> fsm_data w' = ∅ -> db w' = db w -> phones_ok w'.
Proof.
  intros HI Hd Hdb. apply (phones_ok_ext w); [done| |by rewrite Hdb].
  intros p. by rewrite Hd, lookup_empty.
Qed.

(** One update without a contact keeps the phones well formed. *)
Lemma phones_ok_dispatch env m w :
  contact m = None ->
  phones_ok w -> phones_ok (fst (dispatch cfg env m w)).
Proof.
  intros Hc HI. unfold dispatch. rewrite Hc.
  destruct (text_in m [Lit.slash_start; Lit.start; Lit.menu]).
  { by apply (phones_ok_cleared w). }
  destruct (text_is m Lit.enroll_trial).
  { by apply (phones_ok_cleared w). }
  replace (if in_state w Enroll.phone then None else None)
    with (@None Contact) by (by destruct (in_state w Enroll.phone)).
  destruct (in_state w Enroll.phone); cbn [andb].
  { destruct (text_regexp m) eqn:Hre.
    - by apply phones_ok_set_phone_manual.
    - by apply (phones_ok_ext w). }
  destruct (in_state w Enroll.name_full).
  { by apply phones_ok_set_name_full. }
  destruct (in_state w Enroll.age_group); cbn [andb].
  { destruct (text_in m AGE_GROUPS) eqn:Hin.
    - by apply phones_ok_set_age.
    - destruct (in_state w Enroll.confirm); cbn [andb].
      + destruct (text_is m Lit.confirm_btn);
          [by apply phones_ok_confirm|].
        destruct (text_is m Lit.edit_btn);
          [by apply (phones_ok_cleared w)|].
        destruct (text_is m Lit.ask_btn).
        { unfold ask_question. destruct (build_chat_url cfg);
            by apply (phones_ok_cleared w). }
        destruct (text_is m Lit.contacts_btn).
        { unfold contacts.
          destruct (answer_contact_raises env), (build_chat_url cfg);
            by apply (phones_ok_cleared w). }
        by apply (phones_ok_ext w).
      + destruct (text_is m Lit.ask_btn).
        { unfold ask_question. destruct (build_chat_url cfg);
            by apply (phones_ok_cleared w). }
        destruct (text_is m Lit.contacts_btn).
        { unfold contacts.
          destruct (answer_contact_raises env), (build_chat_url cfg);
            by apply (phones_ok_cleared w). }
        by apply (phones_ok_ext w). }
  destruct (in_state w Enroll.confirm); cbn [andb].
  - destruct (text_is m Lit.confirm_btn);
      [by apply phones_ok_confirm|].
    destruct (text_is m Lit.edit_btn);
      [by apply (phones_ok_cleared w)|].
    destruct (text_is m Lit.ask_btn).
    { unfold ask_question. destruct (build_chat_url cfg);
        by apply (phones_ok_cleared w). }
    destruct (text_is m Lit.contacts_btn).
    { unfold contacts.
      destruct (answer_contact_raises env), (build_chat_url cfg);
        by apply (phones_ok_cleared w). }
    by apply (phones_ok_ext w).
  - destruct (text_is m Lit.ask_btn).
    { unfold ask_question. destruct (build_chat_url cfg);
        by apply (phones_ok_cleared w). }
    destruct (text_is m Lit.contacts_btn).
    { unfold contacts.
      destruct (answer_contact_raises env), (build_chat_url cfg);
        by apply (phones_ok_cleared w). }
    by apply (phones_ok_ext w).
Qed.

(** Along a dialogue in which no contact is shared, from a session
    and a store whose phones are well formed, the phone of the session
    and every phone in the table stay well formed. *)
Lemma phones_ok_dialogue evs : forall w,
  phones_ok w ->
  Forall (fun ev => contact (snd ev) = None) evs ->
  phones_ok (dialogue cfg evs w).
Proof.
  induction evs as [|[env m] evs IH]; intros w HI Hall; [done|].
  inversion_clear Hall as [|? ? Hm Hrest]. cbn [dialogue fold_left fst snd].
  apply IH; [|done]. by apply phones_ok_dispatch.
Qed.

(** *** Row by row *)

(** The phone step left for the name step by a message without a
    contact: the message is a text the pattern accepts, and the phone
    now in the session is that text stripped, well formed. *)
Lemma phone_step_passed_by_text env m w :
  fsm_state w = Some Enroll.phone ->
  contact m = None ->
  fsm_state (fst (dispatch cfg env m w)) = Some Enroll.name_full ->
  exists t,
    text m = Some t /\
    fsm_data (fst (dispatch cfg env m w)) !! "phone" = Some (Str.strip t) /\
    phone_well_formed (Str.strip t).
Proof.
  intros Hst Hc. unfold dispatch, in_state. rewrite Hst, Hc.
  cbn [Enroll.eqb andb].
  destruct (text_in m [Lit.slash_start; Lit.start; Lit.menu]); [done|].
  destruct (text_is m Lit.enroll_trial); [done|].
  destruct (text_regexp m) eqn:Hre.
  - apply text_regexp_text in Hre as (t & Ht & Hre).
    rewrite (set_phone_manual_eq m w t Ht).
    destruct (Z.ltb_spec (Str.len (Str.digits (Str.strip t))) 10) as [|Hlen].
    + cbn. by rewrite Hst.
    + intros _. exists t. split; [done|]. cbn. rewrite lookup_insert_eq.
      split; [done|]. split; [|done]. apply strip_Forall.
      by apply phone_regexp_spec in Hre as [_ Hall].
  - cbn. by rewrite Hst.
Qed.

(** [confirm] clears the session or leaves its fields alone. *)
Lemma confirm_fields env m w :
  fsm_state (fst (confirm cfg env m w)) = None \/
  fsm_data (fst (confirm cfg env m w)) = fsm_data w.
Proof.
  unfold confirm, bind, get_data, gets, getitem, ret, raise, lift_db.
  destruct (fsm_data w !! "child_full") as [child|]; [|by right].
  destruct (fsm_data w !! "age_group") as [ag|]; [|by right].
  destruct (try_enroll _ _ _ _ _ _ _ (db w)) as [d1 [e|[|]]]; [by right| |].
  - left. cbn [negb].
    destruct (ADMIN_ID cfg) as [a|]; [|done].
    destruct (a =? 0); [done|].
    by destruct (send_message_raises env).
  - right. cbn [negb db].
    destruct (remaining_by_group cfg d1) as [d2 [e|lft]]; [done|].
    destruct (all_zero lft); [done|]. cbn [db].
    by destruct (age_kb_dynamic cfg d2) as [d3 [e|kb]].
Qed.

(** [set_name_full] keeps the phone of the session. *)
Lemma set_name_full_phone m w :
  fsm_data (fst (set_name_full cfg m w)) !! "phone" = fsm_data w !! "phone".
Proof.
  destruct (text m) as [t|] eqn:Ht.
  - destruct (Str.split t) as [|first [|second rest]] eqn:Hs.
    + by rewrite (set_name_full_reject cfg m w t Ht)
        by (rewrite Hs; cbn; lia).
    + by rewrite (set_name_full_reject cfg m w t Ht)
        by (rewrite Hs; cbn; lia).
    + pose proof (set_name_full_accept cfg m w t first second rest Ht Hs)
        as (_ & Hd & _).
      rewrite Hd. by rewrite lookup_insert_ne.
  - unfold set_name_full, text_str. by rewrite Ht.
Qed.

(** One update that neither starts from nor ends in the phone step
    leaves the session idle or with the phone it held. *)
Lemma holds_phone_dispatch p env m w :
  holds_phone p w ->
  fsm_state w <> Some Enroll.phone ->
  fsm_state (fst (dispatch cfg env m w)) <> Some Enroll.phone ->
  holds_phone p (fst (dispatch cfg env m w)).
Proof.
  unfold holds_phone. intros HK Hst. unfold dispatch.
  destruct (text_in m [Lit.slash_start; Lit.start; Lit.menu]);
    [by left|].
  destruct (text_is m Lit.enroll_trial); [done|].
  assert (forall r : World * (Exn + unit),
            r = (if text_is m Lit.ask_btn then ask_question cfg w
                 else if text_is m Lit.contacts_btn then contacts cfg env w
                 else fallback w) ->
            fsm_state (fst r) = None \/ fsm_data (fst r) !! "phone" = Some p)
    as Hmenu.
  { intros r ->.
    destruct (text_is m Lit.ask_btn);
      [unfold ask_question; destruct (build_chat_url cfg); by left|].
    destruct (text_is m Lit.contacts_btn); [|done].
    unfold contacts.
    destruct (answer_contact_raises env), (build_chat_url cfg); by left. }
  destruct (fsm_state w) as [[| | |]|] eqn:Hs;
    unfold in_state; rewrite Hs; cbn [Enroll.eqb andb]; intros Hst'.
  - destruct HK as [|HK]; [done|]. right.
    by rewrite set_name_full_phone.
  - destruct (text_in m AGE_GROUPS) eqn:Hin; [|by eapply Hmenu].
    destruct HK as [|HK]; [done|]. right.
    apply text_in_text in Hin as (t & Ht).
    destruct (set_age_effect m w t Ht) as (_ & Hd & _).
    rewrite Hd. by rewrite lookup_insert_ne.
  - done.
  - destruct (text_is m Lit.confirm_btn).
    + destruct HK as [|HK]; [done|].
      destruct (confirm_fields env m w) as [?|Hd]; [by left|right].
      by rewrite Hd.
    + destruct (text_is m Lit.edit_btn); [done|]. by eapply Hmenu.
  - by eapply Hmenu.
Qed.

Lemma holds_phone_dialogue p mid : forall w,
  holds_phone p w ->
  (forall a b, mid = a ++ b ->
     fsm_state (dialogue cfg a w) <> Some Enroll.phone) ->
  holds_phone p (dialogue cfg mid w).
Proof.
  induction mid as [|[env m] mid IH]; intros w HK Hno; [done|].
  cbn [dialogue fold_left fst snd]. apply IH.
  - apply holds_phone_dispatch; [done| |].
    + apply (Hno [] ((env, m) :: mid)). done.
    + apply (Hno [(env, m)] mid). done.
  - intros a b Hab. apply (Hno ((env, m) :: a) b). by rewrite Hab.
Qed.

(** What [confirm] does to the table, on any store: nothing, or one
    row at the end with the phone of the session. *)
Lemma confirm_rows env m w :
  enrollments (db (fst (confirm cfg env m w))) = enrollments (db w) \/
  exists rows r,
    enrollments (db w) = Some rows /\
    enrollments (db (fst (confirm cfg env m w))) = Some (rows ++ [r]) /\
    Row.phone r = fsm_data w !! "phone".
Proof.
  enough (wp (confirm cfg env m) (fun w' _ =>
            enrollments (db w') = enrollments (db w) \/
            exists rows r,
              enrollments (db w) = Some rows /\
              enrollments (db w') = Some (rows ++ [r]) /\
              Row.phone r = fsm_data w !! "phone") w) as H by exact H.
  unfold confirm, get_data, getitem.
  apply wp_bind, wp_gets.
  apply wp_bind.
  destruct (fsm_data w !! "child_full") as [child|];
    [apply wp_ret|apply wp_raise; by left].
  apply wp_bind.
  destruct (fsm_data w !! "age_group") as [ag|];
    [apply wp_ret|apply wp_raise; by left].
  apply wp_bind, wp_lift_db.
  set (c := mkCall (utcnow_enroll env) child ag (fsm_data w !! "phone")
              (user_id (from_user m)) (username (from_user m))).
  change (try_enroll cfg _ _ _ _ _ _) with (run_call cfg c).
  assert (enrollments (fst (run_call cfg c (db w))) = enrollments (db w) \/
          exists rows r,
            enrollments (db w) = Some rows /\
            enrollments (fst (run_call cfg c (db w))) = Some (rows ++ [r]) /\
            Row.phone r = fsm_data w !! "phone") as Hp.
  { rewrite try_enroll_eq.
    destruct (enrollments (db w)) as [rows|] eqn:Hr;
      [destruct (group_limits (db w)) as [tbl|] eqn:Hg|];
      try (left; cbn; by rewrite ?Hr).
    destruct (_ >=? _); [left; cbn; by rewrite Hr|].
    right. by exists rows, (new_row (db w) rows c). }
  unfold wp at 1.
  destruct (run_call cfg c (db w)) as [d1 [e|ok]]; cbn [fst snd] in *;
    [done|].
  set (w1 := mkWorld d1 _ _ _ _ _).
  assert (forall w', enrollments (db w') = enrollments (db w1) ->
            enrollments (db w') = enrollments (db w) \/
            exists rows r,
              enrollments (db w) = Some rows /\
              enrollments (db w') = Some (rows ++ [r]) /\
              Row.phone r = fsm_data w !! "phone") as Hsame.
  { intros w' ->. exact Hp. }
  clearbody w1. clear Hp c.
  destruct ok; cbn [negb].
  - apply wp_bind.
    apply (wp_mono _ (fun w' _ => db w' = db w1)).
    { intros w2 r Hdb. destruct r as [e|[]].
      - apply Hsame. by rewrite Hdb.
      - apply wp_bind, wp_modify, wp_modify.
        apply Hsame. cbn. by rewrite Hdb. }
    destruct (ADMIN_ID cfg) as [a|]; [destruct (a =? 0)|];
      [ | destruct (send_message_raises env) | ]; done.
  - apply wp_bind, wp_lift_reads; [apply fst_remaining_by_group|].
    intros [e|lft]; [by apply Hsame|].
    destruct (all_zero lft); [apply wp_modify; by apply Hsame|].
    apply wp_bind, wp_lift_reads; [apply fst_age_kb_dynamic|].
    intros [e|kb]; [by apply Hsame|].
    apply wp_bind, wp_modify, wp_modify. by apply Hsame.
Qed.

Lemma set_name_full_rows m w :
  enrollments (db (fst (set_name_full cfg m w))) = enrollments (db w).
Proof.
  destruct (text m) as [t|] eqn:Ht.
  - destruct (Str.split t) as [|first [|second rest]] eqn:Hs.
    + by rewrite (set_name_full_reject cfg m w t Ht)
        by (rewrite Hs; cbn; lia).
    + by rewrite (set_name_full_reject cfg m w t Ht)
        by (rewrite Hs; cbn; lia).
    + pose proof (set_name_full_accept cfg m w t first second rest Ht Hs)
        as (_ & _ & Hdb & _).
      by rewrite Hdb.
  - unfold set_name_full, text_str. by rewrite Ht.
Qed.

(** An update that adds a row to the table is a confirmation, and the
    row carries the phone of the session. *)
Lemma dispatch_appends env m w rows r :
  enrollments (db w) = Some rows ->
  enrollments (db (fst (dispatch cfg env m w))) = Some (rows ++ [r]) ->
  fsm_state w = Some Enroll.confirm /\
  Row.phone r = fsm_data w !! "phone".
Proof.
  intros Hr.
  assert (forall w', enrollments (db w') = enrollments (db w) ->
            enrollments (db w') = Some (rows ++ [r]) -> False) as Hno.
  { intros w' -> Heq. rewrite Hr in Heq. injection Heq as Heq.
    apply (f_equal (@length _)) in Heq. rewrite length_app in Heq.
    cbn in Heq. lia. }
  unfold dispatch.
  destruct (text_in m [Lit.slash_start; Lit.start; Lit.menu]);
    [intros H; by destruct (Hno _ eq_refl H)|].
  destruct (text_is m Lit.enroll_trial);
    [intros H; by destruct (Hno _ eq_refl H)|].
  assert (forall res : World * (Exn + unit),
            res = (if text_is m Lit.ask_btn then ask_question cfg w
                   else if text_is m Lit.contacts_btn
                        then contacts cfg env w
                        else fallback w) ->
            enrollments (db (fst res)) = enrollments (db w)) as Hmenu.
  { intros res ->.
    destruct (text_is m Lit.ask_btn);
      [unfold ask_question; by destruct (build_chat_url cfg)|].
    destruct (text_is m Lit.contacts_btn); [|done].
    unfold contacts.
    by destruct (answer_contact_raises env), (build_chat_url cfg). }
  destruct (fsm_state w) as [[| | |]|] eqn:Hs;
    unfold in_state; rewrite Hs; cbn [Enroll.eqb andb]; intros H.
  - by destruct (Hno _ (set_name_full_rows m w) H).
  - destruct (text_in m AGE_GROUPS) eqn:Hin.
    + apply text_in_text in Hin as (t & Ht).
      destruct (set_age_effect m w t Ht) as (_ & _ & Hdb).
      exfalso. apply (Hno (fst (set_age m w))); [by rewrite Hdb|done].
    + by destruct (Hno _ (Hmenu _ eq_refl) H).
  - exfalso. revert H. apply Hno.
    destruct (contact m) as [c|].
    + unfold set_phone_from_contact.
      by destruct (match contact_user_id c with
                   | Some u => u =? user_id (from_user m)
                   | None => true
                   end).
    + destruct (text_regexp m) eqn:Hre; [|done].
      apply text_regexp_text in Hre as (t & Ht & _).
      rewrite (set_phone_manual_eq m w t Ht).
      by destruct (Str.len _ <? 10).
  - destruct (text_is m Lit.confirm_btn).
    + split; [done|].
      destruct (confirm_rows env m w) as [Hsame|(rows' & r' & Hr' & Ha & Hp)].
      * by destruct (Hno _ Hsame H).
      * rewrite Hr in Hr'. injection Hr' as <-. rewrite Ha in H.
        injection H as H. apply app_inj_tail in H as [_ <-]. done.
    + exfalso. revert H. apply Hno.
      destruct (text_is m Lit.edit_btn); [done|]. by apply Hmenu.
  - by destruct (Hno _ (Hmenu _ eq_refl) H).
Qed.

(** C5, as the code has it, row by row. Take any dialogue, on any
    store and from any session: the updates [pre], then update [j],
    then the updates [mid], then update [k]. If update [j] finds the
    session in the phone step, carries no contact and leaves the
    session in the name step, if the session is not in the phone step
    again before update [k], and if update [k] adds a row to the table
    of enrollments, then update [j] was a text, the phone of the row is
    that text without the whitespace around it, and it consists of
    digits, whitespace and + - ( ) and holds at least 10 digits;
    whatever rows the store holds already and whatever was shared
    before update [j] or ignored after it. A shared contact that is
    the sender's own, or has no user id, puts its number into the
    session as it was delivered. *)
Theorem typed_phone_invariant :
  (forall w0 pre ej mj mid ek mk rows r,
     let wj := dialogue cfg pre w0 in
     let wj' := fst (dispatch cfg ej mj wj) in
     let wk := dialogue cfg mid wj' in
     let wk' := fst (dispatch cfg ek mk wk) in
     fsm_state wj = Some Enroll.phone ->
     contact mj = None ->
     fsm_state wj' = Some Enroll.name_full ->
     (forall a b, mid = a ++ b ->
        fsm_state (dialogue cfg a wj') <> Some Enroll.phone) ->
     enrollments (db wk) = Some rows ->
     enrollments (db wk') = Some (rows ++ [r]) ->
     exists t,
       text mj = Some t /\
       Row.phone r = Some (Str.strip t) /\
       phone_well_formed (Str.strip t)) /\
  (forall env m c w,
     fsm_state w = Some Enroll.phone ->
     text m = None ->
     contact m = Some c ->
     match contact_user_id c with
     | None => True
     | Some u => u = user_id (from_user m)
     end ->
     fsm_state (fst (dispatch cfg env m w)) = Some Enroll.name_full /\
     fsm_data (fst (dispatch cfg env m w)) !! "phone" =
       Some (phone_number c)).
Proof.
  split.
  - intros w0 pre ej mj mid ek mk rows r wj wj' wk wk'
      Hst Hc Hpass Hno Hrows Hrow.
    destruct (phone_step_passed_by_text ej mj wj Hst Hc Hpass)
      as (t & Ht & Hphone & Hwf).
    exists t. split; [done|]. split; [|done].
    destruct (dispatch_appends ek mk wk rows r Hrows Hrow) as [Hconf ->].
    assert (holds_phone (Str.strip t) wk) as [Hidle|Hk].
    { apply holds_phone_dialogue; [by right|done]. }
    + by rewrite Hconf in Hidle.
    + done.
  - intros env m c w Hst Ht Hc Hown.
    unfold dispatch, text_in, text_is, in_state.
    rewrite Ht, Hst, Hc. cbn [Enroll.eqb].
    rewrite (set_phone_from_contact_eq m c w Hown). cbn.
    split; [done|]. by rewrite lookup_insert_eq.
Qed.

End phone_invariant_dialogue.

(** ** Concrete runs *)

Section concrete.
Import Ex ExW ExD.

Lemma fresh_initialized c : initialized (fresh c).
Proof. unfold fresh. apply init_db_initialized. Qed.

Lemma fresh_no_rows c : enrollments (fresh c) = Some [].
Proof.
  unfold fresh. rewrite init_db_eq.
  by destruct (seeding_overflows c empty_database).
Qed.

Lemma fresh_phones_ok c : persisted_phones_ok (fresh c).
Proof.
  intros rows r p Hr. rewrite fresh_no_rows in Hr.
  injection Hr as <-. intros [].
Qed.

Lemma full_db_initialized : initialized full_db.
Proof. split_and!; [reflexivity|eexists; reflexivity..]. Qed.

Lemma full_db_all_full : all_full cfg1 full_db.
Proof. repeat constructor. Qed.

Lemma phone_short_not_well_formed : ~ phone_well_formed phone_short.
Proof. intros [_ Hlen]. vm_compute in Hlen. by apply Hlen. Qed.

(** With [DEFAULT_GROUP_LIMIT] one above the largest INTEGER of
    SQLite, [init_db] on an empty file creates the tables and the
    index, raises at the first seeding INSERT and seeds nothing; called
    again it does the same. *)
Example init_db_default_too_large :
  snd (init_db cfg_big empty_database) =
    inl (OverflowError "Python int too large to convert to SQLite INTEGER") /\
  enrollments (fst (init_db cfg_big empty_database)) = Some [] /\
  group_limits (fst (init_db cfg_big empty_database)) = Some ∅ /\
  idx_enrollments_age (fst (init_db cfg_big empty_database)) = true /\
  init_db cfg_big (fst (init_db cfg_big empty_database)) =
    init_db cfg_big empty_database.
Proof. vm_compute. split_and!; reflexivity. Qed.

(** C8 fails as first stated: with that default limit, [init_db] on
    an empty file raises at the seeding INSERT and leaves the known
    age groups without a limit row. *)
Lemma init_db_idempotent_refuted : ~ init_db_idempotent_as_stated.
Proof.
  intros H.
  destruct (H cfg_big empty_database 1%nat ltac:(lia)) as [_ Hrow].
  destruct (Hrow group_a) as (tbl & v & Ht & Hv).
  { apply elem_of_cons. by left. }
  destruct init_db_default_too_large as (_ & _ & Hg & _).
  rewrite Hg in Ht. injection Ht as <-.
  by rewrite lookup_empty in Hv.
Qed.

(** "  Ivan   Petrov  " is stored as "Ivan Petrov"; "Ivan" alone is
    refused. *)
Example ivan_petrov_normalized :
  fsm_data
    (fst (set_name_full cfg (text_message typed_name user)
            (world (fresh cfg) (Some Enroll.name_full) ∅))) !! "child_full" =
  Some ivan_petrov.
Proof. vm_compute. reflexivity. Qed.

Example ivan_alone_refused :
  set_name_full cfg (text_message ivan user)
    (world (fresh cfg) (Some Enroll.name_full) ∅) =
  (replied (world (fresh cfg) (Some Enroll.name_full) ∅) NameReprompt
     no_markup, inr tt).
Proof. vm_compute. reflexivity. Qed.

(** "12345" is refused; "+7 900 123-45-67" is accepted as typed. *)
Example phone_short_refused :
  fst (dispatch cfg env_ok (text_message phone_short user)
         (world (fresh cfg) (Some Enroll.phone) ∅)) =
  replied (world (fresh cfg) (Some Enroll.phone) ∅) PhoneTooShort no_markup.
Proof. vm_compute. reflexivity. Qed.

Example phone_ok_accepted :
  let w := fst (dispatch cfg env_ok (text_message phone_ok user)
                  (world (fresh cfg) (Some Enroll.phone) ∅)) in
  fsm_state w = Some Enroll.name_full /\
  fsm_data w !! "phone" = Some phone_ok.
Proof. vm_compute. split; reflexivity. Qed.

(** A padded text is stored without the padding. *)
Example phone_padded_trimmed :
  let w := fst (dispatch cfg env_ok (text_message phone_padded user)
                  (world (fresh cfg) (Some Enroll.phone) ∅)) in
  fsm_state w = Some Enroll.name_full /\
  fsm_data w !! "phone" = Some (tl phone_padded) /\
  fsm_data w !! "phone" <> Some phone_padded.
Proof. vm_compute. split_and!; [reflexivity|reflexivity|discriminate]. Qed.

(** A command typed in the name step is not taken as a name. *)
Example command_in_name_step :
  let w := fst (dispatch cfg env_ok (text_message Lit.enroll_trial user)
                  (world (fresh cfg) (Some Enroll.name_full) ∅)) in
  (2 <= length (Str.split Lit.enroll_trial))%nat /\
  fsm_state w = Some Enroll.phone /\
  fsm_data w !! "child_full" = None.
Proof. vm_compute. split_and!; [lia|reflexivity|reflexivity]. Qed.

(** C6 fails as first stated: the text "a1234567890" holds 10 digits
    and is refused, the session staying in the phone step. *)
Lemma phone_validation_refuted : ~ phone_validation_as_stated.
Proof.
  intros H.
  specialize (H cfg env_ok (world (fresh cfg) (Some Enroll.phone) ∅)
                phone_with_letter user eq_refl).
  destruct H as [_ H].
  assert (10 <= Str.len (Str.digits phone_with_letter)) as Hlen
    by (vm_compute; discriminate).
  destruct (H Hlen) as [Hst _].
  vm_compute in Hst. discriminate Hst.
Qed.

(** C5 fails as first stated: a shared contact with the number "12345"
    goes through the dialogue and is stored. *)
Lemma phone_invariant_refuted : ~ phone_invariant_as_stated.
Proof.
  intros H.
  specialize (H cfg contact_dialogue (fresh cfg) (fresh_phones_ok cfg)).
  assert (exists r,
    enrollments
      (db (dialogue cfg contact_dialogue
             (mkWorld (fresh cfg) None ∅ [] [] []))) = Some [r] /\
    Row.phone r = Some phone_short) as (r & Hr & Hp).
  { eexists. split; vm_compute; reflexivity. }
  apply phone_short_not_well_formed.
  apply (H [r] r phone_short Hr); [by left|done].
Qed.

(** C4, on the store where [get_remaining] is 0 for both groups. A
    name of two tokens typed in the name step is answered with the
    apology and the menu keyboard, and the session is then in the
    age-group step with its fields kept. A confirmation is answered
    with the apology and the menu keyboard, and the session is still in
    the confirmation step. In neither case is the session idle. *)
Theorem all_full_keeps_state :
  map (fun ag => snd (get_remaining cfg1 ag full_db)) AGE_GROUPS =
    [inr 0; inr 0] /\
  (let w' := fst (dispatch cfg1 env_ok (text_message typed_name user)
                    at_name_full) in
   replies w' = [Answer NoSeatsAfterName main_menu_kb] /\
   fsm_state w' = Some Enroll.age_group /\
   fsm_data w' !! "phone" = Some phone_ok /\
   ~ idle w') /\
  (let w' := fst (dispatch cfg1 env_ok (text_message Lit.confirm_btn user)
                    at_confirm_full) in
   replies w' = [Answer NoSeatsAfterConfirm main_menu_kb] /\
   fsm_state w' = Some Enroll.confirm /\
   ~ idle w').
Proof.
  split; [vm_compute; reflexivity|].
  split; cbv zeta; split_and!; try (vm_compute; reflexivity);
    intros [Hst _]; vm_compute in Hst; discriminate Hst.
Qed.

(** After the apology the leftover state still routes input: a label
    typed next is taken by [set_age], and a second press of the confirm
    button runs [try_enroll] again. *)
Example leftover_state_routes :
  let w1 := fst (dispatch cfg1 env_ok (text_message typed_name user)
                   at_name_full) in
  let w2 := fst (dispatch cfg1 env_ok (text_message group_a user) w1) in
  fsm_state w2 = Some Enroll.confirm.
Proof. vm_compute. reflexivity. Qed.

End concrete.


(** ** Concurrent admission attempts *)

Section concurrent.
Import Concurrent.
Context (cfg : Config).

Lemma lock_free_spec (ts : list Thread) :
  lock_free ts = true <-> forall t, In t ts -> conn_txn t = None.
Proof.
  unfold lock_free. rewrite forallb_forall. split; intros H t Hin.
  - specialize (H t Hin). by destruct (conn_txn t).
  - by rewrite (H t Hin).
Qed.

Lemma in_others (ts : list Thread) i t :
  In t (take i ts ++ drop (Datatypes.S i) ts) <->
  exists j, j <> i /\ ts !! j = Some t.
Proof.
  rewrite <- list_elem_of_In, elem_of_app, !list_elem_of_lookup. split.
  - intros [[j Hj]|[j Hj]].
    + apply lookup_take_Some in Hj as [Hj Hlt]. exists j. split; [lia|done].
    + rewrite lookup_drop in Hj. exists (Datatypes.S i + j)%nat.
      split; [lia|done].
  - intros (j & Hne & Hj). destruct (Nat.lt_ge_cases j i) as [Hlt|Hge].
    + left. exists j. by apply lookup_take_Some.
    + right. exists (j - Datatypes.S i)%nat. rewrite lookup_drop.
      by replace (Datatypes.S i + (j - Datatypes.S i))%nat with j by lia.
Qed.

(** Under the invariant, the others are free exactly when the lock is
    free or held by the thread that asks. *)
Lemma others_free_holder h g i :
  lock_inv h g ->
  lock_free (take i (threads g) ++ drop (Datatypes.S i) (threads g)) = true <->
  (h = None \/ h = Some i).
Proof.
  intros [Hex Hthr]. rewrite lock_free_spec. split.
  - intros Hfree. destruct h as [j|]; [|by left]. right. f_equal.
    destruct (decide (j = i)) as [->|Hne]; [done|].
    destruct (Hex j eq_refl) as [tj Hj].
    assert (conn_txn tj = None) as Hnone.
    { apply Hfree. apply in_others. by exists j. }
    destruct (Hthr j tj Hj) as [Htx _].
    destruct (proj2 Htx eq_refl) as [v Hv]. congruence.
  - intros Hh t Hin. apply in_others in Hin as (j & Hne & Hj).
    destruct (Hthr j t Hj) as [Htx _].
    destruct (conn_txn t) as [v|] eqn:Hv; [|done].
    assert (h = Some j) as -> by (apply Htx; eauto).
    destruct Hh as [?|[= ?]]; done.
Qed.

(** Replacing thread [i] by one that agrees with the new holder. *)
Lemma lock_inv_update h h' g i t t' f' :
  lock_inv h g ->
  threads g !! i = Some t ->
  (is_Some (conn_txn t') <-> h' = Some i) ->
  (in_txn (pc t') = true <-> is_Some (conn_txn t')) ->
  (h' = h \/ (h = None /\ h' = Some i) \/ (h = Some i /\ h' = None)) ->
  lock_inv h' (mkGlobal f' (<[i := t']> (threads g))).
Proof.
  intros [Hex Hthr] Hi Htx' Hpc' Hh.
  pose proof (lookup_lt_Some _ _ _ Hi) as Hlt.
  split; cbn [threads].
  - intros j Hj. destruct (decide (j = i)) as [->|Hne].
    + rewrite list_lookup_insert_eq by done. eauto.
    + rewrite list_lookup_insert_ne by done. apply Hex.
      destruct Hh as [->|[[_ ->]|[_ ->]]]; [done|congruence|done].
  - intros j tj Hj. destruct (decide (j = i)) as [->|Hne].
    + rewrite list_lookup_insert_eq in Hj by done. by injection Hj as <-.
    + rewrite list_lookup_insert_ne in Hj by done.
      destruct (Hthr j tj Hj) as [Htx Hpc]. split; [|done].
      rewrite Htx. destruct Hh as [->|[[-> ->]|[-> ->]]]; [done| |].
      * split; [done|]. intros [= ?]. done.
      * split; [|done]. intros [= ?]. done.
Qed.

Lemma select_count_conn ag c : fst (Sql.select_count ag c) = c.
Proof. unfold Sql.select_count. by destruct (enrollments (Sql.view c)). Qed.

Lemma on_file_txn {A} (m : M Database A) c :
  txn (fst (on_file m c)) = txn c.
Proof. unfold on_file. by destruct (m (file c)). Qed.

Lemma insert_enrollment_txn ch ag ph uid un now f v :
  is_Some (txn (fst (Sql.insert_enrollment ch ag ph uid un now
                       (mkConn f (Some v))))).
Proof.
  unfold Sql.insert_enrollment. cbn.
  destruct (enrollments v); cbn; eauto.
Qed.

(** Every step of every thread keeps the invariant and obeys the
    discipline of the lock. *)
(** Both sides of an equivalence hold, or both fail. *)
Local Ltac iff_cases :=
  split; first [ done | by intros [? ?] | by (intros _; eauto) ].

Lemma step_lock_inv h g i e g' :
  lock_inv h g ->
  step cfg i g = Some (e, g') ->
  exists h', check_event h e = Some h' /\ lock_inv h' g'.
Proof.
  intros Hinv Hstep. unfold step in Hstep.
  destruct (threads g !! i) as [t|] eqn:Hi; [|done].
  pose proof (others_free_holder h g i Hinv) as Hfree.
  pose proof (proj2 Hinv i t Hi) as [Htx Hpc].
  destruct t as [c p tx]. cbn [conn_txn pc] in *.
  unfold step_thread in Hstep. cbn [call pc conn_txn] in Hstep.
  destruct p as [| |n|n l|r|r]; cbn [in_txn] in Hpc.
  - (* BEGIN IMMEDIATE *)
    assert (tx = None) as ->.
    { destruct tx as [v|]; [|done].
      assert (false = true) by (apply Hpc; eauto). done. }
    assert (h <> Some i) as Hni.
    { intros Heq. apply Htx in Heq as [v Hv]. done. }
    destruct (lock_free _) eqn:Hlf.
    + destruct (proj1 Hfree eq_refl) as [->|?]; [|done].
      cbn in Hstep. injection Hstep as <- <-.
      exists (Some i). split; [done|].
      eapply lock_inv_update; [done|done|cbn; iff_cases|cbn; iff_cases|];
        eauto.
    + destruct h as [j|].
      2:{ by pose proof (proj2 Hfree (or_introl eq_refl)). }
      injection Hstep as <- <-.
      exists (Some j). cbn [check_event].
      destruct (Nat.eqb_spec i j) as [->|Hne]; [by destruct Hni|].
      split; [done|].
      eapply lock_inv_update;
        [done|done|cbn; iff_cases|cbn; iff_cases|by left].
  - (* SELECT COUNT *)
    destruct (proj1 Hpc eq_refl) as [v ->].
    assert (h = Some i) as -> by (apply Htx; eauto).
    pose proof (select_count_conn (call_age_group c)
                  (mkConn (gfile g) (Some v))) as Hk.
    destruct (Sql.select_count _ _) as [k [err|n]]; cbn [fst] in Hk; subst k;
      injection Hstep as <- <-; cbn [check_event]; rewrite Nat.eqb_refl.
    + exists None. split; [done|].
      eapply lock_inv_update;
        [done|done|cbn; iff_cases|cbn; iff_cases|by right; right].
    + exists (Some i). split; [done|].
      eapply lock_inv_update;
        [done|done|cbn; iff_cases|cbn; iff_cases|by left].
  - (* the limit *)
    destruct (proj1 Hpc eq_refl) as [v ->].
    assert (h = Some i) as -> by (apply Htx; eauto).
    pose proof (on_file_txn (get_group_limit cfg (call_age_group c))
                  (mkConn (gfile g) (Some v))) as Hk.
    destruct (on_file _ _) as [k [err|l]]; cbn [fst txn] in Hk;
      injection Hstep as <- <-; cbn [check_event]; rewrite Nat.eqb_refl.
    + exists None. split; [done|].
      eapply lock_inv_update;
        [done|done|cbn; iff_cases|cbn; iff_cases|by right; right].
    + exists (Some i). split; [done|].
      eapply lock_inv_update;
        [done|done|cbn; rewrite Hk; iff_cases|cbn; rewrite Hk; iff_cases|
         by left].
  - (* the comparison and the insert *)
    destruct (proj1 Hpc eq_refl) as [v ->].
    assert (h = Some i) as -> by (apply Htx; eauto).
    destruct (n >=? l).
    + injection Hstep as <- <-. cbn [check_event]. rewrite Nat.eqb_refl.
      exists (Some i). split; [done|].
      eapply lock_inv_update;
        [done|done|cbn; iff_cases|cbn; iff_cases|by left].
    + pose proof (insert_enrollment_txn (call_child_full c) (call_age_group c)
                    (call_phone c) (call_user_id c) (call_username c)
                    (call_now c) (gfile g) v) as Hk.
      destruct (Sql.insert_enrollment _ _ _ _ _ _ _) as [k [err|[]]];
        cbn [fst] in Hk; injection Hstep as <- <-; cbn [check_event];
        rewrite Nat.eqb_refl.
      * exists None. split; [done|].
        eapply lock_inv_update;
        [done|done|cbn; iff_cases|cbn; iff_cases|by right; right].
      * exists (Some i). split; [done|].
        eapply lock_inv_update;
        [done|done|cbn; iff_cases|cbn; iff_cases|by left].
  - (* leaving the block *)
    destruct (proj1 Hpc eq_refl) as [v ->].
    assert (h = Some i) as -> by (apply Htx; eauto).
    injection Hstep as <- <-. cbn [check_event]. rewrite Nat.eqb_refl.
    exists None. split; [done|].
    eapply lock_inv_update;
        [done|done|cbn; iff_cases|cbn; iff_cases|by right; right].
  - done.
Qed.

Lemma run_check sched : forall h g,
  lock_inv h g -> check h (fst (run cfg sched g)) = true.
Proof.
  induction sched as [|i sched IH]; intros h g Hinv; [done|].
  cbn [run]. destruct (step cfg i g) as [[e g']|] eqn:Hstep.
  - destruct (step_lock_inv h g i e g' Hinv Hstep) as (h' & Hc & Hinv').
    specialize (IH h' g' Hinv').
    destruct (run cfg sched g') as [tr g'']. cbn [fst check] in *.
    by rewrite Hc.
  - by apply IH.
Qed.

Lemma init_lock_inv f cs : lock_inv None (init f cs).
Proof.
  split; [done|]. intros i t Hi. unfold init in Hi. cbn [threads] in Hi.
  apply list_lookup_fmap_Some in Hi as (c & -> & _). cbn.
  split; iff_cases.
Qed.

Lemma check_event_holder h e h' :
  check_event h e = Some h' -> h' = holder_after h e.
Proof.
  destruct e, h as [j|]; cbn; try done;
    try (destruct (Nat.eqb_spec i j); intros [= <-]; done).
  by intros [= <-].
Qed.

Lemma check_app h tr1 tr2 :
  check h (tr1 ++ tr2) = true ->
  check (fold_left holder_after tr1 h) tr2 = true.
Proof.
  revert h. induction tr1 as [|e tr1 IH]; intros h; [done|].
  cbn [app check fold_left].
  destruct (check_event h e) as [h'|] eqn:He; [|done].
  apply check_event_holder in He as ->. apply IH.
Qed.

(** An access allowed by the discipline is made by the holder. *)
Lemma check_event_access h e i :
  is_Some (check_event h e) ->
  is_read_of i e \/ e = ev_insert i ->
  h = Some i.
Proof.
  intros [h' He] [[->| ->]| ->]; destruct h as [j|]; cbn in He; try done;
    destruct (Nat.eqb_spec i j); by subst.
Qed.

(** While [a] holds the lock and does not end its transaction, no
    other call reads. *)
Lemma check_no_foreign_read a b tr2 : forall e tr3,
  check (Some a) (tr2 ++ e :: tr3) = true ->
  is_read_of b e ->
  b <> a ->
  Exists (is_end_of a) tr2.
Proof.
  induction tr2 as [|e2 tr2 IH]; intros e tr3 Hc Hread Hne.
  - cbn [app check] in Hc.
    destruct (check_event (Some a) e) as [h'|] eqn:He; [|done].
    assert (Some a = Some b) as [= ->]; [|done].
    eapply check_event_access; eauto.
  - cbn [app check] in Hc.
    destruct (check_event (Some a) e2) as [h'|] eqn:He; [|done].
    destruct e2 as [i|i|i|i|i|i|i|i]; cbn in He; try done.
    all: destruct (Nat.eqb_spec i a) as [->|Hia]; try done.
    all: injection He as <-.
    all: first [ apply Exists_cons_hd; first [by left | by right]
               | apply Exists_cons_tl; by eapply IH ].
Qed.

(** C3. In every interleaving of any number of [try_enroll] calls on
    one file, under every schedule: a call reads the count, reads the
    limit and inserts only while its own transaction, opened by
    BEGIN IMMEDIATE, is the one that holds the write lock; and once a
    call has begun, no other call reads the count or the limit before
    that call has committed or rolled back. *)
Theorem admission_reads_serialized f cs sched :
  (forall tr1 e tr2 i,
     fst (run cfg sched (init f cs)) = tr1 ++ e :: tr2 ->
     is_read_of i e \/ e = ev_insert i ->
     holder tr1 = Some i) /\
  (forall tr1 a tr2 e tr3 b,
     fst (run cfg sched (init f cs)) = tr1 ++ ev_begin a :: tr2 ++ e :: tr3 ->
     is_read_of b e ->
     b <> a ->
     Exists (is_end_of a) tr2).
Proof.
  pose proof (run_check sched None (init f cs) (init_lock_inv f cs)) as Hc.
  split.
  - intros tr1 e tr2 i Htr Hacc. rewrite Htr in Hc.
    apply check_app in Hc. cbn [check] in Hc. unfold holder.
    destruct (check_event (fold_left holder_after tr1 None) e) eqn:He;
      [|done].
    eapply check_event_access; eauto.
  - intros tr1 a tr2 e tr3 b Htr Hread Hne. rewrite Htr in Hc.
    apply check_app in Hc. cbn [check] in Hc.
    destruct (check_event (fold_left holder_after tr1 None) (ev_begin a))
      as [h'|] eqn:He; [|done].
    assert (h' = Some a) as ->.
    { destruct (fold_left holder_after tr1 None); cbn in He; [done|].
      by injection He as <-. }
    by eapply check_no_foreign_read.
Qed.

(** The steps of one call run alone are [try_enroll]: same file, same
    outcome. *)
Lemma run_alone_try_enroll f c :
  gfile (snd (run_alone cfg f c)) = fst (run_call cfg c f) /\
  map pc (threads (snd (run_alone cfg f c))) =
    [finished (snd (run_call cfg c f))].
Proof.
  rewrite try_enroll_eq. destruct c as [now child ag ph uid un].
  destruct f as [w [rows|] s [tbl|] i]; cbn [enrollments group_limits];
    try (split; reflexivity).
  lazy beta iota zeta delta
    -[Z.geb Str.len Sql.rows_of gmap_lookup Z.max Z.add Sql.max_id
      DEFAULT_GROUP_LIMIT].
  destruct (tbl !! ag) as [v|];
    lazy beta iota zeta delta
      -[Z.geb Str.len Sql.rows_of gmap_lookup Z.max Z.add Sql.max_id
        DEFAULT_GROUP_LIMIT];
    match goal with
    | |- context [Z.geb ?a ?b] => destruct (Z.geb a b)
    end; split; reflexivity.
Qed.

End concurrent.

(** ** The capacity invariant under concurrency *)

Section concurrent_capacity.
Import Concurrent Capacity.
Context (cfg : Config) (f0 : Database) (grp : list N).

Lemma wins_insert (ts : list Thread) : forall i t t',
  ts !! i = Some t ->
  wins grp (<[i := t']> ts) = wins grp ts - won grp t + won grp t'.
Proof.
  unfold wins.
  induction ts as [|x ts IH]; intros [|i] t t' Hl; try done.
  - injection Hl as ->.
    change (<[0%nat := t']> (t :: ts)) with (t' :: ts).
    cbn [fold_right]. lia.
  - change (<[Datatypes.S i := t']> (x :: ts)) with (x :: <[i := t']> ts).
    cbn [fold_right]. rewrite (IH i t t' Hl). lia.
Qed.

(** A step that leaves the file alone and neither starts from nor
    ends in a returned [True]. *)
Lemma cap_inv_update g i t t' :
  cap_inv cfg f0 grp g ->
  threads g !! i = Some t ->
  thread_view_ok cfg (gfile g) t' ->
  won grp t = 0 ->
  won grp t' = 0 ->
  cap_inv cfg f0 grp (mkGlobal (gfile g) (<[i := t']> (threads g))).
Proof.
  intros (Hi & Hl & Hc & Hw & Hthr) Hlook Hok Hw0 Hw0'.
  pose proof (lookup_lt_Some (threads g) i t Hlook) as Hlt.
  split_and!; try done; cbn [threads gfile].
  { rewrite (wins_insert _ i t t' Hlook). lia. }
  intros j tj Hj. destruct (decide (j = i)) as [->|Hne].
  - rewrite list_lookup_insert_eq in Hj by done. by injection Hj as <-.
  - rewrite list_lookup_insert_ne in Hj by congruence. by apply (Hthr j).
Qed.

Lemma step_cap_inv h g i e g' :
  lock_inv h g ->
  cap_inv cfg f0 grp g ->
  step cfg i g = Some (e, g') ->
  cap_inv cfg f0 grp g'.
Proof.
  intros Hlock Hcap Hstep. unfold step in Hstep.
  destruct (threads g !! i) as [t|] eqn:Hlook; [|done].
  pose proof Hcap as (Hi & Hl & Hc & Hwin & Hthr).
  pose proof (Hthr i t Hlook) as Hview.
  pose proof (proj2 Hlock i t Hlook) as [Htx Hpc].
  destruct g as [f ts]. cbn [gfile threads] in *.
  destruct t as [c p tx]. unfold thread_view_ok in Hview.
  cbn [conn_txn pc call] in *.
  unfold step_thread in Hstep. cbn [call pc conn_txn] in Hstep.
  pose proof Hi as (Hw & [rows Hrows] & [tbl Htbl]).
  pose proof (pragma_wal_id f Hw) as Hpw.
  destruct p as [| |n|n l|r|r]; cbn [in_txn] in Hpc.
  - destruct (lock_free _).
    + cbn in Hstep. rewrite Hpw in Hstep. injection Hstep as <- <-.
      by apply (cap_inv_update (mkGlobal f ts) i _ _ Hcap Hlook).
    + injection Hstep as <- <-.
      by apply (cap_inv_update (mkGlobal f ts) i _ _ Hcap Hlook).
  - destruct (proj1 Hpc eq_refl) as [v ->]. subst v.
    unfold Sql.select_count in Hstep. cbn [Sql.view txn] in Hstep.
    rewrite Hrows in Hstep. injection Hstep as <- <-.
    apply (cap_inv_update (mkGlobal f ts) i _ _ Hcap Hlook); [|done|done].
    unfold thread_view_ok. cbn. split; [done|].
    unfold group_count. by rewrite Hrows.
  - destruct (proj1 Hpc eq_refl) as [v ->]. destruct Hview as [-> ->].
    unfold on_file in Hstep. cbn [file txn] in Hstep.
    rewrite (get_group_limit_ok cfg _ f Hi) in Hstep.
    injection Hstep as <- <-.
    apply (cap_inv_update (mkGlobal f ts) i _ _ Hcap Hlook); [|done|done].
    unfold thread_view_ok. cbn. done.
  - destruct (proj1 Hpc eq_refl) as [v ->]. destruct Hview as (-> & -> & ->).
    destruct (Z.geb_spec (group_count f (call_age_group c))
                (group_limit cfg f (call_age_group c))) as [Hge|Hlt].
    + injection Hstep as <- <-.
      apply (cap_inv_update (mkGlobal f ts) i _ _ Hcap Hlook); [|done|done].
      unfold thread_view_ok. cbn. done.
    + unfold Sql.insert_enrollment in Hstep.
      cbn [Sql.implicit_begin txn Sql.view] in Hstep.
      rewrite Hrows in Hstep. cbn [Sql.write txn file] in Hstep.
      injection Hstep as <- <-.
      apply (cap_inv_update (mkGlobal f ts) i _ _ Hcap Hlook); [|done|done].
      unfold thread_view_ok. cbn [pc conn_txn call].
      exists rows. split_and!; try done.
      unfold with_new_row, new_row. rewrite Hw. by destruct c.
  - destruct (proj1 Hpc eq_refl) as [v ->].
    assert (h = Some i) as -> by (apply Htx; eauto).
    injection Hstep as <- <-. cbn [Sql.commit Sql.view txn file].
    destruct r.
    + destruct Hview as (rows' & Hrows' & -> & Hlt).
      pose proof (lookup_lt_Some _ _ _ Hlook) as Hlen.
      split_and!; cbn [gfile threads].
      * apply with_new_row_initialized. rewrite Htbl. eauto.
      * done.
      * rewrite (with_new_row_count f rows' c grp Hrows').
        unfold Str.eqb. case_bool_decide as Heq; [|lia].
        subst grp. rewrite <- (group_limit_ext cfg f0 f) by done. lia.
      * rewrite (with_new_row_count f rows' c grp Hrows').
        rewrite (wins_insert _ i _ _ Hlook). unfold won.
        cbn [pc call]. destruct (Str.eqb (call_age_group c) grp); lia.
      * intros j tj Hj. destruct (decide (j = i)) as [->|Hne].
        -- rewrite list_lookup_insert_eq in Hj by done. by injection Hj as <-.
        -- rewrite list_lookup_insert_ne in Hj by congruence.
           destruct (proj2 Hlock j tj Hj) as [Htxj _].
           unfold thread_view_ok.
           destruct (conn_txn tj) as [vj|] eqn:Hvj.
           { assert (Some i = Some j) as [= ->] by (apply Htxj; eauto).
             done. }
           by destruct (pc tj) as [| | | |[]|].
    + subst v.
      by apply (cap_inv_update (mkGlobal f ts) i _ _ Hcap Hlook).
  - done.
Qed.

Lemma run_cap_inv sched : forall h g,
  lock_inv h g -> cap_inv cfg f0 grp g ->
  cap_inv cfg f0 grp (snd (run cfg sched g)).
Proof.
  induction sched as [|i sched IH]; intros h g Hlock Hcap; [done|].
  cbn [run]. destruct (step cfg i g) as [[e g']|] eqn:Hstep.
  - destruct (step_lock_inv cfg h g i e g' Hlock Hstep) as (h' & _ & Hlock').
    pose proof (step_cap_inv h g i e g' Hlock Hcap Hstep) as Hcap'.
    specialize (IH h' g' Hlock' Hcap').
    by destruct (run cfg sched g') as [tr g''].
  - by eapply IH.
Qed.

Lemma init_cap_inv cs :
  initialized f0 ->
  group_count f0 grp <= group_limit cfg f0 grp ->
  cap_inv cfg f0 grp (init f0 cs).
Proof.
  intros Hi Hc. split_and!; try done.
  - unfold init. cbn [gfile threads].
    assert (wins grp (map (fun c => mkThread c at_begin None) cs) = 0) as ->;
      [|lia].
    induction cs as [|c cs' IH]; [done|]. cbn [map wins fold_right].
    fold (wins grp (map (fun c => mkThread c at_begin None) cs')).
    rewrite IH. reflexivity.
  - intros i t Hl. unfold init in Hl. cbn [threads] in Hl.
    apply list_lookup_fmap_Some in Hl as (c & -> & _). done.
Qed.

(** Under every schedule of any number of concurrent [try_enroll]
    calls, for any groups, a group that starts within its limit on an
    initialised file is within its limit in the file at the end, and
    has gained one row per call for it that returned [True]; every
    state the interleaving can reach is the end of some schedule. *)
Theorem concurrent_capacity cs sched :
  initialized f0 ->
  group_count f0 grp <= group_limit cfg f0 grp ->
  group_count (gfile (snd (run cfg sched (init f0 cs)))) grp <=
    group_limit cfg f0 grp /\
  group_count (gfile (snd (run cfg sched (init f0 cs)))) grp =
    group_count f0 grp +
    wins grp (threads (snd (run cfg sched (init f0 cs)))).
Proof.
  intros Hi Hc.
  by destruct (run_cap_inv sched None (init f0 cs) (init_lock_inv f0 cs)
              (init_cap_inv cs Hi Hc)) as (_ & _ & H1 & H2 & _).
Qed.
End concurrent_capacity.

(** ** Further properties of the store *)

Section admission_sequences.
Context (cfg : Config).

(** What [get_remaining] says about the next [try_enroll]. *)
Lemma remaining_then_enroll now child_full age_group phone user_id
    username d n :
  get_remaining cfg age_group d = (d, inr n) ->
  0 <= n /\
  (n = 0 ->
   try_enroll cfg now child_full age_group phone user_id username d =
   (d, inr false)) /\
  (0 < n ->
   exists d',
     try_enroll cfg now child_full age_group phone user_id username d =
     (d', inr true) /\
     get_remaining cfg age_group d' = (d', inr (n - 1)) /\
     forall g m, g <> age_group ->
       get_remaining cfg g d = (d, inr m) ->
       get_remaining cfg g d' = (d', inr m)).
Proof.
  intros Hrem. apply get_remaining_initialized in Hrem as [Hi ->].
  pose proof Hi as (Hw & [rows Hr] & Hg).
  change (try_enroll cfg now child_full age_group phone user_id username)
    with (run_call cfg
            (mkCall now child_full age_group phone user_id username)).
  set (c := mkCall now child_full age_group phone user_id username).
  unfold remaining. split_and!; [lia| |].
  - intros Hz. apply try_enroll_full; [done|]. cbn [call_age_group c]. lia.
  - intros Hpos. exists (with_new_row d rows c).
    assert (initialized (with_new_row d rows c)) as Hi'
      by (by apply with_new_row_initialized).
    split_and!.
    + apply try_enroll_accepts; [done|done|]. cbn [call_age_group c]. lia.
    + rewrite get_remaining_ok by done. do 2 f_equal.
      rewrite (with_new_row_count d rows c age_group Hr).
      rewrite (with_new_row_limit cfg d rows c age_group).
      cbn [call_age_group c]. unfold Str.eqb.
      rewrite bool_decide_eq_true_2 by done. lia.
    + intros g m Hne Hm. apply get_remaining_initialized in Hm as [_ ->].
      rewrite get_remaining_ok by done. do 2 f_equal. unfold remaining.
      rewrite (with_new_row_count d rows c g Hr).
      rewrite (with_new_row_limit cfg d rows c g).
      cbn [call_age_group c]. unfold Str.eqb.
      rewrite bool_decide_eq_false_2 by congruence. lia.
Qed.

(** X1. [get_remaining] tells what [try_enroll] will do: the seats
    left are never negative; with none left the call returns [False]
    and changes nothing; with some left it returns [True], after which
    the group has one seat less and every other group as many as
    before. *)
Theorem remaining_decides_enroll now child_full age_group phone user_id
    username d n :
  get_remaining cfg age_group d = (d, inr n) ->
  0 <= n /\
  (n = 0 ->
   try_enroll cfg now child_full age_group phone user_id username d =
   (d, inr false)) /\
  (0 < n ->
   exists d',
     try_enroll cfg now child_full age_group phone user_id username d =
     (d', inr true) /\
     get_remaining cfg age_group d' = (d', inr (n - 1)) /\
     forall g m, g <> age_group ->
       get_remaining cfg g d = (d, inr m) ->
       get_remaining cfg g d' = (d', inr m)).
Proof. apply remaining_then_enroll. Qed.

(** X2. [try_enroll] fails closed, on every store and for every
    argument: in no case are the limits or the index touched; when one
    of the two tables is missing it raises; unless it returns [True]
    the rows and the id counter are as before; when it returns [True]
    exactly one row has been appended, for the requested group, with
    the given name and phone. *)
Theorem try_enroll_fails_closed now child_full age_group phone user_id
    username d :
  let d' := fst (try_enroll cfg now child_full age_group phone user_id
                   username d) in
  let r := snd (try_enroll cfg now child_full age_group phone user_id
                  username d) in
  group_limits d' = group_limits d /\
  idx_enrollments_age d' = idx_enrollments_age d /\
  (enrollments d = None \/ group_limits d = None -> exists e, r = inl e) /\
  (r <> inr true ->
   enrollments d' = enrollments d /\
   sqlite_sequence d' = sqlite_sequence d) /\
  (r = inr true ->
   exists rows row,
     enrollments d = Some rows /\
     enrollments d' = Some (rows ++ [row]) /\
     Row.age_group row = age_group /\
     Row.child_full row = child_full /\
     Row.phone row = phone).
Proof.
  change (try_enroll cfg now child_full age_group phone user_id username)
    with (run_call cfg
            (mkCall now child_full age_group phone user_id username)).
  cbv zeta. rewrite try_enroll_eq.
  destruct (enrollments d) as [rows|] eqn:Hr;
    [destruct (group_limits d) as [tbl|] eqn:Hg|].
  - destruct (_ >=? _); cbn [fst snd]; split_and!; try done;
      try (by intros [|]); try (by eauto); try (by rewrite Hg).
    intros _. by eexists _, _.
  - cbn [fst snd]. split_and!; try done; try (by eauto).
  - cbn [fst snd]. split_and!; try done; try (by eauto).
Qed.

Lemma StronglySorted_snoc (l : list Z) x :
  StronglySorted Z.lt l ->
  Forall (fun y => y < x) l ->
  StronglySorted Z.lt (l ++ [x]).
Proof.
  induction 1 as [|y l Hs IH Hy]; intros Hall; cbn [app].
  - repeat constructor.
  - inversion_clear Hall as [|? ? Hyx Hl]. constructor; [by apply IH|].
    apply Forall_app. split; [done|]. by constructor.
Qed.

Lemma max_id_nonneg rows : 0 <= Sql.max_id rows.
Proof.
  induction rows as [|r rows IH]; [done|].
  cbn [Sql.max_id fold_right]. unfold Sql.max_id in IH. lia.
Qed.

Lemma ids_ok_run_call c d :
  ids_ok d ->
  ids_ok (fst (run_call cfg c d)) /\
  sqlite_sequence d <= sqlite_sequence (fst (run_call cfg c d)) /\
  (forall rows, enrollments d = Some rows ->
     exists more, enrollments (fst (run_call cfg c d)) = Some (rows ++ more)).
Proof.
  intros Hok. rewrite try_enroll_eq.
  assert (ids_ok (Sql.pragma_wal d) /\
          sqlite_sequence d <= sqlite_sequence (Sql.pragma_wal d) /\
          (forall rows, enrollments d = Some rows ->
             exists more,
               enrollments (Sql.pragma_wal d) = Some (rows ++ more))) as Hsame.
  { split_and!; [done|done|]. intros rows Hr. exists []. cbn.
    by rewrite app_nil_r. }
  destruct (enrollments d) as [rows|] eqn:Hr; [|done].
  destruct (group_limits d) as [tbl|]; [|done].
  destruct (_ >=? _); [done|]. cbn [fst].
  destruct (Hok rows Hr) as [Hsorted Hbound].
  pose proof (max_id_nonneg rows) as Hmax.
  split_and!.
  - intros rows' [= <-]. cbn [with_new_row sqlite_sequence].
    split.
    + rewrite map_app. apply StronglySorted_snoc; [done|].
      apply Forall_map. eapply Forall_impl; [exact Hbound|].
      intros r Hrb. cbn in *. lia.
    + apply Forall_app. split.
      * eapply Forall_impl; [exact Hbound|]. intros r Hrb. cbn in *. lia.
      * repeat constructor; cbn; lia.
  - cbn. lia.
  - intros rows' [= <-]. by eexists.
Qed.

(** X3. Ids are handed out in increasing order and never reused: on a
    store whose ids grow strictly from row to row and stay within the
    AUTOINCREMENT counter, after any sequence of [try_enroll] calls,
    for any groups, that still holds, the counter has not gone down,
    and the rows that were there are still there, in place, in front
    of the new ones. *)
Theorem ids_stay_increasing cs d :
  ids_ok d ->
  ids_ok (fst (run_calls cfg cs d)) /\
  sqlite_sequence d <= sqlite_sequence (fst (run_calls cfg cs d)) /\
  (forall rows, enrollments d = Some rows ->
     exists more, enrollments (fst (run_calls cfg cs d)) = Some (rows ++ more)).
Proof.
  revert d. induction cs as [|c cs IH]; intros d Hok.
  - split_and!; [done|done|]. intros rows Hr. exists []. cbn.
    by rewrite app_nil_r.
  - rewrite run_calls_cons.
    destruct (ids_ok_run_call c d Hok) as (Hok1 & Hseq1 & Hpre1).
    destruct (run_call cfg c d) as [d1 [e|b]]; cbn [fst] in *; [done|].
    destruct (IH d1 Hok1) as (Hok2 & Hseq2 & Hpre2).
    destruct (run_calls cfg cs d1) as [d2 [e|rs]]; cbn [fst] in *.
    + split_and!; [done|lia|]. intros rows Hr.
      destruct (Hpre1 rows Hr) as [m1 Hm1].
      destruct (Hpre2 _ Hm1) as [m2 Hm2]. exists (m1 ++ m2).
      by rewrite app_assoc.
    + split_and!; [done|lia|]. intros rows Hr.
      destruct (Hpre1 rows Hr) as [m1 Hm1].
      destruct (Hpre2 _ Hm1) as [m2 Hm2]. exists (m1 ++ m2).
      by rewrite app_assoc.
Qed.

(** X4. First come, first served: when [get_remaining] gives [n] seats
    for a group, of any sequence of [try_enroll] calls for that group
    the first [n] return [True] and all later ones return [False]. *)
Theorem first_come_first_served g cs : forall d n,
  get_remaining cfg g d = (d, inr n) ->
  Forall (fun c => call_age_group c = g) cs ->
  snd (run_calls cfg cs d) =
  inr (replicate (Nat.min (length cs) (Z.to_nat n)) true ++
       replicate (length cs - Nat.min (length cs) (Z.to_nat n)) false).
Proof.
  induction cs as [|c cs IH]; intros d n Hrem Hall; [done|].
  inversion_clear Hall as [|? ? Hc Hcs]. rewrite run_calls_cons.
  destruct c as [now ch ag ph uid un]. cbn [call_age_group] in Hc. subst ag.
  unfold run_call at 1. cbn [call_now call_child_full call_age_group
    call_phone call_user_id call_username].
  destruct (remaining_then_enroll now ch g ph uid un d n Hrem)
    as (Hn & Hzero & Hpos).
  destruct (decide (n = 0)) as [->|Hne].
  - rewrite (Hzero eq_refl). specialize (IH d 0 Hrem Hcs).
    destruct (run_calls cfg cs d) as [d2 [e|rs]]; cbn [snd] in *; [done|].
    injection IH as ->. cbn [length Z.to_nat].
    rewrite !Nat.min_0_r, !Nat.sub_0_r. done.
  - destruct (Hpos ltac:(lia)) as (d' & Hrun & Hrem' & _). rewrite Hrun.
    specialize (IH d' (n - 1) Hrem' Hcs).
    destruct (run_calls cfg cs d') as [d2 [e|rs]]; cbn [snd] in *; [done|].
    injection IH as ->. cbn [length]. f_equal.
    replace (Z.to_nat n) with (Datatypes.S (Z.to_nat (n - 1))) by lia.
    rewrite <- Nat.succ_min_distr. done.
Qed.

(** The shape of the file after any sequence of calls on an
    initialised file: only the rows and the id counter can differ. *)
Lemma run_calls_shape cs : forall d,
  initialized d ->
  exists rows' seq',
    fst (run_calls cfg cs d) =
    mkDatabase true (Some rows') seq' (group_limits d)
      (idx_enrollments_age d).
Proof.
  induction cs as [|c cs IH]; intros d Hi.
  - destruct d as [w e s g i]. destruct Hi as (Hw & [rows Hr] & _).
    cbn in *. subst. by eexists _, _.
  - rewrite run_calls_cons. rewrite try_enroll_eq.
    pose proof Hi as (Hw & [rows Hr] & [tbl Hg]). rewrite Hr, Hg.
    destruct (_ >=? _).
    + rewrite pragma_wal_id by done.
      destruct (IH d Hi) as (rows' & seq' & Heq). rewrite Hg in Heq.
      destruct (run_calls cfg cs d) as [d2 [e|rs]]; simpl in *; eauto.
    + destruct (IH (with_new_row d rows c)) as (rows' & seq' & Heq).
      { apply with_new_row_initialized. rewrite Hg. eauto. }
      cbn [with_new_row group_limits idx_enrollments_age] in Heq.
      rewrite Hg in Heq.
      destruct (run_calls cfg cs (with_new_row d rows c)) as [d2 [e|rs]];
        simpl in *; eauto.
Qed.

(** X5. A restart is harmless: on the store a first [init_db] ended
    in, after any sequence of [try_enroll] calls, another [init_db]
    leaves the store exactly as it is and has the outcome of the first
    one; so on a store that [init_db] has set up (the first call
    returned) it returns without error. *)
Theorem init_db_after_calls d0 cs :
  let d := fst (run_calls cfg cs (fst (init_db cfg d0))) in
  init_db cfg d = (d, snd (init_db cfg d0)) /\
  (snd (init_db cfg d0) = inr tt -> init_db cfg d = (d, inr tt)).
Proof.
  cbn zeta.
  enough (init_db cfg (fst (run_calls cfg cs (fst (init_db cfg d0)))) =
          (fst (run_calls cfg cs (fst (init_db cfg d0))),
           snd (init_db cfg d0))) as H.
  { split; [done|]. intros Hok. by rewrite H, Hok. }
  rewrite (init_db_eq cfg d0).
  destruct (seeding_overflows cfg d0) eqn:Ho; cbn [fst snd].
  - destruct (run_calls_shape cs (schema_created d0)
                (schema_created_ok d0)) as (rows' & seq' & ->).
    rewrite init_db_eq.
    assert (seeding_overflows cfg
              (mkDatabase true (Some rows') seq'
                 (group_limits (schema_created d0))
                 (idx_enrollments_age (schema_created d0))) = true) as ->
      by exact Ho.
    reflexivity.
  - destruct (run_calls_shape cs (initialized_from cfg d0)
                (initialized_from_ok cfg d0)) as (rows' & seq' & ->).
    rewrite init_db_eq.
    assert (seeding_overflows cfg
              (mkDatabase true (Some rows') seq'
                 (group_limits (initialized_from cfg d0))
                 (idx_enrollments_age (initialized_from cfg d0))) = false)
      as ->.
    { unfold seeding_overflows, initialized_from.
      cbn [group_limits].
      change (default ∅ (Some ?t)) with t.
      by rewrite seeded_needs_none, andb_false_r. }
    f_equal. unfold initialized_from.
    cbn -[seed_limits AGE_GROUPS]. by rewrite seed_limits_idem.
Qed.

End admission_sequences.

(** ** Further properties of the dialogue *)

Section handler_equations.
Context (cfg : Config).

Lemma remaining_nonneg d ag : 0 <= remaining cfg d ag.
Proof. unfold remaining. lia. Qed.

Lemma seats_groups d :
  map fst (seats cfg d) =
  List.filter (fun ag => 0 <? remaining cfg d ag) AGE_GROUPS.
Proof.
  unfold seats, with_seats. generalize AGE_GROUPS as groups.
  induction groups as [|ag groups IH]; [done|].
  cbn [map List.filter snd]. destruct (0 <? remaining cfg d ag); cbn [map fst].
  - by rewrite IH.
  - done.
Qed.

Lemma seats_spec d ag n :
  In (ag, n) (seats cfg d) <->
  In ag AGE_GROUPS /\ n = remaining cfg d ag /\ 0 < n.
Proof.
  unfold seats, with_seats. rewrite filter_In, in_map_iff. cbn [snd].
  rewrite Z.ltb_lt. split.
  - intros [(x & [= <- <-] & Hin) Hpos]. done.
  - intros (Hin & -> & Hpos). split; [|done]. by exists ag.
Qed.

(** Some group has a seat exactly when not every count is zero. *)
Lemma seats_nonempty d :
  all_zero (map (fun ag => (ag, remaining cfg d ag)) AGE_GROUPS) = false <->
  seats cfg d <> [].
Proof.
  unfold seats, with_seats, all_zero. generalize AGE_GROUPS as groups.
  induction groups as [|ag groups IH]; [done|].
  cbn [map forallb List.filter snd].
  pose proof (remaining_nonneg d ag) as Hn.
  destruct (Z.eqb_spec (remaining cfg d ag) 0) as [Hz|Hnz].
  - rewrite Hz. cbn [andb Z.ltb Z.compare]. exact IH.
  - cbn [andb]. destruct (Z.ltb_spec 0 (remaining cfg d ag)); [done|lia].
Qed.

Lemma age_kb_dynamic_seats d :
  initialized d ->
  seats cfg d <> [] ->
  age_kb_dynamic cfg d = (d, inr (age_kb (map fst (seats cfg d)))).
Proof.
  intros Hi Hne. rewrite age_kb_dynamic_ok by done.
  rewrite <- seats_groups. destruct (seats cfg d); done.
Qed.

(** [set_name_full] on an initialised store, for a text of two tokens
    or more. *)
Lemma set_name_full_eq m w t first second rest :
  initialized (db w) ->
  text m = Some t ->
  Str.split t = first :: second :: rest ->
  set_name_full cfg m w =
  let w2 := moved w (Some Enroll.age_group)
              (<["child_full" :=
                   Str.join Lit.space (first :: second :: rest)]>
                 (fsm_data w)) in
  match seats cfg (db w) with
  | [] => (replied w2 NoSeatsAfterName main_menu_kb, inr tt)
  | _ =>
      (replied w2 (ChooseAgeSchedule (map fst (seats cfg (db w))))
         (age_kb (map fst (seats cfg (db w)))), inr tt)
  end.
Proof.
  intros Hi Ht Hs.
  unfold set_name_full, text_str. rewrite Ht.
  erewrite bind_ok; [|reflexivity]. rewrite name_parts, Hs.
  replace (Str.len (first :: second :: rest) <? 2) with false
    by (symmetry; apply Z.ltb_ge; unfold Str.len; cbn [length]; lia).
  cbn [hd tl].
  erewrite bind_ok; [|reflexivity].
  erewrite bind_ok; [|reflexivity].
  erewrite bind_ok;
    [|unfold lift_db; cbn [db]; rewrite remaining_by_group_ok by done;
      reflexivity].
  pose proof (seats_nonempty (db w)) as Hne.
  destruct (all_zero _) eqn:Hz.
  - destruct (seats cfg (db w)) as [|s ss] eqn:Hseats; [reflexivity|].
    assert (true = false) by (by apply Hne). done.
  - pose proof (proj1 Hne eq_refl) as Hne'.
    erewrite bind_ok;
      [|unfold lift_db; cbn [db]; rewrite age_kb_dynamic_seats by done;
        reflexivity].
    fold (seats cfg (db w)).
    destruct (seats cfg (db w)) as [|s ss] eqn:Hseats; [done|].
    reflexivity.
Qed.

(** [set_age] when the name has been collected. *)
Lemma set_age_eq m w label child :
  text m = Some label ->
  fsm_data w !! "child_full" = Some child ->
  set_age m w =
  (replied
     (moved w (Some Enroll.confirm) (<["age_group" := label]> (fsm_data w)))
     (CheckData child label
        (default Lit.not_given (fsm_data w !! "phone"))) confirm_kb,
   inr tt).
Proof.
  intros Ht Hc. unfold set_age, text_str, get_data, getitem. rewrite Ht.
  erewrite bind_ok; [|reflexivity].
  erewrite bind_ok; [|reflexivity].
  erewrite bind_ok; [|reflexivity].
  erewrite bind_ok; [|reflexivity].
  cbn [fsm_data]. rewrite lookup_insert_ne by done. rewrite Hc.
  erewrite bind_ok; [|reflexivity].
  rewrite lookup_insert_eq.
  erewrite bind_ok; [|reflexivity].
  rewrite lookup_insert_ne by done. reflexivity.
Qed.

End handler_equations.

Section confirm_equation.
Context (cfg : Config) (env : Env).

(** [confirm] on an initialised store, the name and the group being
    in the session. *)
Lemma confirm_eq m w rows child ag :
  initialized (db w) ->
  enrollments (db w) = Some rows ->
  fsm_data w !! "child_full" = Some child ->
  fsm_data w !! "age_group" = Some ag ->
  confirm cfg env m w =
  if 0 <? remaining cfg (db w) ag
  then (confirmed cfg env m w rows child ag, inr tt)
  else
    match seats cfg (db w) with
    | [] => (replied w NoSeatsAfterConfirm main_menu_kb, inr tt)
    | _ => (sent_back cfg w, inr tt)
    end.
Proof.
  intros Hi Hr Hc Ha. pose proof Hi as (_ & _ & Hg).
  unfold confirm, get_data, getitem.
  erewrite bind_ok; [|reflexivity]. rewrite Hc.
  erewrite bind_ok; [|reflexivity]. rewrite Ha.
  erewrite bind_ok; [|reflexivity].
  change (try_enroll cfg (utcnow_enroll env) child ag (fsm_data w !! "phone")
            (user_id (from_user m)) (username (from_user m)))
    with (run_call cfg (confirm_call env m (fsm_data w) child ag)).
  destruct (Z.ltb_spec 0 (remaining cfg (db w) ag)) as [Hpos|Hzero].
  - erewrite bind_ok;
      [|unfold lift_db;
        rewrite (try_enroll_accepts cfg _ (db w) rows Hr Hg)
          by (cbn [confirm_call call_age_group]; unfold remaining in Hpos; lia);
        reflexivity].
    cbn [negb]. unfold confirmed, admin_of.
    destruct (ADMIN_ID cfg) as [a|]; [destruct (a =? 0)|];
      [ | destruct (send_message_raises env) as [e|] | ];
      cbn; by rewrite ?app_nil_r.
  - erewrite bind_ok;
      [|unfold lift_db;
        rewrite (try_enroll_full cfg _ (db w) Hi)
          by (cbn [confirm_call call_age_group]; unfold remaining in Hzero;
              lia);
        reflexivity].
    cbn [negb].
    erewrite bind_ok;
      [|unfold lift_db; cbn [db]; rewrite remaining_by_group_ok by done;
        reflexivity].
    pose proof (seats_nonempty cfg (db w)) as Hne.
    destruct (all_zero _) eqn:Hz.
    + destruct (seats cfg (db w)) as [|s ss] eqn:Hseats; [by destruct w|].
      assert (true = false) by (by apply Hne). done.
    + pose proof (proj1 Hne eq_refl) as Hne'.
      erewrite bind_ok;
        [|unfold lift_db; cbn [db]; rewrite age_kb_dynamic_seats by done;
          reflexivity].
      fold (seats cfg (db w)). unfold sent_back.
      destruct (seats cfg (db w)) as [|s ss] eqn:Hseats; [done|].
      reflexivity.
Qed.

End confirm_equation.

Section bot_invariant.
Context (cfg : Config) (env : Env).

Lemma bot_inv_same w w' :
  bot_inv w ->
  db w' = db w -> fsm_state w' = fsm_state w -> fsm_data w' = fsm_data w ->
  bot_inv w'.
Proof.
  intros (Hi & Hwf & Hrows) Hd Hs Hdat. unfold bot_inv, session_wf in *.
  by rewrite Hd, Hs, Hdat.
Qed.

Lemma bot_inv_restart w w' :
  bot_inv w ->
  db w' = db w ->
  fsm_state w' = None \/ fsm_state w' = Some Enroll.phone ->
  bot_inv w'.
Proof.
  intros (Hi & Hwf & Hrows) Hd Hs. unfold bot_inv, session_wf in *.
  rewrite Hd. split_and!; [done| |done]. by destruct Hs as [-> | ->].
Qed.

Lemma ok_cmd_start w : bot_inv w -> reads_only w (cmd_start w).
Proof. intros H. split_and!; [|done|done]. apply (bot_inv_restart w); auto. Qed.

Lemma ok_start_enroll w : bot_inv w -> reads_only w (start_enroll w).
Proof. intros H. split_and!; [|done|done]. apply (bot_inv_restart w); auto. Qed.

Lemma ok_edit w : bot_inv w -> reads_only w (edit w).
Proof. intros H. split_and!; [|done|done]. apply (bot_inv_restart w); auto. Qed.

Lemma ok_fallback w : bot_inv w -> reads_only w (fallback w).
Proof. intros H. split_and!; [|done|done]. by apply (bot_inv_same w). Qed.

Lemma ok_invalid_phone w : bot_inv w -> reads_only w (invalid_phone w).
Proof. intros H. split_and!; [|done|done]. by apply (bot_inv_same w). Qed.

Lemma ok_ask_question w : bot_inv w -> reads_only w (ask_question cfg w).
Proof.
  intros H. unfold ask_question.
  destruct (build_chat_url cfg); (split_and!; [|done|done]);
    apply (bot_inv_restart w); auto.
Qed.

Lemma ok_contacts w : bot_inv w -> reads_only w (contacts cfg env w).
Proof.
  intros H. unfold contacts.
  destruct (answer_contact_raises env), (build_chat_url cfg);
    (split_and!; [|done|done]); apply (bot_inv_restart w); auto.
Qed.

Lemma bot_inv_phone_set w p kb t :
  bot_inv w ->
  bot_inv (replied (moved w (Some Enroll.name_full)
                      (<["phone" := p]> (fsm_data w))) t kb).
Proof.
  intros (Hi & _ & Hrows). split_and!; [done| |done].
  unfold session_wf. cbn. rewrite lookup_insert_eq. eauto.
Qed.

Lemma ok_contact w m c :
  bot_inv w -> reads_only w (set_phone_from_contact m c w).
Proof.
  intros H. unfold set_phone_from_contact.
  destruct (match contact_user_id c with
            | Some u => u =? user_id (from_user m)
            | None => true
            end).
  - split_and!; [|done|done]. by apply bot_inv_phone_set.
  - split_and!; [|done|done]. by apply (bot_inv_same w).
Qed.

Lemma ok_manual w m t :
  bot_inv w -> text m = Some t -> reads_only w (set_phone_manual m w).
Proof.
  intros H Ht. rewrite (set_phone_manual_eq m w t Ht).
  destruct (_ <? 10); (split_and!; [|done|done]).
  - by apply (bot_inv_same w).
  - by apply bot_inv_phone_set.
Qed.

Lemma ok_name w m t :
  bot_inv w ->
  fsm_state w = Some Enroll.name_full ->
  text m = Some t ->
  reads_only w (set_name_full cfg m w).
Proof.
  intros H Hst Ht. pose proof H as (Hi & Hwf & Hrows).
  unfold session_wf in Hwf. rewrite Hst in Hwf.
  pose proof (Str_split_tokens t) as Htok.
  destruct (Str.split t) as [|first [|second rest]] eqn:Hs.
  - rewrite (set_name_full_reject cfg m w t Ht) by (rewrite Hs; cbn; lia).
    split_and!; [|done|done]. by apply (bot_inv_same w).
  - rewrite (set_name_full_reject cfg m w t Ht) by (rewrite Hs; cbn; lia).
    split_and!; [|done|done]. by apply (bot_inv_same w).
  - rewrite (set_name_full_eq cfg m w t first second rest Hi Ht Hs).
    cbv zeta.
    assert (bot_inv (moved w (Some Enroll.age_group)
                       (<["child_full" :=
                            Str.join Lit.space (first :: second :: rest)]>
                          (fsm_data w)))) as Hinv.
    { split_and!; [done| |done]. unfold session_wf. cbn [fsm_state moved
        fsm_data]. split.
      - by rewrite lookup_insert_ne.
      - eexists. rewrite lookup_insert_eq. split; [done|].
        exists (first :: second :: rest). split_and!; [cbn; lia|done|done]. }
    destruct (seats cfg (db w)); (split_and!; [|done|done]);
      by eapply bot_inv_same; [exact Hinv|..].
Qed.

Lemma ok_age w m t :
  bot_inv w ->
  fsm_state w = Some Enroll.age_group ->
  text m = Some t ->
  In t AGE_GROUPS ->
  reads_only w (set_age m w).
Proof.
  intros H Hst Ht Hin. pose proof H as (Hi & Hwf & Hrows).
  unfold session_wf in Hwf. rewrite Hst in Hwf.
  destruct Hwf as (Hphone & n & Hn & Hok).
  rewrite (set_age_eq m w t n Ht Hn). split_and!; [|done|done].
  split_and!; [done| |done]. unfold session_wf. cbn. split_and!.
  - by rewrite lookup_insert_ne.
  - exists n. by rewrite lookup_insert_ne.
  - exists t. by rewrite lookup_insert_eq.
Qed.

Lemma rows_ok_new_row d rows c :
  rows_ok d ->
  enrollments d = Some rows ->
  name_ok (call_child_full c) ->
  In (call_age_group c) AGE_GROUPS ->
  is_Some (call_phone c) ->
  rows_ok (with_new_row d rows c).
Proof.
  intros Hrows Hr Hn Hg Hp rows' r [= <-] Hin.
  apply in_app_iff in Hin as [Hin|[<-|[]]].
  - by apply (Hrows rows).
  - split_and!; cbn; eauto.
Qed.

(** [confirm] either leaves the store alone or ends in the world
    [confirmed]. *)
Lemma ok_confirm w m :
  bot_inv w ->
  fsm_state w = Some Enroll.confirm ->
  bot_inv (fst (confirm cfg env m w)) /\
  snd (confirm cfg env m w) = inr tt /\
  (db (fst (confirm cfg env m w)) = db w \/
   exists rows child ag,
     enrollments (db w) = Some rows /\
     fsm_data w !! "child_full" = Some child /\
     fsm_data w !! "age_group" = Some ag /\
     0 < remaining cfg (db w) ag /\
     fst (confirm cfg env m w) = confirmed cfg env m w rows child ag).
Proof.
  intros H Hst. pose proof H as (Hi & Hwf & Hrows).
  unfold session_wf in Hwf. rewrite Hst in Hwf.
  destruct Hwf as (Hphone & (n & Hn & Hok) & (g & Hg & Hin)).
  pose proof Hi as (_ & [rows Hr] & Hlim).
  rewrite (confirm_eq cfg env m w rows n g Hi Hr Hn Hg).
  destruct (Z.ltb_spec 0 (remaining cfg (db w) g)).
  - split_and!; [|done|].
    + split_and!.
      * by apply with_new_row_initialized.
      * done.
      * by apply rows_ok_new_row.
    + right. by exists rows, n, g.
  - destruct (seats cfg (db w)); (split_and!; [|done|by left]).
    + by apply (bot_inv_same w).
    + split_and!; [done| |done]. unfold session_wf. cbn. eauto.
Qed.

(** One update on a running bot: the invariant is kept; the outcome is
    the expected one; when the handler raises, nothing has changed; and
    the store changes only when [confirm] gets a seat. *)
Lemma dispatch_bot_inv w m :
  bot_inv w ->
  bot_inv (fst (dispatch cfg env m w)) /\
  snd (dispatch cfg env m w) = expected_outcome w m /\
  (forall e, snd (dispatch cfg env m w) = inl e ->
     fst (dispatch cfg env m w) = w) /\
  (db (fst (dispatch cfg env m w)) = db w \/
   fsm_state w = Some Enroll.confirm /\
   text m = Some Lit.confirm_btn /\
   exists rows child ag,
     enrollments (db w) = Some rows /\
     fsm_data w !! "child_full" = Some child /\
     fsm_data w !! "age_group" = Some ag /\
     0 < remaining cfg (db w) ag /\
     fst (dispatch cfg env m w) = confirmed cfg env m w rows child ag).
Proof.
  intros H.
  enough (bot_inv (fst (dispatch cfg env m w)) /\
          snd (dispatch cfg env m w) = expected_outcome w m /\
          (expected_outcome w m = inr tt \/ fst (dispatch cfg env m w) = w) /\
          (db (fst (dispatch cfg env m w)) = db w \/
           fsm_state w = Some Enroll.confirm /\
           text m = Some Lit.confirm_btn /\
           exists rows child ag,
             enrollments (db w) = Some rows /\
             fsm_data w !! "child_full" = Some child /\
             fsm_data w !! "age_group" = Some ag /\
             0 < remaining cfg (db w) ag /\
             fst (dispatch cfg env m w) =
               confirmed cfg env m w rows child ag))
    as (H1 & H2 & H3 & H4).
  { split_and!; [done|done| |done]. intros e He.
    destruct H3 as [H3|H3]; [|done]. congruence. }
  assert (forall r, reads_only w r ->
            bot_inv (fst r) /\ snd r = inr tt /\
            (inr tt = inr tt :> Exn + unit \/ fst r = w) /\
            (db (fst r) = db w \/
             fsm_state w = Some Enroll.confirm /\
             text m = Some Lit.confirm_btn /\
             exists rows child ag,
               enrollments (db w) = Some rows /\
               fsm_data w !! "child_full" = Some child /\
               fsm_data w !! "age_group" = Some ag /\
               0 < remaining cfg (db w) ag /\
               fst r = confirmed cfg env m w rows child ag)) as Hro.
  { intros r (? & ? & ?). auto. }
  unfold dispatch, expected_outcome, text_in, text_is, text_regexp, has_text.
  destruct (text m) as [t|] eqn:Ht.
  - rewrite andb_false_r.
    destruct (Str.mem t [Lit.slash_start; Lit.start; Lit.menu]).
    { apply Hro. by apply ok_cmd_start. }
    destruct (Str.eqb t Lit.enroll_trial).
    { apply Hro. by apply ok_start_enroll. }
    destruct (fsm_state w) as [[| | |]|] eqn:Hst;
      unfold in_state; rewrite Hst; cbn [Enroll.eqb andb].
    + apply Hro. by apply (ok_name w m t).
    + destruct (Str.mem t AGE_GROUPS) eqn:Hin.
      * apply mem_In in Hin. apply Hro. by apply (ok_age w m t).
      * destruct (Str.eqb t Lit.ask_btn);
          [apply Hro; by apply ok_ask_question|].
        destruct (Str.eqb t Lit.contacts_btn);
          [apply Hro; by apply ok_contacts|].
        apply Hro. by apply ok_fallback.
    + destruct (contact m) as [c|].
      { apply Hro. by apply ok_contact. }
      destruct (Re.phone_regexp t).
      * apply Hro. by apply (ok_manual w m t).
      * apply Hro. by apply ok_invalid_phone.
    + destruct (Str.eqb t Lit.confirm_btn) eqn:Hbtn.
      { apply bool_decide_eq_true in Hbtn. subst t.
        destruct (ok_confirm w m H Hst) as (Hc1 & Hc2 & Hc3).
        split_and!; [done|done|by left|].
        destruct Hc3 as [?|?]; [by left|by right]. }
      destruct (Str.eqb t Lit.edit_btn).
      { apply Hro. by apply ok_edit. }
      destruct (Str.eqb t Lit.ask_btn);
        [apply Hro; by apply ok_ask_question|].
      destruct (Str.eqb t Lit.contacts_btn);
        [apply Hro; by apply ok_contacts|].
      apply Hro. by apply ok_fallback.
    + destruct (Str.eqb t Lit.ask_btn);
        [apply Hro; by apply ok_ask_question|].
      destruct (Str.eqb t Lit.contacts_btn);
        [apply Hro; by apply ok_contacts|].
      apply Hro. by apply ok_fallback.
  - rewrite andb_true_r.
    destruct (fsm_state w) as [[| | |]|] eqn:Hst;
      unfold in_state; rewrite Hst; cbn [Enroll.eqb andb].
    + unfold set_name_full, text_str. rewrite Ht. cbn. auto.
    + apply Hro. by apply ok_fallback.
    + destruct (contact m) as [c|].
      { apply Hro. by apply ok_contact. }
      apply Hro. by apply ok_invalid_phone.
    + apply Hro. by apply ok_fallback.
    + apply Hro. by apply ok_fallback.
Qed.

End bot_invariant.

Lemma dialogue_bot_inv cfg evs : forall w,
  bot_inv w -> bot_inv (dialogue cfg evs w).
Proof.
  induction evs as [|[e m] evs IH]; intros w H; [done|].
  cbn [dialogue fold_left fst snd]. apply IH.
  by destruct (dispatch_bot_inv cfg e w m H).
Qed.

Section bot_theorems.
Context (cfg : Config).

(** X6. On a running bot (store set up, session holding what its step
    needs) the router raises in one case only: a message without text
    in the name step makes [set_name_full] raise AttributeError on
    [m.text.split()], and nothing has changed then. Every other update
    is handled without an exception; in particular no lookup in the
    session data raises KeyError. The invariant is kept. *)
Theorem handlers_raise_only_without_text env w m :
  bot_inv w ->
  bot_inv (fst (dispatch cfg env m w)) /\
  (fsm_state w = Some Enroll.name_full -> text m = None ->
   dispatch cfg env m w =
   (w, inl (AttributeError "'NoneType' object has no attribute"))) /\
  (fsm_state w <> Some Enroll.name_full \/ is_Some (text m) ->
   snd (dispatch cfg env m w) = inr tt).
Proof.
  intros H. destruct (dispatch_bot_inv cfg env w m H) as (H1 & H2 & H3 & _).
  split_and!; [done| |].
  - intros Hst Ht.
    assert (expected_outcome w m =
            inl (AttributeError "'NoneType' object has no attribute")) as He.
    { unfold expected_outcome, in_state, has_text. by rewrite Hst, Ht. }
    rewrite He in H2. specialize (H3 _ H2).
    destruct (dispatch cfg env m w) as [w' r]. cbn [fst snd] in *.
    by subst.
  - intros Hc. rewrite H2. unfold expected_outcome, in_state, has_text.
    destruct Hc as [Hst|[t Ht]].
    + by destruct (fsm_state w) as [[| | |]|].
    + rewrite Ht. by rewrite andb_false_r.
Qed.

(** X7. Only a granted confirmation writes: on a running bot, if an
    update changes the store at all, the session was in the confirm
    step, the text was the confirm button, the chosen group had a seat,
    and the change is exactly one row appended that carries the name,
    the group and the phone of the session, the sender's id and
    username and the clock reading; the session is cleared after it. *)
Theorem only_confirm_writes env w m :
  bot_inv w ->
  db (fst (dispatch cfg env m w)) <> db w ->
  fsm_state w = Some Enroll.confirm /\
  text m = Some Lit.confirm_btn /\
  exists rows child ag new_id,
    enrollments (db w) = Some rows /\
    fsm_data w !! "child_full" = Some child /\
    fsm_data w !! "age_group" = Some ag /\
    get_remaining cfg ag (db w) = (db w, inr (remaining cfg (db w) ag)) /\
    0 < remaining cfg (db w) ag /\
    enrollments (db (fst (dispatch cfg env m w))) =
      Some (rows ++
            [Row.mk new_id child ag (fsm_data w !! "phone")
               (Some (user_id (from_user m))) (username (from_user m))
               (utcnow_enroll env)]) /\
    group_limits (db (fst (dispatch cfg env m w))) = group_limits (db w) /\
    fsm_state (fst (dispatch cfg env m w)) = None /\
    fsm_data (fst (dispatch cfg env m w)) = ∅.
Proof.
  intros H Hch. pose proof H as (Hi & _).
  destruct (dispatch_bot_inv cfg env w m H) as (_ & _ & _ & [Hsame|Hw]);
    [done|].
  destruct Hw as (Hst & Ht & rows & child & ag & Hr & Hc & Ha & Hpos & ->).
  split_and!; [done|done|]. exists rows, child, ag. eexists.
  split_and!; try done. by apply get_remaining_ok.
Qed.

End bot_theorems.

Section dialogue_theorems.
Context (cfg : Config).

Lemma text_is_false_ne m lit :
  text_is m lit = false -> text m <> Some lit.
Proof.
  unfold text_is. intros H Ht. rewrite Ht in H.
  unfold Str.eqb in H. by rewrite bool_decide_eq_true_2 in H.
Qed.

Lemma dialogue_cons env m evs w :
  dialogue cfg ((env, m) :: evs) w =
  dialogue cfg evs (fst (dispatch cfg env m w)).
Proof. done. Qed.

(** Along a dialogue on a running bot the table only grows at its
    end, by at most one row per press of the confirm button, and the
    limits stay. *)
Lemma dialogue_grows evs : forall w rows,
  bot_inv w ->
  enrollments (db w) = Some rows ->
  exists more,
    enrollments (db (dialogue cfg evs w)) = Some (rows ++ more) /\
    (length more <= confirm_presses evs)%nat /\
    group_limits (db (dialogue cfg evs w)) = group_limits (db w).
Proof.
  induction evs as [|[env m] evs IH]; intros w rows H Hr.
  - exists []. cbn. by rewrite app_nil_r.
  - rewrite dialogue_cons.
    destruct (dispatch_bot_inv cfg env w m H) as (H1 & _ & _ & Hdb).
    unfold confirm_presses. cbn [List.filter snd].
    destruct Hdb as [Hsame|(Hst & Ht & rows' & ch & ag & Hr' & _ & _ & _ & Heq)].
    + rewrite <- Hsame in Hr.
      destruct (IH _ rows H1 Hr) as (more & Hm & Hlen & Hlim).
      exists more. rewrite Hsame in Hlim. split_and!; [done| |done].
      unfold confirm_presses in Hlen.
      destruct (text_is m Lit.confirm_btn); cbn [length]; lia.
    + rewrite Hr in Hr'. injection Hr' as <-.
      assert (text_is m Lit.confirm_btn = true) as ->.
      { unfold text_is. rewrite Ht. by apply bool_decide_eq_true. }
      set (w1 := fst (dispatch cfg env m w)) in *.
      assert (enrollments (db w1) =
              Some (rows ++ [new_row (db w) rows
                               (confirm_call env m (fsm_data w) ch ag)])) as Hr1
        by (by rewrite Heq).
      assert (group_limits (db w1) = group_limits (db w)) as Hl1
        by (by rewrite Heq).
      destruct (IH w1 _ H1 Hr1) as (more & Hm & Hlen & Hlim).
      eexists (_ :: more). rewrite Hm, <- app_assoc.
      split_and!; [done| |congruence].
      unfold confirm_presses in Hlen. cbn [length]. lia.
Qed.

(** X8. Enrollments are append-only and limits are read-only: along
    every dialogue on a running bot, whatever the updates, the rows
    that were in the table stay, in place, followed by the new ones; at
    most one row is added per press of the confirm button; and no limit
    changes. *)
Theorem dialogue_append_only evs w rows :
  bot_inv w ->
  enrollments (db w) = Some rows ->
  exists more,
    enrollments (db (dialogue cfg evs w)) = Some (rows ++ more) /\
    (length more <= confirm_presses evs)%nat /\
    group_limits (db (dialogue cfg evs w)) = group_limits (db w).
Proof. apply dialogue_grows. Qed.

(** X9. Every row a dialogue writes is well formed: along every
    dialogue on a running bot, each row of the table has a child name
    of two tokens or more joined by single spaces, an age group of
    [AGE_GROUPS], a phone (the column is never left empty) and a user
    id; and the session holds what its step needs. *)
Theorem dialogue_rows_well_formed evs w :
  bot_inv w ->
  initialized (db (dialogue cfg evs w)) /\
  session_wf (dialogue cfg evs w) /\
  forall rows r,
    enrollments (db (dialogue cfg evs w)) = Some rows ->
    In r rows ->
    (exists toks,
       (2 <= length toks)%nat /\ Forall Str.is_token toks /\
       Row.child_full r = Str.join [32%N] toks) /\
    In (Row.age_group r) AGE_GROUPS /\
    is_Some (Row.phone r) /\
    is_Some (Row.tg_user_id r).
Proof.
  intros H. destruct (dialogue_bot_inv cfg evs w H) as (Hi & Hwf & Hrows).
  split_and!; [done|done|]. intros rows r Hr Hin. by apply (Hrows rows).
Qed.

End dialogue_theorems.

(** ** Steps of the dialogue through the router *)

Section dialogue_steps.
Context (cfg : Config).

(** A text the phone pattern accepts is none of the commands. *)
Lemma regexp_not_command t :
  Re.phone_regexp t = true -> is_command t = false.
Proof.
  intros Hre. destruct (is_command t) eqn:Hc; [|done].
  unfold is_command, Str.mem, existsb, Str.eqb in Hc.
  repeat (apply orb_true_iff in Hc as [Hc|Hc]);
    try (apply bool_decide_eq_true in Hc; subst t; vm_compute in Hre);
    done.
Qed.

Lemma dispatch_enroll_trial env u w :
  dispatch cfg env (text_message Lit.enroll_trial u) w = start_enroll w.
Proof. reflexivity. Qed.

Lemma dispatch_confirm_btn env u w :
  fsm_state w = Some Enroll.confirm ->
  dispatch cfg env (text_message Lit.confirm_btn u) w =
  confirm cfg env (text_message Lit.confirm_btn u) w.
Proof. intros H. by apply dispatch_confirm. Qed.

(** A text of two tokens or more is a command only when it is the
    text of the enroll button. *)
Lemma two_tokens_command t first second rest :
  Str.split t = first :: second :: rest ->
  t <> Lit.enroll_trial ->
  is_command t = false.
Proof.
  intros Hs Hne. destruct (is_command t) eqn:Hc; [|done].
  unfold is_command, Str.mem, existsb, Str.eqb in Hc.
  repeat (apply orb_true_iff in Hc as [Hc|Hc]);
    try (apply bool_decide_eq_true in Hc; subst t); try done;
    vm_compute in Hs; discriminate Hs.
Qed.

(** X10. The whole dialogue: from any session, on a store where group
    [g] has a seat, the five updates "enroll", a typed phone the
    pattern accepts with ten digits or more, a name of two tokens or
    more that is not the text of the enroll button, the label of [g],
    "confirm" end with exactly one row appended, holding the name with
    single spaces, the group, the phone without the blanks around it
    and the sender; the session is cleared, and the administrator gets
    the note when one is configured and the send does not raise. What
    the session held before is dropped by the first update. (The text
    of the enroll button is the one name of two tokens or more that the
    router takes as a command: it restarts the dialogue.) *)
Theorem enrollment_dialogue e1 e2 e3 e4 e5 u phone name first second rest
    g n rows w :
  get_remaining cfg g (db w) = (db w, inr n) ->
  0 < n ->
  In g AGE_GROUPS ->
  enrollments (db w) = Some rows ->
  Re.phone_regexp phone = true ->
  10 <= Str.len (Str.digits (Str.strip phone)) ->
  Str.split name = first :: second :: rest ->
  name <> Lit.enroll_trial ->
  let w' :=
    dialogue cfg
      [ (e1, text_message Lit.enroll_trial u);
        (e2, text_message phone u);
        (e3, text_message name u);
        (e4, text_message g u);
        (e5, text_message Lit.confirm_btn u) ] w in
  let child := Str.join Lit.space (first :: second :: rest) in
  db w' =
    with_new_row (db w) rows
      (mkCall (utcnow_enroll e5) child g (Some (Str.strip phone))
         (user_id u) (username u)) /\
  fsm_state w' = None /\
  fsm_data w' = ∅ /\
  admin_inbox w' =
    admin_inbox w ++
    match admin_of cfg, send_message_raises e5 with
    | Some _, None =>
        [mkAdminNote child g (Str.strip phone)
           (match username u with Some (c :: un) => c :: un | _ => [45%N] end)
           (user_id u) (utcnow_notify e5)]
    | _, _ => []
    end.
Proof.
  intros Hrem Hpos Hg Hrows Hre Hlen Hsplit Hne.
  pose proof (two_tokens_command _ _ _ _ Hsplit Hne) as Hcmd.
  apply get_remaining_initialized in Hrem as [Hi ->].
  assert (seats cfg (db w) <> []) as Hseats.
  { intros Hnil.
    assert (In (g, remaining cfg (db w) g) (seats cfg (db w))) as Hin
      by (by apply seats_spec).
    by rewrite Hnil in Hin. }
  unfold dialogue. cbn [fold_left fst snd].
  rewrite dispatch_enroll_trial.
  set (w1 := fst (start_enroll w)).
  rewrite (dispatch_phone_text cfg e2 w1 phone u eq_refl
             (regexp_not_command _ Hre)), Hre.
  rewrite (set_phone_manual_eq (text_message phone u) w1 phone eq_refl).
  destruct (Z.ltb_spec (Str.len (Str.digits (Str.strip phone))) 10);
    [lia|]. cbn [fst].
  set (w2 := replied _ AskName ReplyKeyboardRemove).
  rewrite (dispatch_name_text cfg e3 w2 (text_message name u) name eq_refl
             eq_refl Hcmd).
  rewrite (set_name_full_eq cfg (text_message name u) w2 name first second
             rest Hi eq_refl Hsplit).
  change (db w2) with (db w).
  destruct (seats cfg (db w)) as [|s ss] eqn:Hs; [done|]. cbn zeta. cbn [fst].
  set (w3 := replied _ (ChooseAgeSchedule _) _).
  rewrite (dispatch_age_label cfg e4 w3 (text_message g u) g eq_refl eq_refl
             Hg).
  rewrite (set_age_eq (text_message g u) w3 g (Str.join Lit.space (first :: second :: rest))
             eq_refl); [|done]. cbn [fst].
  set (w4 := replied _ (CheckData _ _ _) confirm_kb).
  rewrite (dispatch_confirm cfg e5 w4 (text_message Lit.confirm_btn u) eq_refl
             eq_refl).
  rewrite (confirm_eq cfg e5 (text_message Lit.confirm_btn u) w4 rows
             (Str.join Lit.space (first :: second :: rest)) g
             Hi Hrows); [|done|done].
  change (db w4) with (db w).
  destruct (Z.ltb_spec 0 (remaining cfg (db w) g)); [|lia]. cbn [fst].
  split_and!; try done.
Qed.

End dialogue_steps.

Section confirm_steps.
Context (cfg : Config).

Lemma seats_of_open_group d g :
  In g AGE_GROUPS -> 0 < remaining cfg d g -> seats cfg d <> [].
Proof.
  intros Hg Hpos Hnil.
  assert (In (g, remaining cfg d g) (seats cfg d)) as Hin
    by (by apply seats_spec).
  by rewrite Hnil in Hin.
Qed.

(** Confirming for a full group while group [g] has a seat. *)
Lemma confirm_on_full env w m child ag g :
  initialized (db w) ->
  fsm_state w = Some Enroll.confirm ->
  text m = Some Lit.confirm_btn ->
  fsm_data w !! "child_full" = Some child ->
  fsm_data w !! "age_group" = Some ag ->
  remaining cfg (db w) ag = 0 ->
  In g AGE_GROUPS ->
  0 < remaining cfg (db w) g ->
  dispatch cfg env m w = (sent_back cfg w, inr tt).
Proof.
  intros Hi Hst Ht Hc Ha Hz Hg Hpos.
  pose proof Hi as (_ & [rows Hr] & _).
  rewrite (dispatch_confirm cfg env w m Hst Ht).
  rewrite (confirm_eq cfg env m w rows child ag Hi Hr Hc Ha), Hz.
  cbn [Z.ltb Z.compare].
  pose proof (seats_of_open_group _ _ Hg Hpos).
  by destruct (seats cfg (db w)).
Qed.

(** X11. A confirmation for a group that has filled up in the meantime
    is sent back: when [get_remaining] gives 0 for the chosen group and
    some group of [AGE_GROUPS] has a seat, nothing is written, the
    session returns to the age-group step with all its fields, and the
    reply lists exactly the groups of [AGE_GROUPS] with a seat, each
    with the number [get_remaining] gives, on the keyboard as in the
    text. *)
Theorem full_group_sent_back env w m child ag g n :
  fsm_state w = Some Enroll.confirm ->
  text m = Some Lit.confirm_btn ->
  fsm_data w !! "child_full" = Some child ->
  fsm_data w !! "age_group" = Some ag ->
  get_remaining cfg ag (db w) = (db w, inr 0) ->
  In g AGE_GROUPS ->
  get_remaining cfg g (db w) = (db w, inr n) ->
  0 < n ->
  exists left,
    dispatch cfg env m w =
    (mkWorld (db w) (Some Enroll.age_group) (fsm_data w)
       (replies w ++
          [Answer (ChooseAgeLeft left) (age_kb (map fst left))])
       (admin_inbox w) (log w), inr tt) /\
    In (g, n) left /\
    forall g' n', In (g', n') left <->
      In g' AGE_GROUPS /\ 0 < n' /\
      get_remaining cfg g' (db w) = (db w, inr n').
Proof.
  intros Hst Ht Hc Ha Hz Hg Hn Hpos.
  apply get_remaining_initialized in Hz as [Hi Hz].
  apply get_remaining_initialized in Hn as [_ ->].
  exists (seats cfg (db w)). split_and!.
  - by eapply confirm_on_full.
  - by apply seats_spec.
  - intros g' n'. rewrite seats_spec. rewrite get_remaining_ok by done.
    split.
    + intros (? & Hn' & ?). by subst n'.
    + intros (? & ? & Hn'). by injection Hn' as <-.
Qed.

(** X12. After being sent back the user can take a seat elsewhere
    without typing anything again: on a store where the chosen group
    is full and group [g] has a seat, the updates "confirm", the label
    of [g], "confirm" append one row for [g] with the name and the
    phone the session already held, and clear the session. *)
Theorem rechoose_after_full e1 e2 e3 u w rows child ag g n :
  fsm_state w = Some Enroll.confirm ->
  fsm_data w !! "child_full" = Some child ->
  fsm_data w !! "age_group" = Some ag ->
  enrollments (db w) = Some rows ->
  get_remaining cfg ag (db w) = (db w, inr 0) ->
  In g AGE_GROUPS ->
  get_remaining cfg g (db w) = (db w, inr n) ->
  0 < n ->
  let w' :=
    dialogue cfg
      [ (e1, text_message Lit.confirm_btn u);
        (e2, text_message g u);
        (e3, text_message Lit.confirm_btn u) ] w in
  db w' =
    with_new_row (db w) rows
      (mkCall (utcnow_enroll e3) child g (fsm_data w !! "phone")
         (user_id u) (username u)) /\
  fsm_state w' = None /\
  fsm_data w' = ∅.
Proof.
  intros Hst Hc Ha Hr Hz Hg Hn Hpos.
  apply get_remaining_initialized in Hz as [Hi Hz].
  apply get_remaining_initialized in Hn as [_ ->].
  unfold dialogue. cbn [fold_left fst snd].
  rewrite (confirm_on_full e1 w (text_message Lit.confirm_btn u) child ag g)
    by done. cbn [fst].
  rewrite (dispatch_age_label cfg e2 (sent_back cfg w) (text_message g u) g
             eq_refl eq_refl Hg).
  rewrite (set_age_eq (text_message g u) (sent_back cfg w) g child eq_refl Hc).
  cbn [fst].
  set (w2 := replied _ (CheckData _ _ _) confirm_kb).
  rewrite (dispatch_confirm cfg e3 w2 (text_message Lit.confirm_btn u) eq_refl
             eq_refl).
  rewrite (confirm_eq cfg e3 (text_message Lit.confirm_btn u) w2 rows child g
             Hi Hr).
  - change (db w2) with (db w).
    destruct (Z.ltb_spec 0 (remaining cfg (db w) g)); [|lia]. cbn [fst].
    split_and!; try done.
    unfold confirmed. cbn [db]. f_equal.
    unfold confirm_call. f_equal.
    subst w2. cbn [fsm_data replied moved sent_back].
    by rewrite lookup_insert_ne.
  - subst w2. cbn [fsm_data replied moved sent_back].
    by rewrite lookup_insert_ne.
  - subst w2. cbn [fsm_data replied moved sent_back].
    by rewrite lookup_insert_eq.
Qed.

(** X13. Two sessions and one seat: when [get_remaining] gives 1 for a
    group and two sessions on the same store are in the confirmation
    step for it, the one whose confirmation is handled first gets the
    row and is cleared; the other, handled on the store the first left,
    writes nothing, keeps its fields and stays in the dialogue (in the
    confirmation step with an apology when no group has a seat, else
    sent back to the age-group step). *)
Theorem last_seat_one_winner e1 e2 m1 m2 w1 w2 rows c1 c2 ag :
  get_remaining cfg ag (db w1) = (db w1, inr 1) ->
  enrollments (db w1) = Some rows ->
  fsm_state w1 = Some Enroll.confirm ->
  fsm_state w2 = Some Enroll.confirm ->
  text m1 = Some Lit.confirm_btn ->
  text m2 = Some Lit.confirm_btn ->
  fsm_data w1 !! "child_full" = Some c1 ->
  fsm_data w1 !! "age_group" = Some ag ->
  fsm_data w2 !! "child_full" = Some c2 ->
  fsm_data w2 !! "age_group" = Some ag ->
  db w2 = db (fst (dispatch cfg e1 m1 w1)) ->
  let r1 := dispatch cfg e1 m1 w1 in
  let r2 := dispatch cfg e2 m2 w2 in
  snd r1 = inr tt /\ snd r2 = inr tt /\
  fsm_state (fst r1) = None /\
  (exists row,
     enrollments (db (fst r1)) = Some (rows ++ [row]) /\
     Row.child_full row = c1 /\ Row.age_group row = ag /\
     Row.tg_user_id row = Some (user_id (from_user m1))) /\
  db (fst r2) = db (fst r1) /\
  fsm_data (fst r2) = fsm_data w2 /\
  (fsm_state (fst r2) = Some Enroll.confirm \/
   fsm_state (fst r2) = Some Enroll.age_group).
Proof.
  intros Hrem Hr Hs1 Hs2 Ht1 Ht2 Hc1 Ha1 Hc2 Ha2 Hdb.
  apply get_remaining_initialized in Hrem as [Hi Hrem].
  cbn zeta. rewrite (dispatch_confirm cfg e1 w1 m1 Hs1 Ht1) in *.
  rewrite (confirm_eq cfg e1 m1 w1 rows c1 ag Hi Hr Hc1 Ha1) in *.
  rewrite <- Hrem in *. cbn [Z.ltb Z.compare fst snd] in *.
  assert (initialized (db w2)) as Hi2.
  { rewrite Hdb. apply with_new_row_initialized. by destruct Hi as (_ & _ & ?). }
  assert (remaining cfg (db w2) ag = 0) as Hz.
  { rewrite Hdb. cbn [confirmed db]. unfold remaining.
    rewrite (with_new_row_count (db w1) rows _ ag Hr).
    rewrite (with_new_row_limit cfg (db w1) rows _ ag).
    cbn [confirm_call call_age_group]. unfold Str.eqb.
    rewrite bool_decide_eq_true_2 by done. unfold remaining in Hrem. lia. }
  rewrite (dispatch_confirm cfg e2 w2 m2 Hs2 Ht2).
  assert (enrollments (db w2) =
          Some (rows ++ [new_row (db w1) rows
                           (confirm_call e1 m1 (fsm_data w1) c1 ag)])) as Hr2
    by (by rewrite Hdb).
  rewrite (confirm_eq cfg e2 m2 w2 _ c2 ag Hi2 Hr2 Hc2 Ha2), Hz.
  cbn [Z.ltb Z.compare].
  split_and!; try done.
  - by destruct (seats cfg (db w2)).
  - by eexists.
  - by destruct (seats cfg (db w2)).
  - by destruct (seats cfg (db w2)).
  - destruct (seats cfg (db w2)); [left|right]; done.
Qed.

End confirm_steps.

(** ** The steps of the session *)

Section session_steps.
Context (cfg : Config) (env : Env).

Local Ltac solve_step := unfold step_allowed; cbn; naive_solver.

Lemma set_name_full_state m w :
  (fsm_state (fst (set_name_full cfg m w)) = fsm_state w /\
   fsm_data (fst (set_name_full cfg m w)) = fsm_data w) \/
  fsm_state (fst (set_name_full cfg m w)) = Some Enroll.age_group.
Proof.
  unfold set_name_full, text_str. destruct (text m) as [t|]; [|by left].
  erewrite bind_ok; [|reflexivity].
  destruct (Str.len _ <? 2); [by left|]. right.
  unfold bind, update_data, set_state, modify, lift_db, answer. cbn [db].
  destruct (remaining_by_group cfg (db w)) as [d1 [e|lft]]; [done|].
  destruct (all_zero lft); [done|]. cbn [db].
  by destruct (age_kb_dynamic cfg d1) as [d2 [e|kb]].
Qed.

Lemma set_age_state m w :
  (fsm_state (fst (set_age m w)) = fsm_state w /\
   fsm_data (fst (set_age m w)) = fsm_data w) \/
  fsm_state (fst (set_age m w)) = Some Enroll.confirm.
Proof.
  unfold set_age, text_str. destruct (text m) as [t|]; [|by left].
  erewrite bind_ok; [|reflexivity]. right.
  unfold bind, update_data, set_state, modify, get_data, gets, getitem,
    answer, ret, raise.
  cbn [fsm_data]. rewrite lookup_insert_eq.
  by destruct (<["age_group":=t]> (fsm_data w) !! "child_full").
Qed.

Lemma confirm_state m w :
  (fsm_state (fst (confirm cfg env m w)) = fsm_state w /\
   fsm_data (fst (confirm cfg env m w)) = fsm_data w) \/
  (fsm_state (fst (confirm cfg env m w)) = None /\
   fsm_data (fst (confirm cfg env m w)) = ∅) \/
  fsm_state (fst (confirm cfg env m w)) = Some Enroll.age_group.
Proof.
  unfold confirm, bind, get_data, gets, getitem, ret, raise, lift_db.
  destruct (fsm_data w !! "child_full") as [child|]; [|by left].
  destruct (fsm_data w !! "age_group") as [ag|]; [|by left].
  destruct (try_enroll _ _ _ _ _ _ _ (db w)) as [d1 [e|[|]]]; [by left| |].
  - right. left. cbn [negb].
    destruct (ADMIN_ID cfg) as [a|]; [|done].
    destruct (a =? 0); [done|].
    by destruct (send_message_raises env).
  - cbn [negb db].
    destruct (remaining_by_group cfg d1) as [d2 [e|lft]]; [by left|].
    destruct (all_zero lft); [by left|]. cbn [db].
    destruct (age_kb_dynamic cfg d2) as [d3 [e|kb]]; [by left|].
    by right; right.
Qed.

(** X14. No step of the dialogue is skipped, on any store and for any
    update: the session stays where it is, goes to the menu, restarts
    at the phone step, moves one step forward (phone, name, age group,
    confirmation), or goes back from the confirmation to the age
    groups. In particular the confirmation step is entered only from
    the age-group step. *)
Theorem no_step_skipped m w :
  step_allowed (fsm_state w) (fsm_state (fst (dispatch cfg env m w))).
Proof.
  unfold dispatch.
  destruct (text_in m _); [solve_step|].
  destruct (text_is m Lit.enroll_trial); [solve_step|].
  destruct (fsm_state w) as [[| | |]|] eqn:Hst;
    unfold in_state; rewrite Hst; cbn [Enroll.eqb andb].
  - destruct (set_name_full_state m w) as [[H _]|H];
      (rewrite H, ?Hst; solve_step).
  - destruct (text_in m AGE_GROUPS).
    + destruct (set_age_state m w) as [[H _]|H];
        (rewrite H, ?Hst; solve_step).
    + destruct (text_is m Lit.ask_btn);
        [unfold ask_question; destruct (build_chat_url cfg); solve_step|].
      destruct (text_is m Lit.contacts_btn); [|solve_step].
      unfold contacts.
      destruct (answer_contact_raises env), (build_chat_url cfg); solve_step.
  - destruct (contact m) as [c|].
    + unfold set_phone_from_contact.
      destruct (match contact_user_id c with
                | Some u => u =? user_id (from_user m)
                | None => true
                end); solve_step.
    + destruct (text_regexp m); [|solve_step].
      unfold set_phone_manual, text_str.
      destruct (text m) as [t|]; [|solve_step].
      erewrite bind_ok; [|reflexivity].
      destruct (Str.len _ <? 10); solve_step.
  - destruct (text_is m Lit.confirm_btn).
    + destruct (confirm_state m w) as [[H _]|[[H _]|H]];
        (rewrite H, ?Hst; solve_step).
    + destruct (text_is m Lit.edit_btn); [solve_step|].
      destruct (text_is m Lit.ask_btn);
        [unfold ask_question; destruct (build_chat_url cfg); solve_step|].
      destruct (text_is m Lit.contacts_btn); [|solve_step].
      unfold contacts.
      destruct (answer_contact_raises env), (build_chat_url cfg); solve_step.
  - destruct (text_is m Lit.ask_btn);
      [unfold ask_question; destruct (build_chat_url cfg); solve_step|].
    destruct (text_is m Lit.contacts_btn); [|solve_step].
    unfold contacts.
    destruct (answer_contact_raises env), (build_chat_url cfg); solve_step.
Qed.

(** One update keeps the session free of stale fields. *)
Lemma dispatch_no_stale m w :
  no_stale_fields w -> no_stale_fields (fst (dispatch cfg env m w)).
Proof.
  unfold no_stale_fields. intros Hw. unfold dispatch.
  destruct (text_in m _); [done|].
  destruct (text_is m Lit.enroll_trial); [done|].
  assert (forall w',
            fsm_state w' = fsm_state w -> fsm_data w' = fsm_data w ->
            fsm_state w' = None \/ fsm_state w' = Some Enroll.phone ->
            fsm_data w' = ∅) as Hsame.
  { intros w' -> ->. done. }
  assert (forall w' st,
            fsm_state w' = Some st -> st <> Enroll.phone ->
            fsm_state w' = None \/ fsm_state w' = Some Enroll.phone ->
            fsm_data w' = ∅) as Hon.
  { intros w' st -> Hne [|[= ->]]; done. }
  assert (forall r : World * (Exn + unit),
            text_is m Lit.ask_btn = true \/ text_is m Lit.ask_btn = false ->
            r = (if text_is m Lit.ask_btn then ask_question cfg w
                 else if text_is m Lit.contacts_btn then contacts cfg env w
                 else fallback w) ->
            fsm_state (fst r) = None \/ fsm_state (fst r) = Some Enroll.phone ->
            fsm_data (fst r) = ∅) as Hmenu.
  { intros r _ ->.
    destruct (text_is m Lit.ask_btn);
      [unfold ask_question; by destruct (build_chat_url cfg)|].
    destruct (text_is m Lit.contacts_btn); [|by apply Hsame].
    unfold contacts.
    by destruct (answer_contact_raises env), (build_chat_url cfg). }
  assert (forall b, b = true \/ b = false) as Hb by (intros []; auto).
  destruct (fsm_state w) as [[| | |]|] eqn:Hst;
    unfold in_state; rewrite Hst; cbn [Enroll.eqb andb].
  - destruct (set_name_full_state m w) as [[H H']|H].
    + apply Hsame; congruence.
    + by apply (Hon _ _ H).
  - destruct (text_in m AGE_GROUPS).
    + destruct (set_age_state m w) as [[H H']|H].
      * apply Hsame; congruence.
      * by apply (Hon _ _ H).
    + by eapply Hmenu.
  - destruct (contact m) as [c|].
    + unfold set_phone_from_contact.
      destruct (match contact_user_id c with
                | Some u => u =? user_id (from_user m)
                | None => true
                end); [by apply (Hon _ Enroll.name_full)|].
      apply Hsame; by rewrite ?Hst.
    + destruct (text_regexp m); [|apply Hsame; by rewrite ?Hst].
      unfold set_phone_manual, text_str.
      destruct (text m) as [t|]; [|apply Hsame; by rewrite ?Hst].
      erewrite bind_ok; [|reflexivity].
      destruct (Str.len _ <? 10); [apply Hsame; by rewrite ?Hst|].
      by apply (Hon _ Enroll.name_full).
  - destruct (text_is m Lit.confirm_btn).
    + destruct (confirm_state m w) as [[H H']|[[H H']|H]].
      * apply Hsame; congruence.
      * done.
      * by apply (Hon _ _ H).
    + destruct (text_is m Lit.edit_btn); [done|]. by eapply Hmenu.
  - by eapply Hmenu.
Qed.

End session_steps.

(** X15. No field is carried over from one enrollment to the next:
    along every dialogue, on any store, a session that starts without
    stale fields has none whenever it is idle or at the phone step, so
    the name, group and phone a confirmation writes were all entered
    since the last restart. *)
Theorem dialogue_no_stale_fields cfg evs : forall w,
  no_stale_fields w -> no_stale_fields (dialogue cfg evs w).
Proof.
  induction evs as [|[env m] evs IH]; intros w H; [done|].
  apply IH. by apply dispatch_no_stale.
Qed.

(** ** Contacts and links *)

Section contact_steps.
Context (cfg : Config) (env : Env).

(** X16. A shared contact is used in the phone step only, and only the
    sender's own: in the phone step a contact with another user's id
    gets the request to share one's own and changes nothing in the
    session or the store; outside the phone step the router never looks
    at the contact, the update is handled as the same message without
    it. *)
Theorem foreign_contact_refused m w :
  (forall c other,
     fsm_state w = Some Enroll.phone ->
     contact m = Some c ->
     contact_user_id c = Some other ->
     other <> user_id (from_user m) ->
     match text m with
     | Some t => is_command t = false
     | None => True
     end ->
     dispatch cfg env m w = (replied w OwnContactPlease no_markup, inr tt)) /\
  (fsm_state w <> Some Enroll.phone ->
   dispatch cfg env m w =
   dispatch cfg env (mkMessage (text m) None (from_user m)) w).
Proof.
  split.
  - intros c other Hst Hc Hid Hne Ht.
    unfold dispatch, text_in, text_is, in_state.
    assert ((match text m with
             | Some t => Str.mem t [Lit.slash_start; Lit.start; Lit.menu]
             | None => false
             end = false) /\
            (match text m with
             | Some t => Str.eqb t Lit.enroll_trial
             | None => false
             end = false)) as [-> ->].
    { destruct (text m) as [t|]; [|done]. by apply is_command_false. }
    rewrite Hst, Hc. cbn [Enroll.eqb]. unfold set_phone_from_contact.
    rewrite Hid.
    destruct (Z.eqb_spec other (user_id (from_user m))); done.
  - intros Hst. unfold dispatch, in_state.
    destruct (fsm_state w) as [[| | |]|]; try done.
Qed.

End contact_steps.

Section links.
Context (cfg : Config).

Lemma lstrip_char_spec ch s :
  exists k,
    s = replicate k ch ++ Str.lstrip_char ch s /\
    head (Str.lstrip_char ch s) <> Some ch.
Proof.
  induction s as [|c s IH].
  - by exists 0%nat.
  - cbn [Str.lstrip_char]. destruct (N.eqb_spec c ch) as [->|Hne].
    + destruct IH as (k & Hk & Hh). exists (Datatypes.S k). cbn [replicate].
      split; [|done]. cbn [app]. by rewrite <- Hk.
    + exists 0%nat. split; [done|]. cbn. congruence.
Qed.

(** X17. The link to the director: a non-empty [DIRECTOR_USERNAME]
    always wins and gives the t.me link for the name with all its
    leading @ removed and nothing else changed (so a name made of @
    only gives a link with an empty name, even when an administrator id
    is set); otherwise a non-zero [ADMIN_ID] gives the tg://user link;
    there is no link exactly when neither is set. *)
Theorem build_chat_url_spec :
  (forall name,
     DIRECTOR_USERNAME cfg = Some name -> name <> [] ->
     exists k handle,
       build_chat_url cfg = Some (TMe handle) /\
       name = replicate k 64%N ++ handle /\
       head handle <> Some 64%N) /\
  (DIRECTOR_USERNAME cfg = None \/ DIRECTOR_USERNAME cfg = Some [] ->
   forall a, ADMIN_ID cfg = Some a -> a <> 0 ->
     build_chat_url cfg = Some (TgUser a)) /\
  (build_chat_url cfg = None <->
   (DIRECTOR_USERNAME cfg = None \/ DIRECTOR_USERNAME cfg = Some []) /\
   (ADMIN_ID cfg = None \/ ADMIN_ID cfg = Some 0)).
Proof.
  unfold build_chat_url. split_and!.
  - intros name -> Hne. destruct name as [|c u]; [done|].
    destruct (lstrip_char_spec 64%N (c :: u)) as (k & Hk & Hh).
    by exists k, (Str.lstrip_char 64 (c :: u)).
  - intros Hd a -> Ha.
    destruct Hd as [-> | ->]; by destruct (Z.eqb_spec a 0).
  - destruct (DIRECTOR_USERNAME cfg) as [[|c u]|];
      destruct (ADMIN_ID cfg) as [a|]; try destruct (Z.eqb_spec a 0);
      subst; (split; [intros ?; split; auto; congruence|]);
      intros [[?|?] [?|?]]; congruence.
Qed.

Lemma filter_filter_andb {A} (f g : A -> bool) l :
  List.filter f (List.filter g l) = List.filter (fun x => g x && f x) l.
Proof.
  induction l as [|x l IH]; [done|]. cbn [List.filter].
  destruct (g x); cbn [andb List.filter]; [destruct (f x)|]; by rewrite IH.
Qed.

(** X18. The contacts reply is best effort: [contacts] returns
    normally whether or not sending the contact card raises; the
    session is cleared and the store untouched; the card, when it goes
    out, carries [ADMIN_PHONE] without its "+", spaces and "-", all
    other characters kept in order; a failed send leaves one warning in
    the log instead; and the closing message is sent in both cases,
    with the link button exactly when [build_chat_url] gives a link. *)
Theorem contacts_best_effort env w :
  let w' := fst (contacts cfg env w) in
  let card :=
    List.filter
      (fun c => negb (c =? 43) && (negb (c =? 32) && negb (c =? 45)))%N
      (ADMIN_PHONE cfg) in
  let closing :=
    Answer DirectorContacts
      (match build_chat_url cfg with
       | Some url => url_kb url
       | None => no_markup
       end) in
  snd (contacts cfg env w) = inr tt /\
  db w' = db w /\ fsm_state w' = None /\ fsm_data w' = ∅ /\
  admin_inbox w' = admin_inbox w /\
  match answer_contact_raises env with
  | None =>
      replies w' = replies w ++ [AnswerContact card; closing] /\
      log w' = log w
  | Some e =>
      replies w' = replies w ++ [closing] /\
      log w' = log w ++ [SendContactFailed e]
  end.
Proof.
  cbn zeta. unfold contacts, Str.remove_char.
  rewrite !filter_filter_andb.
  destruct (answer_contact_raises env); cbn;
    split_and!; try done; try (by rewrite <- app_assoc).
Qed.

End links.

(** ** The stored name *)

Section stored_name.
Context (cfg : Config).

Lemma split_from_token cur t s :
  Forall (fun c => Unicode.isspace c = false) t ->
  Str.split_from cur (t ++ s) = Str.split_from (cur ++ t) s.
Proof.
  revert cur. induction t as [|c t IH]; intros cur Ht.
  - by rewrite app_nil_r.
  - inversion_clear Ht as [|? ? Hc Ht']. cbn [app Str.split_from].
    rewrite Hc, IH by done. by rewrite <- app_assoc.
Qed.

(** [split] undoes [" ".join] on tokens. *)
Lemma split_join_tokens toks :
  Forall Str.is_token toks ->
  Str.split (Str.join Lit.space toks) = toks.
Proof.
  unfold Str.split. induction toks as [|t toks IH]; [done|].
  intros Hall. inversion_clear Hall as [|? ? [Hne Ht] Htoks].
  cbn [Str.join]. destruct toks as [|t' toks].
  - rewrite <- (app_nil_r t) at 1. rewrite split_from_token by done.
    cbn [app Str.split_from]. by destruct t.
  - rewrite split_from_token by done. cbn [app].
    change (Lit.space ++ ?x) with (32%N :: x).
    cbn [Str.split_from].
    change (Unicode.isspace 32) with true. cbn iota.
    rewrite IH by done. by destruct t.
Qed.

Lemma set_name_full_stores m w t first second rest :
  text m = Some t ->
  Str.split t = first :: second :: rest ->
  fsm_data (fst (set_name_full cfg m w)) !! "child_full" =
  Some (Str.join Lit.space (first :: second :: rest)).
Proof.
  intros Ht Hs.
  pose proof (set_name_full_accept cfg m w t first second rest Ht Hs)
    as (_ & Hd & _).
  rewrite Hd, lookup_insert_eq. done.
Qed.

(** X19. The stored name is stable: what [set_name_full] stores for a
    text of two tokens or more splits back into the same tokens, so
    typing the stored name again stores it unchanged, on any store and
    in any session. *)
Theorem stored_name_is_stable m w t first second rest :
  text m = Some t ->
  Str.split t = first :: second :: rest ->
  exists n,
    fsm_data (fst (set_name_full cfg m w)) !! "child_full" = Some n /\
    Str.split n = Str.split t /\
    forall m2 w2,
      text m2 = Some n ->
      fsm_data (fst (set_name_full cfg m2 w2)) !! "child_full" = Some n.
Proof.
  intros Ht Hs. exists (Str.join Lit.space (first :: second :: rest)).
  assert (Str.split (Str.join Lit.space (first :: second :: rest)) =
          first :: second :: rest) as Hsplit.
  { apply split_join_tokens. rewrite <- Hs. apply Str_split_tokens. }
  split_and!.
  - by eapply set_name_full_stores.
  - by rewrite Hs.
  - intros m2 w2 Ht2. by eapply set_name_full_stores.
Qed.

End stored_name.

(** ** The menu buttons during the dialogue *)

Section menu_buttons.
Context (cfg : Config) (env : Env).

(** X20. What the two menu buttons "ask a question" and "contacts" do
    depends on the step, because the step handlers are registered
    before them. Outside the phone and name steps they reach
    [ask_question] and [contacts], which drop the session. In the phone
    step both get the phone format help and the session is kept. In
    the name step "contacts" gets the name re-prompt, and "ask a
    question", having two words, is stored as the child's name and
    moves the session to the age-group step. *)
Theorem menu_buttons_by_step u w :
  let ask := text_message Lit.ask_btn u in
  let con := text_message Lit.contacts_btn u in
  (fsm_state w <> Some Enroll.phone ->
   fsm_state w <> Some Enroll.name_full ->
   dispatch cfg env ask w = ask_question cfg w /\
   dispatch cfg env con w = contacts cfg env w /\
   idle (fst (dispatch cfg env ask w)) /\
   idle (fst (dispatch cfg env con w))) /\
  (fsm_state w = Some Enroll.phone ->
   dispatch cfg env ask w = (replied w PhoneFormatHelp no_markup, inr tt) /\
   dispatch cfg env con w = (replied w PhoneFormatHelp no_markup, inr tt)) /\
  (fsm_state w = Some Enroll.name_full ->
   dispatch cfg env con w = (replied w NameReprompt no_markup, inr tt) /\
   fsm_state (fst (dispatch cfg env ask w)) = Some Enroll.age_group /\
   fsm_data (fst (dispatch cfg env ask w)) =
     <["child_full" := Lit.ask_btn]> (fsm_data w)).
Proof.
  cbn zeta. split_and!.
  - intros Hp Hn.
    assert (dispatch cfg env (text_message Lit.ask_btn u) w =
            ask_question cfg w) as ->.
    { unfold dispatch, in_state.
      destruct (fsm_state w) as [[| | |]|]; try done. }
    assert (dispatch cfg env (text_message Lit.contacts_btn u) w =
            contacts cfg env w) as ->.
    { unfold dispatch, in_state.
      destruct (fsm_state w) as [[| | |]|]; try done. }
    split_and!; try done.
    + unfold ask_question. by destruct (build_chat_url cfg).
    + unfold contacts.
      by destruct (answer_contact_raises env), (build_chat_url cfg).
  - intros Hst.
    rewrite !(dispatch_phone_text cfg env w _ u Hst) by (vm_compute; done).
    assert (Re.phone_regexp Lit.ask_btn = false) as -> by (vm_compute; done).
    assert (Re.phone_regexp Lit.contacts_btn = false) as ->
      by (vm_compute; done).
    done.
  - intros Hst.
    rewrite (dispatch_name_text cfg env w (text_message Lit.contacts_btn u)
               Lit.contacts_btn Hst eq_refl) by (vm_compute; done).
    rewrite (dispatch_name_text cfg env w (text_message Lit.ask_btn u)
               Lit.ask_btn Hst eq_refl) by (vm_compute; done).
    split.
    + apply (set_name_full_reject cfg (text_message Lit.contacts_btn u) w
               Lit.contacts_btn eq_refl).
      vm_compute. lia.
    + pose proof (set_name_full_accept cfg (text_message Lit.ask_btn u) w
                    Lit.ask_btn _ _ _ eq_refl
                    (eq_refl : Str.split Lit.ask_btn =
                               [ [1047; 1072; 1076; 1072; 1090; 1100];
                                 [1074; 1086; 1087; 1088; 1086; 1089] ]%N))
        as (H1 & H2 & _).
      split; [done|]. by rewrite H2.
Qed.

End menu_buttons.

(** ** Reading the store *)

Section reads.
Context (cfg : Config).

(** X21. The three read helpers never write: on every store, whether
    they return or raise, [count_in_group], [get_group_limit] and
    [get_remaining] leave both tables, the index and the id counter as
    they were (opening the connection only sets the journal mode).
    Each returns exactly when the table it reads exists; a group
    without a row in [group_limits] has the limit
    [DEFAULT_GROUP_LIMIT]; and the seats left are never negative. *)
Theorem reads_change_nothing ag d :
  same_tables d (fst (count_in_group ag d)) /\
  same_tables d (fst (get_group_limit cfg ag d)) /\
  same_tables d (fst (get_remaining cfg ag d)) /\
  ((exists n, snd (count_in_group ag d) = inr n) <->
   is_Some (enrollments d)) /\
  ((exists l, snd (get_group_limit cfg ag d) = inr l) <->
   is_Some (group_limits d)) /\
  ((exists n, snd (get_remaining cfg ag d) = inr n) <->
   is_Some (enrollments d) /\ is_Some (group_limits d)) /\
  (forall tbl,
     group_limits d = Some tbl -> tbl !! ag = None ->
     snd (get_group_limit cfg ag d) = inr (DEFAULT_GROUP_LIMIT cfg)) /\
  (forall n, snd (get_remaining cfg ag d) = inr n -> 0 <= n).
Proof.
  unfold get_remaining, bind.
  rewrite get_group_limit_eq, count_in_group_eq.
  destruct (group_limits d) as [tbl|] eqn:Hg.
  - rewrite count_in_group_eq. cbn [Sql.pragma_wal enrollments].
    destruct (enrollments d) as [rows|] eqn:Hr; cbn [fst snd];
      unfold same_tables; cbn;
      (split_and!; try done; try (by rewrite ?Hg, ?Hr)).
    + split; eauto.
    + split; eauto.
    + split; eauto.
    + by intros tbl' [= <-] ->.
    + intros n [= <-]. lia.
    + split; [by intros [? ?]|by intros [? ?]].
    + split; eauto.
    + split; [by intros [? ?]|by intros [[? ?] ?]].
    + by intros tbl' [= <-] ->.
  - destruct (enrollments d) as [rows|] eqn:Hr; cbn [fst snd];
      unfold same_tables; cbn;
      (split_and!; try done; try (by rewrite ?Hg, ?Hr)).
    + split; eauto.
    + split; [by intros [? ?]|by intros [? ?]].
    + split; [by intros [? ?]|by intros [? [? ?]]].
    + split; [by intros [? ?]|by intros [? ?]].
    + split; [by intros [? ?]|by intros [? ?]].
    + split; [by intros [? ?]|by intros [? [? ?]]].
Qed.

End reads.

(** ** The age-group keyboard *)

Section age_keyboard.
Context (cfg : Config).

(** X22. The keyboard of [age_kb_dynamic] is never empty: on a store
    that is set up it returns without changing it; when every group of
    [AGE_GROUPS] is full the keyboard has the single button back to the
    menu; otherwise its buttons are exactly the groups of [AGE_GROUPS]
    for which [get_remaining] is positive, in the order of
    [AGE_GROUPS]. *)
Theorem age_kb_dynamic_never_empty d :
  initialized d ->
  exists buttons,
    age_kb_dynamic cfg d = (d, inr (age_kb buttons)) /\
    buttons <> [] /\
    (all_full cfg d -> buttons = [Lit.back_to_menu]) /\
    (~ all_full cfg d ->
     buttons =
       List.filter
         (fun ag => match snd (get_remaining cfg ag d) with
                    | inr n => 0 <? n
                    | inl _ => false
                    end) AGE_GROUPS).
Proof.
  intros Hi. rewrite age_kb_dynamic_ok by done.
  assert (List.filter
            (fun ag => match snd (get_remaining cfg ag d) with
                       | inr n => 0 <? n
                       | inl _ => false
                       end) AGE_GROUPS =
          List.filter (fun ag => 0 <? remaining cfg d ag) AGE_GROUPS) as ->.
  { apply filter_ext. intros ag. by rewrite get_remaining_ok. }
  eexists. split; [done|].
  destruct (List.filter (fun ag => 0 <? remaining cfg d ag) AGE_GROUPS)
    as [|g gs] eqn:Hf.
  - split_and!; [done|done|]. intros Hnot. exfalso. apply Hnot.
    apply List.Forall_forall. intros ag Hin.
    pose proof (remaining_nonneg cfg d ag).
    destruct (Z.ltb_spec 0 (remaining cfg d ag)) as [Hpos|]; [|lia].
    assert (In ag (List.filter (fun ag => 0 <? remaining cfg d ag)
                     AGE_GROUPS)) as Hin'.
    { apply filter_In. split; [done|]. by apply Z.ltb_lt. }
    by rewrite Hf in Hin'.
  - split_and!; [done| |done]. intros Hfull.
    assert (In g (List.filter (fun ag => 0 <? remaining cfg d ag)
                    AGE_GROUPS)) as Hin by (rewrite Hf; by left).
    apply filter_In in Hin as [Hin Hpos]. apply Z.ltb_lt in Hpos.
    unfold all_full in Hfull. rewrite List.Forall_forall in Hfull.
    specialize (Hfull g Hin). lia.
Qed.

End age_keyboard.

(** ** Concurrent calls and the seats *)

Section concurrent_seats.
Import Concurrent Capacity.
Context (cfg : Config).

(** X23. Seats are never oversold under concurrency: when
    [count_in_group] gives [c] and [get_group_limit] gives [l] for a
    group, with [c <= l], then after every schedule of any number of
    concurrent [try_enroll] calls (for any groups, each cut at its
    database statements) at most [l - c] of the calls for the group
    have returned [True], [count_in_group] gives [c] plus their number,
    the limit is unchanged and [get_remaining] gives what is left. *)
Theorem concurrent_never_oversold f0 grp c l cs sched :
  count_in_group grp f0 = (f0, inr c) ->
  get_group_limit cfg grp f0 = (f0, inr l) ->
  c <= l ->
  let g := snd (run cfg sched (init f0 cs)) in
  wins grp (threads g) <= l - c /\
  count_in_group grp (gfile g) = (gfile g, inr (c + wins grp (threads g))) /\
  get_group_limit cfg grp (gfile g) = (gfile g, inr l) /\
  get_remaining cfg grp (gfile g) =
    (gfile g, inr (l - c - wins grp (threads g))).
Proof.
  intros Hc Hl Hle.
  destruct (reads_initialized cfg grp f0 c l Hc Hl) as (Hi & -> & ->).
  destruct (run_cap_inv cfg f0 grp sched None (init f0 cs)
              (init_lock_inv f0 cs) (init_cap_inv cfg f0 grp cs Hi Hle))
    as (Hi' & Hlims & Hcap & Hcount & _).
  cbn zeta.
  set (g := snd (run cfg sched (init f0 cs))) in *.
  assert (group_limit cfg (gfile g) grp = group_limit cfg f0 grp) as Hlim
    by (unfold group_limit; by rewrite Hlims).
  split_and!.
  - lia.
  - rewrite count_in_group_ok by done. by rewrite Hcount.
  - rewrite get_group_limit_ok by done. by rewrite Hlim.
  - rewrite get_remaining_ok by done. rewrite Hlim, Hcount.
    do 2 f_equal. lia.
Qed.

End concurrent_seats.

(** ** The theorems at concrete inputs *)

Section witnesses.
Import Ex ExW ExD.

Lemma capacity_invariant_witness :
  exists d' rs,
    run_calls cfg1 [call_a; call_a] (fresh cfg1) = (d', inr rs) /\
    length rs = length [call_a; call_a] /\
    (forall k, exists n,
       count_in_group group_a
         (after_calls cfg1 (fresh cfg1) [call_a; call_a] k) =
         (after_calls cfg1 (fresh cfg1) [call_a; call_a] k, inr n) /\
       n <= 1) /\
    count_in_group group_a d' = (d', inr (Z.min 1 (successes rs))).
Proof.
  apply (capacity_invariant cfg1 (fresh cfg1) group_a 1 [call_a; call_a]).
  - vm_compute. reflexivity.
  - lia.
  - vm_compute. reflexivity.
  - repeat constructor.
Defined.

Lemma try_enroll_contract_witness :
  (10 <= 0 ->
   try_enroll cfg stamp ivan_petrov group_a (Some phone_ok) 5 None
     (fresh cfg) = (fresh cfg, inr false)) /\
  (0 < 10 ->
   exists rows row d',
     enrollments (fresh cfg) = Some rows /\
     try_enroll cfg stamp ivan_petrov group_a (Some phone_ok) 5 None
       (fresh cfg) = (d', inr true) /\
     enrollments d' = Some (rows ++ [row]) /\
     row = Row.mk (Row.id row) ivan_petrov group_a (Some phone_ok) (Some 5)
             None stamp /\
     (forall r, In r rows -> Row.id r < Row.id row) /\
     group_limits d' = group_limits (fresh cfg) /\
     idx_enrollments_age d' = idx_enrollments_age (fresh cfg) /\
     journal_wal d' = journal_wal (fresh cfg) /\
     count_in_group group_a d' = (d', inr (0 + 1))).
Proof.
  apply (try_enroll_contract cfg stamp ivan_petrov group_a (Some phone_ok) 5
           None (fresh cfg) 0 10).
  - vm_compute. reflexivity.
  - vm_compute. reflexivity.
Defined.


Lemma init_db_idempotent_witness :
  init_db_times cfg 3 empty_database = init_db cfg empty_database /\
  init_db cfg (fst (init_db cfg empty_database)) =
    init_db cfg empty_database /\
  exists d1 tbl1,
    fst (init_db cfg empty_database) = d1 /\
    initialized d1 /\
    group_limits d1 = Some tbl1 /\
    (forall ag, ag ∉ AGE_GROUPS ->
       tbl1 !! ag = default ∅ (group_limits empty_database) !! ag) /\
    enrollments d1 = Some (default [] (enrollments empty_database)) /\
    sqlite_sequence d1 = sqlite_sequence empty_database /\
    idx_enrollments_age d1 = true /\
    (Sql.fits_int64 (DEFAULT_GROUP_LIMIT cfg) = true \/
     (forall ag, ag ∈ AGE_GROUPS ->
        is_Some (default ∅ (group_limits empty_database) !! ag)) ->
     snd (init_db cfg empty_database) = inr tt /\
     forall ag, ag ∈ AGE_GROUPS ->
       tbl1 !! ag =
       Some (default (DEFAULT_GROUP_LIMIT cfg)
               (default ∅ (group_limits empty_database) !! ag))) /\
    (Sql.fits_int64 (DEFAULT_GROUP_LIMIT cfg) = false ->
     (exists ag, ag ∈ AGE_GROUPS /\
        default ∅ (group_limits empty_database) !! ag = None) ->
     snd (init_db cfg empty_database) =
       inl (OverflowError
              "Python int too large to convert to SQLite INTEGER") /\
     tbl1 = default ∅ (group_limits empty_database)).
Proof. apply (init_db_idempotent cfg empty_database 3). lia. Defined.

Lemma notification_best_effort_witness :
  exists w',
    confirm cfg env_fail (text_message Lit.confirm_btn user)
      at_confirm_fresh = (w', inr tt) /\
    db w' = with_new_row (fresh cfg) [] call_a /\
    fsm_state w' = None /\
    fsm_data w' = ∅ /\
    replies w' = replies at_confirm_fresh ++ [Answer Enrolled main_menu_kb] /\
    (forall e, send_message_raises env_fail = Some e ->
       admin_inbox w' = admin_inbox at_confirm_fresh /\
       log w' = log at_confirm_fresh ++
         match ADMIN_ID cfg with
         | Some a => if a =? 0 then [] else [NotifyFailed e]
         | None => []
         end).
Proof.
  apply (notification_best_effort cfg env_fail
           (text_message Lit.confirm_btn user) at_confirm_fresh
           ivan_petrov group_a (with_new_row (fresh cfg) [] call_a)).
  - vm_compute. reflexivity.
  - vm_compute. reflexivity.
  - vm_compute. reflexivity.
Defined.

Lemma set_age_ignores_seats_witness :
  get_remaining cfg1 group_a half_db = (half_db, inr 0) /\
  (fsm_state (fst (dispatch cfg1 env_ok (text_message group_a user)
                     at_age_half)) = Some Enroll.confirm /\
   fsm_data (fst (dispatch cfg1 env_ok (text_message group_a user)
                    at_age_half)) =
     <["age_group" := group_a]> (fsm_data at_age_half) /\
   db (fst (dispatch cfg1 env_ok (text_message group_a user) at_age_half)) =
     db at_age_half) /\
  (initialized (db at_age_half) ->
   exists buttons,
     age_kb_dynamic cfg1 (db at_age_half) =
       (db at_age_half, inr (age_kb buttons)) /\
     forall ag, In ag AGE_GROUPS ->
       (In ag buttons <->
        exists n,
          get_remaining cfg1 ag (db at_age_half) = (db at_age_half, inr n) /\
          0 < n)) /\
  (get_remaining cfg1 group_a (db at_age_half) = (db at_age_half, inr 0) ->
   forall now child_full phone uid uname,
     try_enroll cfg1 now child_full group_a phone uid uname (db at_age_half) =
     (db at_age_half, inr false)).
Proof.
  split; [vm_compute; reflexivity|].
  apply (set_age_ignores_seats cfg1 env_ok at_age_half
           (text_message group_a user) group_a).
  - reflexivity.
  - reflexivity.
  - left. reflexivity.
Defined.

Lemma phone_validation_amended_witness :
  let w := world (fresh cfg) (Some Enroll.phone) ∅ in
  (Re.phone_regexp phone_ok = true <->
   phone_ok <> [] /\ Forall (fun c => Re.phone_class c = true) phone_ok) /\
  (Re.phone_regexp phone_ok = true ->
   10 <= Str.len (Str.digits phone_ok) ->
   fsm_state (fst (dispatch cfg env_ok (text_message phone_ok user) w)) =
     Some Enroll.name_full /\
   fsm_data (fst (dispatch cfg env_ok (text_message phone_ok user) w)) =
     <["phone" := Str.strip phone_ok]> (fsm_data w) /\
   db (fst (dispatch cfg env_ok (text_message phone_ok user) w)) = db w /\
   exists a b,
     phone_ok = a ++ Str.strip phone_ok ++ b /\
     Forall (fun c => Unicode.isspace c = true) a /\
     Forall (fun c => Unicode.isspace c = true) b) /\
  (Re.phone_regexp phone_ok = false \/ Str.len (Str.digits phone_ok) < 10 ->
   fsm_state (fst (dispatch cfg env_ok (text_message phone_ok user) w)) =
     Some Enroll.phone /\
   fsm_data (fst (dispatch cfg env_ok (text_message phone_ok user) w)) =
     fsm_data w /\
   db (fst (dispatch cfg env_ok (text_message phone_ok user) w)) = db w /\
   exists txt,
     replies (fst (dispatch cfg env_ok (text_message phone_ok user) w)) =
     replies w ++ [Answer txt no_markup]).
Proof.
  apply (phone_validation_amended cfg env_ok
           (world (fresh cfg) (Some Enroll.phone) ∅) phone_ok user).
  - reflexivity.
  - vm_compute. reflexivity.
Defined.

Lemma typed_phone_invariant_witness :
  (exists rows r,
     enrollments (db after_contact) = Some rows /\ In r rows /\
     Row.phone r = Some phone_short) /\
  exists t,
    text (text_message phone_ok user) = Some t /\
    Row.phone
      (Row.mk 2 ivan_petrov group_a (Some phone_ok) (Some 5) None stamp) =
      Some (Str.strip t) /\
    phone_well_formed (Str.strip t).
Proof.
  split.
  - eexists _, _. split_and!; [vm_compute; reflexivity|by left|reflexivity].
  - apply (proj1 (typed_phone_invariant cfg) after_contact
             [(env_ok, text_message Lit.enroll_trial user)]
             env_ok (text_message phone_ok user)
             [(env_ok, text_message typed_name user);
              (env_ok, text_message group_a user)]
             env_ok (text_message Lit.confirm_btn user)
             (default [] (enrollments (db after_contact)))
             (Row.mk 2 ivan_petrov group_a (Some phone_ok) (Some 5) None
                stamp)).
    + vm_compute. reflexivity.
    + reflexivity.
    + vm_compute. reflexivity.
    + intros a b Hab. destruct a as [|x [|y [|z a]]].
      * vm_compute. discriminate.
      * injection Hab as <- _. vm_compute. discriminate.
      * injection Hab as <- <- _. vm_compute. discriminate.
      * discriminate Hab.
    + vm_compute. reflexivity.
    + vm_compute. reflexivity.
Defined.

(** Two calls for the last seat, interleaved: the second gives up
    while the first holds the lock; run one after the other, the second
    is refused. *)
Example race_for_last_seat :
  let g := Concurrent.init (fresh cfg1) [call_a; call_a] in
  fst (Concurrent.run cfg1 [0; 1; 0; 0; 0; 0]%nat g) =
    [Concurrent.ev_begin 0; Concurrent.ev_busy 1;
     Concurrent.ev_read_count 0; Concurrent.ev_read_limit 0;
     Concurrent.ev_insert 0; Concurrent.ev_commit 0] /\
  map Concurrent.pc
    (Concurrent.threads
       (snd (Concurrent.run cfg1 [0; 0; 0; 0; 0; 1; 1; 1; 1; 1]%nat g))) =
    [Concurrent.finished (inr true); Concurrent.finished (inr false)] /\
  group_count
    (Concurrent.gfile
       (snd (Concurrent.run cfg1 [0; 0; 0; 0; 0; 1; 1; 1; 1; 1]%nat g)))
    group_a = 1.
Proof. vm_compute. split_and!; reflexivity. Qed.

Lemma remaining_decides_enroll_witness :
  0 <= 1 /\
  (1 = 0 ->
   try_enroll cfg1 stamp ivan_petrov group_a (Some phone_ok) 5 None
     (fresh cfg1) = (fresh cfg1, inr false)) /\
  (0 < 1 ->
   exists d',
     try_enroll cfg1 stamp ivan_petrov group_a (Some phone_ok) 5 None
       (fresh cfg1) = (d', inr true) /\
     get_remaining cfg1 group_a d' = (d', inr (1 - 1)) /\
     forall g m, g <> group_a ->
       get_remaining cfg1 g (fresh cfg1) = (fresh cfg1, inr m) ->
       get_remaining cfg1 g d' = (d', inr m)).
Proof.
  apply (remaining_decides_enroll cfg1 stamp ivan_petrov group_a
           (Some phone_ok) 5 None (fresh cfg1) 1).
  vm_compute. reflexivity.
Defined.

Lemma ids_stay_increasing_witness :
  ids_ok (fst (run_calls cfg1 [call_a; call_b] (fresh cfg1))) /\
  sqlite_sequence (fresh cfg1) <=
    sqlite_sequence (fst (run_calls cfg1 [call_a; call_b] (fresh cfg1))) /\
  (forall rows, enrollments (fresh cfg1) = Some rows ->
     exists more,
       enrollments (fst (run_calls cfg1 [call_a; call_b] (fresh cfg1))) =
       Some (rows ++ more)).
Proof.
  apply (ids_stay_increasing cfg1 [call_a; call_b] (fresh cfg1)).
  intros rows Hr. vm_compute in Hr. injection Hr as <-.
  split; constructor.
Defined.

Lemma first_come_first_served_witness :
  snd (run_calls cfg1 [call_a; call_a] (fresh cfg1)) = inr [true; false].
Proof.
  apply (first_come_first_served cfg1 group_a [call_a; call_a] (fresh cfg1) 1).
  - vm_compute. reflexivity.
  - repeat constructor.
Defined.

Lemma concurrent_never_oversold_witness :
  let g :=
    snd (Concurrent.run cfg1 [0; 1; 0; 0; 0; 0]%nat
           (Concurrent.init (fresh cfg1) [call_a; call_a])) in
  Capacity.wins group_a (Concurrent.threads g) <= 1 - 0 /\
  count_in_group group_a (Concurrent.gfile g) =
    (Concurrent.gfile g,
     inr (0 + Capacity.wins group_a (Concurrent.threads g))) /\
  get_group_limit cfg1 group_a (Concurrent.gfile g) =
    (Concurrent.gfile g, inr 1) /\
  get_remaining cfg1 group_a (Concurrent.gfile g) =
    (Concurrent.gfile g,
     inr (1 - 0 - Capacity.wins group_a (Concurrent.threads g))).
Proof.
  apply (concurrent_never_oversold cfg1 (fresh cfg1) group_a 0 1
           [call_a; call_a] [0; 1; 0; 0; 0; 0]%nat).
  - vm_compute. reflexivity.
  - vm_compute. reflexivity.
  - lia.
Defined.

Lemma handlers_raise_only_without_text_witness :
  let w := world (fresh cfg) (Some Enroll.name_full)
             (<["phone" := phone_ok]> ∅) in
  let m := mkMessage None None user in
  bot_inv (fst (dispatch cfg env_ok m w)) /\
  (fsm_state w = Some Enroll.name_full -> text m = None ->
   dispatch cfg env_ok m w =
   (w, inl (AttributeError "'NoneType' object has no attribute"))) /\
  (fsm_state w <> Some Enroll.name_full \/ is_Some (text m) ->
   snd (dispatch cfg env_ok m w) = inr tt).
Proof.
  apply (handlers_raise_only_without_text cfg env_ok
           (world (fresh cfg) (Some Enroll.name_full)
              (<["phone" := phone_ok]> ∅))
           (mkMessage None None user)).
  split_and!.
  - split_and!; [reflexivity|eexists; reflexivity..].
  - eexists. reflexivity.
  - intros rows r Hr. vm_compute in Hr. injection Hr as <-. intros [].
Defined.

Lemma only_confirm_writes_witness :
  let w := at_confirm_fresh in
  let m := text_message Lit.confirm_btn user in
  fsm_state w = Some Enroll.confirm /\
  text m = Some Lit.confirm_btn /\
  exists rows child ag new_id,
    enrollments (db w) = Some rows /\
    fsm_data w !! "child_full" = Some child /\
    fsm_data w !! "age_group" = Some ag /\
    get_remaining cfg ag (db w) = (db w, inr (remaining cfg (db w) ag)) /\
    0 < remaining cfg (db w) ag /\
    enrollments (db (fst (dispatch cfg env_ok m w))) =
      Some (rows ++
            [Row.mk new_id child ag (fsm_data w !! "phone")
               (Some (user_id (from_user m))) (username (from_user m))
               (utcnow_enroll env_ok)]) /\
    group_limits (db (fst (dispatch cfg env_ok m w))) = group_limits (db w) /\
    fsm_state (fst (dispatch cfg env_ok m w)) = None /\
    fsm_data (fst (dispatch cfg env_ok m w)) = ∅.
Proof.
  apply (only_confirm_writes cfg env_ok at_confirm_fresh
           (text_message Lit.confirm_btn user)).
  - split_and!.
    + split_and!; [reflexivity|eexists; reflexivity..].
    + split_and!.
      * eexists. reflexivity.
      * exists ivan_petrov. split; [reflexivity|].
        exists [ivan; [80; 101; 116; 114; 111; 118]%N].
        split_and!; [cbn; lia| |reflexivity].
        repeat constructor; discriminate.
      * exists group_a. split; [reflexivity|]. by left.
    + intros rows r Hr. vm_compute in Hr. injection Hr as <-. intros [].
  - intros H. apply (f_equal enrollments) in H. vm_compute in H.
    discriminate H.
Defined.

Lemma dialogue_append_only_witness :
  exists more,
    enrollments (db (dialogue cfg typed_dialogue (world (fresh cfg) None ∅))) =
      Some ([] ++ more) /\
    (length more <= confirm_presses typed_dialogue)%nat /\
    group_limits (db (dialogue cfg typed_dialogue (world (fresh cfg) None ∅))) =
      group_limits (db (world (fresh cfg) None ∅)).
Proof.
  apply (dialogue_append_only cfg typed_dialogue (world (fresh cfg) None ∅) []).
  - split_and!.
    + split_and!; [reflexivity|eexists; reflexivity..].
    + exact I.
    + intros rows r Hr. vm_compute in Hr. injection Hr as <-. intros [].
  - vm_compute. reflexivity.
Defined.

Lemma dialogue_rows_well_formed_witness :
  let w' := dialogue cfg typed_dialogue (world (fresh cfg) None ∅) in
  initialized (db w') /\
  session_wf w' /\
  forall rows r,
    enrollments (db w') = Some rows ->
    In r rows ->
    (exists toks,
       (2 <= length toks)%nat /\ Forall Str.is_token toks /\
       Row.child_full r = Str.join [32%N] toks) /\
    In (Row.age_group r) AGE_GROUPS /\
    is_Some (Row.phone r) /\
    is_Some (Row.tg_user_id r).
Proof.
  apply (dialogue_rows_well_formed cfg typed_dialogue
           (world (fresh cfg) None ∅)).
  split_and!.
  - split_and!; [reflexivity|eexists; reflexivity..].
  - exact I.
  - intros rows r Hr. vm_compute in Hr. injection Hr as <-. intros [].
Defined.

Lemma enrollment_dialogue_witness :
  let w' := dialogue cfg typed_dialogue (world (fresh cfg) None ∅) in
  db w' =
    with_new_row (fresh cfg) []
      (mkCall stamp ivan_petrov group_a (Some phone_ok) 5 None) /\
  fsm_state w' = None /\
  fsm_data w' = ∅ /\
  admin_inbox w' =
    [mkAdminNote ivan_petrov group_a phone_ok [45%N] 5 stamp].
Proof.
  apply (enrollment_dialogue cfg env_ok env_ok env_ok env_ok env_ok user
           phone_ok typed_name ivan [80; 101; 116; 114; 111; 118]%N []
           group_a 10 [] (world (fresh cfg) None ∅)).
  - vm_compute. reflexivity.
  - lia.
  - by left.
  - vm_compute. reflexivity.
  - vm_compute. reflexivity.
  - vm_compute. discriminate.
  - vm_compute. reflexivity.
  - discriminate.
Defined.

Lemma full_group_sent_back_witness :
  let w := world half_db (Some Enroll.confirm) collected in
  let m := text_message Lit.confirm_btn user in
  exists left,
    dispatch cfg1 env_ok m w =
    (mkWorld (db w) (Some Enroll.age_group) (fsm_data w)
       (replies w ++
          [Answer (ChooseAgeLeft left) (age_kb (map fst left))])
       (admin_inbox w) (log w), inr tt) /\
    In (group_b, 1) left /\
    forall g' n', In (g', n') left <->
      In g' AGE_GROUPS /\ 0 < n' /\
      get_remaining cfg1 g' (db w) = (db w, inr n').
Proof.
  apply (full_group_sent_back cfg1 env_ok
           (world half_db (Some Enroll.confirm) collected)
           (text_message Lit.confirm_btn user) ivan_petrov group_a group_b 1).
  - reflexivity.
  - reflexivity.
  - reflexivity.
  - reflexivity.
  - vm_compute. reflexivity.
  - right. by left.
  - vm_compute. reflexivity.
  - lia.
Defined.

Lemma rechoose_after_full_witness :
  let w := world half_db (Some Enroll.confirm) collected in
  let w' :=
    dialogue cfg1
      [ (env_ok, text_message Lit.confirm_btn user);
        (env_ok, text_message group_b user);
        (env_ok, text_message Lit.confirm_btn user) ] w in
  db w' =
    with_new_row (db w) (default [] (enrollments half_db))
      (mkCall (utcnow_enroll env_ok) ivan_petrov group_b
         (fsm_data w !! "phone") (user_id user) (username user)) /\
  fsm_state w' = None /\
  fsm_data w' = ∅.
Proof.
  apply (rechoose_after_full cfg1 env_ok env_ok env_ok user
           (world half_db (Some Enroll.confirm) collected)
           (default [] (enrollments half_db)) ivan_petrov group_a group_b 1).
  - reflexivity.
  - reflexivity.
  - reflexivity.
  - vm_compute. reflexivity.
  - vm_compute. reflexivity.
  - right. by left.
  - vm_compute. reflexivity.
  - lia.
Defined.

Lemma last_seat_one_winner_witness :
  let m := text_message Lit.confirm_btn user in
  let w1 := world (fresh cfg1) (Some Enroll.confirm) collected in
  let w2 := world half_db (Some Enroll.confirm) collected in
  let r1 := dispatch cfg1 env_ok m w1 in
  let r2 := dispatch cfg1 env_ok m w2 in
  snd r1 = inr tt /\ snd r2 = inr tt /\
  fsm_state (fst r1) = None /\
  (exists row,
     enrollments (db (fst r1)) = Some ([] ++ [row]) /\
     Row.child_full row = ivan_petrov /\ Row.age_group row = group_a /\
     Row.tg_user_id row = Some (user_id (from_user m))) /\
  db (fst r2) = db (fst r1) /\
  fsm_data (fst r2) = fsm_data w2 /\
  (fsm_state (fst r2) = Some Enroll.confirm \/
   fsm_state (fst r2) = Some Enroll.age_group).
Proof.
  apply (last_seat_one_winner cfg1 env_ok env_ok
           (text_message Lit.confirm_btn user)
           (text_message Lit.confirm_btn user)
           (world (fresh cfg1) (Some Enroll.confirm) collected)
           (world half_db (Some Enroll.confirm) collected)
           [] ivan_petrov ivan_petrov group_a).
  - vm_compute. reflexivity.
  - vm_compute. reflexivity.
  - reflexivity.
  - reflexivity.
  - reflexivity.
  - reflexivity.
  - reflexivity.
  - reflexivity.
  - reflexivity.
  - reflexivity.
  - vm_compute. reflexivity.
Defined.

Lemma dialogue_no_stale_fields_witness :
  no_stale_fields (dialogue cfg typed_dialogue (world (fresh cfg) None ∅)).
Proof.
  apply (dialogue_no_stale_fields cfg typed_dialogue
           (world (fresh cfg) None ∅)).
  intros _. reflexivity.
Defined.

Lemma stored_name_is_stable_witness :
  let m := text_message typed_name user in
  let w := world (fresh cfg) (Some Enroll.name_full) ∅ in
  exists n,
    fsm_data (fst (set_name_full cfg m w)) !! "child_full" = Some n /\
    Str.split n = Str.split typed_name /\
    forall m2 w2,
      text m2 = Some n ->
      fsm_data (fst (set_name_full cfg m2 w2)) !! "child_full" = Some n.
Proof.
  apply (stored_name_is_stable cfg (text_message typed_name user)
           (world (fresh cfg) (Some Enroll.name_full) ∅) typed_name
           ivan [80; 101; 116; 114; 111; 118]%N []).
  - reflexivity.
  - vm_compute. reflexivity.
Defined.

Lemma age_kb_dynamic_never_empty_witness :
  exists buttons,
    age_kb_dynamic cfg1 half_db = (half_db, inr (age_kb buttons)) /\
    buttons <> [] /\
    (all_full cfg1 half_db -> buttons = [Lit.back_to_menu]) /\
    (~ all_full cfg1 half_db ->
     buttons =
       List.filter
         (fun ag => match snd (get_remaining cfg1 ag half_db) with
                    | inr n => 0 <? n
                    | inl _ => false
                    end) AGE_GROUPS).
Proof.
  apply (age_kb_dynamic_never_empty cfg1 half_db).
  split_and!; [reflexivity|eexists; reflexivity..].
Defined.

End witnesses.
